(** * cmd-gen: a shallow embedding of the command-safety pipeline

    The development follows the Python package [cmd_gen]:
    - [security.py]: [validate_input], [is_safe_command], [sanitize_filename],
      [audit_command];
    - [config.py]: [BLOCKED_KEYWORDS] and the limits of the directory listing;
    - [utils.py]: the printing helpers, [get_directory_structure] and
      [clean_json_output];
    - [llm_client.py]: [fix_json_string], [generate_response];
    - [command_generator.py]: [analyze_request], [generate_command_with_inputs];
    - [cli.py]: [handle_command_request], [handle_question_request], [main].

    Modelling conventions.
    - A Python [str] is a Rocq [string]: a sequence of code points
      U+0000..U+00FF.  On that alphabet [str.lower], [\s], [\w], [\b] and the
      IGNORECASE comparison of [re] are the tables given below.
    - Values of dynamic type (what [json.loads] returns) are [pyval].
    - Printing, reading a line, the clipboard and the calls to the language
      model are effects of a state-and-exception monad [M] over a [world].
    - The directory listing is a function of the directory tree
      ([DirectoryContext]); within [M] its result for the current directory
      is a field of the [world]. *)

From Stdlib Require Import String Ascii List Bool Arith ZArith Lia DecimalString.
Import ListNotations.
Open Scope string_scope.

(* ================================================================== *)
(** * Characters and strings *)

Module Str.

(** [str.lower] on one code point of U+0000..U+00FF: A-Z and the Latin-1
    capitals U+00C0..U+00DE (U+00D7, the multiplication sign, apart) move up
    by 32; every other code point is its own lower case. *)
Definition lower_char (c : ascii) : ascii :=
  let n := nat_of_ascii c in
  if (((65 <=? n) && (n <=? 90))
      || ((192 <=? n) && (n <=? 222) && negb (n =? 215)))%nat
  then ascii_of_nat (n + 32) else c.

(** [s.lower()] *)
Fixpoint lower (s : string) : string :=
  match s with
  | EmptyString => EmptyString
  | String c s' => String (lower_char c) (lower s')
  end.

(** [\s] of a [str] pattern. *)
Definition is_space (c : ascii) : bool :=
  let n := nat_of_ascii c in
  (((9 <=? n) && (n <=? 13)) || ((28 <=? n) && (n <=? 32))
   || (n =? 133) || (n =? 160))%nat.

(** [\w] of a [str] pattern: alphanumeric in the sense of [str.isalnum], or
    the underscore. *)
Definition is_word (c : ascii) : bool :=
  let n := nat_of_ascii c in
  (((48 <=? n) && (n <=? 57)) || ((65 <=? n) && (n <=? 90)) || (n =? 95)
   || ((97 <=? n) && (n <=? 122))
   || (n =? 170) || (n =? 178) || (n =? 179) || (n =? 181) || (n =? 185) || (n =? 186)
   || ((188 <=? n) && (n <=? 190))
   || ((192 <=? n) && (n <=? 214)) || ((216 <=? n) && (n <=? 246)) || (248 <=? n))%nat.

Definition newline : ascii := ascii_of_nat 10.
Definition dquote : ascii := ascii_of_nat 34.

(** [s.startswith(p)] *)
Fixpoint starts_with (p s : string) : bool :=
  match p, s with
  | EmptyString, _ => true
  | String a p', String b s' => Ascii.eqb a b && starts_with p' s'
  | String _ _, EmptyString => false
  end.

(** [kw in s] *)
Fixpoint contains (kw s : string) : bool :=
  starts_with kw s ||
  match s with
  | EmptyString => false
  | String _ s' => contains kw s'
  end.

(** [s[n:]] *)
Fixpoint drop (n : nat) (s : string) : string :=
  match n, s with
  | O, _ => s
  | S n', String _ s' => drop n' s'
  | S _, EmptyString => EmptyString
  end.

(** [s[:n]] *)
Fixpoint take (n : nat) (s : string) : string :=
  match n, s with
  | O, _ => EmptyString
  | S n', String c s' => String c (take n' s')
  | S _, EmptyString => EmptyString
  end.

(** The last character of [s], or [d] when [s] is empty. *)
Fixpoint last_char (d : option ascii) (s : string) : option ascii :=
  match s with
  | EmptyString => d
  | String c s' => last_char (Some c) s'
  end.

Fixpoint all_chars (p : ascii -> bool) (s : string) : bool :=
  match s with
  | EmptyString => true
  | String c s' => p c && all_chars p s'
  end.

End Str.

(* ================================================================== *)
(** * Regular expressions, as far as the package uses [re] *)

Module Re.
Import Str.

(** One-character matchers. *)
Inductive atom :=
| Lit (c : ascii)             (* a literal character *)
| Dot                         (* [.] *)
| Space                       (* [\s] *)
| OneOf (cs : list ascii)     (* [[...]] *)
| NotIn (cs : list ascii).    (* [[^...]] *)

(** The pieces of a pattern.  Every repetition in the package's patterns is
    over a single-character matcher.  [GOpen] and [GClose] delimit the one
    capturing group a pattern may have. *)
Inductive item :=
| One (a : atom)
| Star (a : atom)             (* [a*], greedy *)
| Lazy (a : atom)             (* [a*?] *)
| WordB                       (* [\b] *)
| GOpen
| GClose.

Definition regex := list item.

Record flags := { ignorecase : bool; dotall : bool }.

Definition IGNORECASE : flags := {| ignorecase := true; dotall := false |}.
Definition DOTALL : flags := {| ignorecase := false; dotall := true |}.
Definition NOFLAGS : flags := {| ignorecase := false; dotall := false |}.

Definition char_eq (fl : flags) (c x : ascii) : bool :=
  if ignorecase fl then Ascii.eqb (lower_char c) (lower_char x) else Ascii.eqb c x.

Definition atom_matches (fl : flags) (a : atom) (x : ascii) : bool :=
  match a with
  | Lit c => char_eq fl c x
  | Dot => dotall fl || negb (Ascii.eqb x newline)
  | Space => is_space x
  | OneOf cs => existsb (fun c => char_eq fl c x) cs
  | NotIn cs => negb (existsb (fun c => char_eq fl c x) cs)
  end.

(** [\b]: exactly one of the characters around the position is a word
    character ([prev] is the character before it, if any). *)
Definition at_boundary (prev : option ascii) (s : string) : bool :=
  let before := match prev with Some c => is_word c | None => false end in
  let after := match s with String c _ => is_word c | EmptyString => false end in
  xorb before after.

(** The result of a match anchored at a position: its length and the span
    of group 1, all relative to that position. *)
Record span := { m_len : nat; g_start : nat; g_end : nat }.

Definition shift (r : span) : span :=
  {| m_len := S (m_len r); g_start := S (g_start r); g_end := S (g_end r) |}.

(** A backtracking matcher in the priority order of [re]: the first
    alternative tried that leads to a complete match is the one returned. *)
Fixpoint match_here (fl : flags) (re : regex) (prev : option ascii) (s : string)
  {struct re} : option span :=
  match re with
  | [] => Some {| m_len := 0; g_start := 0; g_end := 0 |}
  | One a :: re' =>
      match s with
      | String x s' =>
          if atom_matches fl a x
          then option_map shift (match_here fl re' (Some x) s')
          else None
      | EmptyString => None
      end
  | Star a :: re' =>
      (fix star (prev : option ascii) (s : string) {struct s} : option span :=
         match s with
         | String x s' =>
             if atom_matches fl a x then
               match star (Some x) s' with
               | Some r => Some (shift r)
               | None => match_here fl re' prev s
               end
             else match_here fl re' prev s
         | EmptyString => match_here fl re' prev s
         end) prev s
  | Lazy a :: re' =>
      (fix lazy (prev : option ascii) (s : string) {struct s} : option span :=
         match match_here fl re' prev s with
         | Some r => Some r
         | None =>
             match s with
             | String x s' =>
                 if atom_matches fl a x then option_map shift (lazy (Some x) s') else None
             | EmptyString => None
             end
         end) prev s
  | WordB :: re' =>
      if at_boundary prev s then match_here fl re' prev s else None
  | GOpen :: re' =>
      match match_here fl re' prev s with
      | Some r => Some {| m_len := m_len r; g_start := 0; g_end := g_end r |}
      | None => None
      end
  | GClose :: re' =>
      match match_here fl re' prev s with
      | Some r => Some {| m_len := m_len r; g_start := g_start r; g_end := 0 |}
      | None => None
      end
  end.

(** The leftmost match at or after the current position: its offset and
    its span. *)
Fixpoint search_from (fl : flags) (re : regex) (prev : option ascii) (s : string)
  : option (nat * span) :=
  match match_here fl re prev s with
  | Some r => Some (0, r)
  | None =>
      match s with
      | String x s' =>
          option_map (fun '(i, r) => (S i, r)) (search_from fl re (Some x) s')
      | EmptyString => None
      end
  end.

(** [re.search(pattern, s, flags)] *)
Definition search (fl : flags) (re : regex) (s : string) : option (nat * span) :=
  search_from fl re None s.

(** The truth value of [re.search(pattern, s, flags)]. *)
Definition found (fl : flags) (re : regex) (s : string) : bool :=
  match search fl re s with Some _ => true | None => false end.

(** [match.group(0)] *)
Definition group0 (s : string) (m : nat * span) : string :=
  take (m_len (snd m)) (drop (fst m) s).

(** [match.group(1)], given the text from the start of the match. *)
Definition group1_at (s : string) (r : span) : string :=
  take (g_end r - g_start r) (drop (g_start r) s).

(** [re.sub(pattern, repl, s)] where [repl] is a function of group 1.  The
    patterns it is used with match no empty string; [skip] counts the
    characters of the current match still to pass over. *)
Fixpoint sub_from (fl : flags) (re : regex) (repl : string -> string)
  (prev : option ascii) (skip : nat) (s : string) : string :=
  match skip with
  | S k =>
      match s with
      | String x s' => sub_from fl re repl (Some x) k s'
      | EmptyString => EmptyString
      end
  | O =>
      match s with
      | EmptyString => EmptyString
      | String x s' =>
          match match_here fl re prev s with
          | Some r =>
              match m_len r with
              | S k => repl (group1_at s r) ++ sub_from fl re repl (Some x) k s'
              | O => String x (sub_from fl re repl (Some x) 0 s')
              end
          | None => String x (sub_from fl re repl (Some x) 0 s')
          end
      end
  end.

Definition sub (fl : flags) (re : regex) (repl : string -> string) (s : string) : string :=
  sub_from fl re repl None 0 s.

(** [a+] is [aa*]. *)
Definition plus (a : atom) : regex := [One a; Star a].

(** A run of literal characters. *)
Fixpoint lits (s : string) : regex :=
  match s with
  | EmptyString => []
  | String c s' => One (Lit c) :: lits s'
  end.

End Re.

(* ================================================================== *)
(** * Dynamic values, the world and the effect monad *)

(** A Python [float] as [json.loads] reads it: the signed decimal numeral
    [mantissa * 10 ^ exponent] before it is rounded to a double, or one of
    the constants [NaN], [Infinity], [-Infinity]. *)
Inductive pyfloat :=
| FNan
| FInf (negative : bool)
| FDec (negative : bool) (mantissa exponent : Z).

(** The values [json.loads] returns.  The pairs of a [PDict] are in
    insertion order. *)
#[local] Unset Elimination Schemes.
Inductive pyval :=
| PNone
| PBool (b : bool)
| PInt (z : Z)
| PFloat (f : pyfloat)
| PStr (s : string)
| PList (l : list pyval)
| PDict (kvs : list (string * pyval)).
#[local] Set Elimination Schemes.

(** A decimal numeral rounds to a double other than zero exactly when it is
    above [2^-1075], half the least positive double (a tie rounds to the
    even neighbour, zero). *)
Definition float_nonzero (f : pyfloat) : bool :=
  match f with
  | FNan | FInf _ => true
  | FDec _ m e =>
      negb (Z.eqb m 0) &&
      (if Z.leb 0 e then true
       else Z.ltb (Z.pow 10 (Z.opp e)) (Z.abs m * Z.pow 2 1075))
  end.

(** Truth value testing ([if v:]). *)
Definition truthy (v : pyval) : bool :=
  match v with
  | PNone => false
  | PBool b => b
  | PInt z => negb (Z.eqb z 0)
  | PFloat f => float_nonzero f
  | PStr s => negb (String.eqb s EmptyString)
  | PList l => match l with [] => false | _ => true end
  | PDict kvs => match kvs with [] => false | _ => true end
  end.

(** [d.get(k)] on the pairs of a [dict]. *)
Fixpoint assoc (k : string) (kvs : list (string * pyval)) : option pyval :=
  match kvs with
  | [] => None
  | (k', v) :: rest => if String.eqb k k' then Some v else assoc k rest
  end.

Inductive exn :=
| AttributeError (what : string)
| TypeError (what : string)
| EOFError
| KeyboardInterrupt.

(** [isinstance(e, Exception)]: [KeyboardInterrupt] derives from
    [BaseException] only. *)
Definition is_Exception (e : exn) : bool :=
  match e with KeyboardInterrupt => false | _ => true end.

Inductive color := Red | Green | Yellow | Blue | Cyan | White | Plain.

(** Printed text.  What is formatted from a value of dynamic type, wrapped
    by [textwrap.fill] or taken from an exception is kept as such. *)
Inductive piece :=
| Txt (s : string)
| Val (v : pyval)             (* [str(v)] *)
| Filled (s : string)         (* [textwrap.fill(s, width=80)] *)
| ExnText (e : exn)           (* [str(e)] *)
| Rule                        (* fifty box-drawing dashes U+2500 *)
| Unspecified.                (* the message of an error of a library *)

(** The two prompts sent to the model, by template and arguments: the text
    is the template of [config.py] filled with them.  [user_inputs] lists
    the assignments [user_inputs[input_prompt] = user_response] in the order
    they were made, which determines the [dict] and its [json.dumps]. *)
Inductive llm_prompt :=
| AnalysisPrompt (directory_structure : string) (request : string)
| FinalizationPrompt (directory_structure : string) (command_template : pyval)
    (user_inputs : list (pyval * string)).

Inductive event :=
| Out (c : color) (bold : bool) (text : list piece)     (* [print_styled], [print] *)
| Asked (text : list piece)                             (* the prompt of [input] *)
| Copied (text : string)                                (* [pyperclip.copy] *)
| Generated (p : llm_prompt).                            (* [generate_content] *)

(** What a read from standard input meets.  An interrupt at another moment
    than a read is not modelled. *)
Inductive stdin_item :=
| Line (s : string)
| Interrupt.                  (* the user presses Ctrl-C *)

(** The surroundings of one invocation.  [llm] is the model behind
    [generate_content]: the text it answers with, or [None] when the call
    or reading and stripping its text raises; [literal_eval] stands for
    [ast.literal_eval] followed by [json.loads(json.dumps(_))], [None] when
    either raises. *)
Record world := {
  stdin : list stdin_item;
  llm : llm_prompt -> option string;
  literal_eval : string -> option pyval;
  directory_structure : string;        (* [get_directory_structure(".", 2)] *)
  api_key : option string;             (* [GEMINI_API_KEY] *)
  trace : list event                   (* what has happened, oldest first *)
}.

Inductive outcome (A : Type) :=
| Ret (a : A)
| Raise (e : exn)
| Exit (code : Z).            (* [sys.exit(code)] *)
Arguments Ret {A} a.
Arguments Raise {A} e.
Arguments Exit {A} code.

Definition M (A : Type) : Type := world -> outcome A * world.

Definition ret {A} (a : A) : M A := fun w => (Ret a, w).

Definition bind {A B} (m : M A) (k : A -> M B) : M B :=
  fun w =>
    match m w with
    | (Ret a, w') => k a w'
    | (Raise e, w') => (Raise e, w')
    | (Exit c, w') => (Exit c, w')
    end.

Definition raise {A} (e : exn) : M A := fun w => (Raise e, w).
Definition sys_exit {A} (code : Z) : M A := fun w => (Exit code, w).

Declare Scope monad_scope.
Delimit Scope monad_scope with monad.
Notation "x <- m ;; k" := (bind m (fun x => k))
  (at level 61, m at next level, right associativity) : monad_scope.
Notation "m ;; k" := (bind m (fun _ => k))
  (at level 61, right associativity) : monad_scope.
Open Scope monad_scope.

(** The world after [n] reads from standard input and the events [evs]. *)
Definition advance (w : world) (n : nat) (evs : list event) : world :=
  {| stdin := skipn n (stdin w); llm := llm w; literal_eval := literal_eval w;
     directory_structure := directory_structure w; api_key := api_key w;
     trace := trace w ++ evs |}.

Definition emit (e : event) : M unit :=
  fun w => (Ret tt, advance w 0 [e]).

(** [input(prompt)] *)
Definition input (text : list piece) : M string :=
  fun w =>
    let w' := advance w 1 [Asked text] in
    match stdin w with
    | Line s :: _ => (Ret s, w')
    | Interrupt :: _ => (Raise KeyboardInterrupt, w')
    | [] => (Raise EOFError, w')
    end.

(** [generate_content(model, contents)] and the text of its response. *)
Definition generate_content (p : llm_prompt) : M (option string) :=
  fun w => (emit (Generated p) ;; ret (llm w p)) w.

Definition eval_literal (s : string) : M (option pyval) :=
  fun w => (Ret (literal_eval w s), w).

Definition get_directory_structure : M string :=
  fun w => (Ret (directory_structure w), w).

Definition get_api_key : M (option string) :=
  fun w => (Ret (api_key w), w).

(** [try: body except KeyboardInterrupt: on_interrupt except Exception as e:
    on_exception(e)]; a [SystemExit] passes through. *)
Definition try_except {A} (body : M A) (on_interrupt : M A) (on_exception : exn -> M A)
  : M A :=
  fun w =>
    match body w with
    | (Raise e, w') => if is_Exception e then on_exception e w' else on_interrupt w'
    | r => r
    end.

(** The events a computation adds to the trace. *)
Definition events_of {A} (m : M A) (w : world) : list event :=
  skipn (length (trace w)) (trace (snd (m w))).

Definition result_of {A} (m : M A) (w : world) : outcome A := fst (m w).

(* ================================================================== *)
(** * utils.py: printing *)

Module Utils.

Definition print_styled (text : list piece) (c : color) (bold : bool) : M unit :=
  emit (Out c bold text).

(** [print(...)] *)
Definition print (text : list piece) : M unit := emit (Out Plain false text).

Definition print_error (text : list piece) : M unit :=
  print_styled (Txt "Error: " :: text) Red false.

(** The check mark U+2713 that the source prints first is outside the
    alphabet; it is written [v]. *)
Definition print_success (text : list piece) : M unit :=
  print_styled (Txt "v " :: text) Green false.

Definition print_info (text : list piece) : M unit :=
  print_styled text Cyan false.

Definition print_warning (text : list piece) : M unit :=
  print_styled text Yellow false.

(** The pauses of [time.sleep] are not modelled. *)
Definition print_thinking : M unit :=
  print_styled [Txt "Generating response"] Cyan false ;;
  print_styled [Txt "."] Cyan false ;;
  print_styled [Txt "."] Cyan false ;;
  print_styled [Txt "."] Cyan false ;;
  print [].

End Utils.

(* ================================================================== *)
(** * config.py *)

Module Config.

Definition BLOCKED_KEYWORDS : list string :=
  [ "rm -rf"; ":(){ :|:& };:"; "mkfs"; "dd if=/dev/zero";
    "chmod -R 777"; "wget"; "curl"; "> /dev/sda";
    "sudo"; "su -"; "passwd"; "/etc/shadow"; "/etc/passwd";
    "format"; "del /f"; "deltree"; "rd /s"; "iptables" ].

Definition MAX_DIR_DEPTH : nat := 2.
Definition MAX_FILES_PER_DIR : nat := 10.
Definition MAX_FILENAME_LENGTH : nat := 30.

End Config.

(* ================================================================== *)
(** * security.py *)

Module Security.
Import Str Re Utils Config.

Definition injection_patterns : list regex :=
  ([ lits "$(" ++ [Star Space; Star Dot; Star Space] ++ lits ")";  (* \$\(\s*.*\s*\) *)
    lits "`" ++ [Star Dot] ++ lits "`";                           (* `.*` *)
    lits "eval" ++ [Star Space] ++ lits "(";                      (* eval\s*\( *)
    lits "system" ++ [Star Space] ++ lits "(";                    (* system\s*\( *)
    lits "exec" ++ [Star Space] ++ lits "(";                      (* exec\s*\( *)
    lits ";" ++ [Star Space] ++ lits "rm" ++ [One Space];         (* ;\s*rm\s *)
    lits ";" ++ [Star Space] ++ lits "dd" ++ [One Space];         (* ;\s*dd\s *)
    lits "--help";                                                (* --help *)
    lits "--" ++ plus Dot;                                        (* --.+ *)
    lits "'--";                                                   (* '-- *)
    lits "<script>" ])%list.                                      (* <script> *)

(** [validate_input(text)] *)
Definition validate_input (text : string) : M bool :=
  match find (fun pattern => found IGNORECASE pattern text) injection_patterns with
  | Some _ =>
      print_error [Txt "Potentially unsafe input detected: "; Txt text] ;;
      ret false
  | None => ret true
  end.

Definition dangerous_patterns : list (regex * string) :=
  ([ ([WordB] ++ lits "rm" ++ [WordB; Star Dot] ++ lits "-" ++ [One (OneOf ["r"; "f"]%char)],
     "Command may delete files/directories");                     (* \brm\b.*-[rf] *)
    ([WordB] ++ lits "format" ++ [WordB],
     "Command may format storage device");                        (* \bformat\b *)
    ([WordB] ++ lits "chmod" ++ [WordB; Star Dot] ++ lits "777",
     "Command sets dangerous file permissions");                  (* \bchmod\b.*777 *)
    ([WordB] ++ lits "sudo" ++ [WordB],
     "Command requires elevated privileges");                     (* \bsudo\b *)
    ([WordB] ++ lits "nc" ++ [WordB; Star Dot] ++ lits "-e",
     "Command may open network backdoor");                        (* \bnc\b.*-e *)
    ([WordB] ++ lits "telnet" ++ [WordB],
     "Command uses insecure protocol");                           (* \btelnet\b *)
    (lits ">" ++ [Star Space] ++ lits "/dev/",
     "Command writes directly to device files");                  (* >\s*/dev/ *)
    (lits ">>" ++ [Star Space] ++ lits "/etc/",
     "Command modifies system configuration files");              (* >>\s*/etc/ *)
    ([WordB] ++ lits "fdisk" ++ [WordB],
     "Command may modify disk partitions");                       (* \bfdisk\b *)
    ([WordB] ++ lits "mkfs" ++ [WordB],
     "Command may format filesystem");                            (* \bmkfs\b *)
    (lits ":(){",
     "Command appears to be a fork bomb");                        (* :\(\){ *)
    (lits "while" ++ [Star Space] ++ lits "true",
     "Command contains infinite loop") ])%list.                   (* while\s*true *)

(** [is_safe_command(command)] for a [str]. *)
Definition is_safe_command (command : string) : bool * string :=
  match find (fun keyword => contains keyword (lower command)) BLOCKED_KEYWORDS with
  | Some keyword => (false, "Command contains blocked keyword: " ++ keyword)
  | None =>
      match find (fun pr => found IGNORECASE (fst pr) command) dangerous_patterns with
      | Some (_, reason) => (false, reason)
      | None => (true, EmptyString)
      end
  end.

Definition data_risk_patterns : list (regex * string) :=
  ([ ([WordB] ++ lits "grep" ++ [WordB; Star Dot] ++ lits "-r",
     "Command searches recursively - verify scope");              (* \bgrep\b.*-r *)
    ([WordB] ++ lits "find" ++ [WordB; Star Dot] ++ lits "-delete",
     "Command will delete files - verify scope");                 (* \bfind\b.*-delete *)
    ([WordB] ++ lits "sed" ++ [WordB; Star Dot] ++ lits "-i",
     "Command modifies files in-place - verify files");           (* \bsed\b.*-i *)
    ([WordB] ++ lits "chown" ++ [WordB],
     "Command changes file ownership - verify impact") ])%list.   (* \bchown\b *)

(** The second loop of [audit_command]: a warning for each pattern found. *)
Fixpoint warn_risks (command : string) (patterns : list (regex * string)) : M unit :=
  match patterns with
  | [] => ret tt
  | (pattern, warning) :: rest =>
      (if found IGNORECASE pattern command
       then print_warning [Txt warning] else ret tt) ;;
      warn_risks command rest
  end.

(** [audit_command(command, description)] for a [str] command. *)
Definition audit_command (command : string) (description : pyval) : M (bool * string) :=
  let '(is_safe, reason) := is_safe_command command in
  if negb is_safe then
    print_error [Txt "Unsafe command detected: "; Txt reason] ;;
    ret (false, reason)
  else
    warn_risks command data_risk_patterns ;;
    ret (true, command).

(** The call [audit_command(command, description)] on a value of dynamic
    type: the first thing it evaluates is [command.lower()], which only a
    [str] has. *)
Definition audit_command_dyn (command description : pyval) : M (bool * string) :=
  match command with
  | PStr c => audit_command c description
  | _ => raise (AttributeError "lower")
  end.

End Security.

(* ================================================================== *)
(** * The [json] module of the standard library, as far as [loads] goes

    [Json.loads] follows the decoder of CPython ([scanstring],
    [_parse_object], [_parse_array], [_match_number], [scan_once]): [None]
    is a [JSONDecodeError].  Two limits of the interpreter are left out: the
    recursion limit and the limit on the digits of an integer.  An escape
    [\uXXXX] above U+00FF denotes a character outside the alphabet; the
    model stops at it as at a malformed escape. *)

Module Json.
Import Str.

Definition backslash : ascii := ascii_of_nat 92.

(** The white space between tokens. *)
Definition is_ws (c : ascii) : bool :=
  let n := nat_of_ascii c in ((n =? 32) || (n =? 9) || (n =? 10) || (n =? 13))%nat.

Fixpoint skip_ws (s : string) : string :=
  match s with
  | String c s' => if is_ws c then skip_ws s' else s
  | EmptyString => s
  end.

Definition is_digit (c : ascii) : bool :=
  let n := nat_of_ascii c in ((48 <=? n) && (n <=? 57))%nat.

Definition digit_val (c : ascii) : Z := Z.of_nat (nat_of_ascii c - 48).

Definition hex_val (c : ascii) : option nat :=
  let n := nat_of_ascii c in
  if ((48 <=? n) && (n <=? 57))%nat then Some (n - 48)
  else if ((97 <=? n) && (n <=? 102))%nat then Some (n - 87)
  else if ((65 <=? n) && (n <=? 70))%nat then Some (n - 55)
  else None.

(** The character a one-letter escape stands for. *)
Definition escape (c : ascii) : option ascii :=
  let n := nat_of_ascii c in
  if (n =? 34)%nat then Some c                      (* the quote *)
  else if (n =? 92)%nat then Some c                 (* the backslash *)
  else if (n =? 47)%nat then Some c                 (* the slash *)
  else if (n =? 98)%nat then Some (ascii_of_nat 8)  (* backspace *)
  else if (n =? 102)%nat then Some (ascii_of_nat 12) (* form feed *)
  else if (n =? 110)%nat then Some (ascii_of_nat 10) (* line feed *)
  else if (n =? 114)%nat then Some (ascii_of_nat 13) (* carriage return *)
  else if (n =? 116)%nat then Some (ascii_of_nat 9)  (* tab *)
  else None.

(** [scanstring], strict, from after the opening quote: the decoded string
    and what follows the closing quote. *)
Fixpoint scanstring (s : string) : option (string * string) :=
  match s with
  | EmptyString => None
  | String c s' =>
      if Ascii.eqb c dquote then Some (EmptyString, s')
      else if Ascii.eqb c backslash then
        match s' with
        | EmptyString => None
        | String e s'' =>
            if Ascii.eqb e "u"%char then
              match s'' with
              | String h1 (String h2 (String h3 (String h4 rest))) =>
                  match hex_val h1, hex_val h2, hex_val h3, hex_val h4 with
                  | Some 0, Some 0, Some a, Some b =>
                      match scanstring rest with
                      | Some (str, r) => Some (String (ascii_of_nat (16 * a + b)) str, r)
                      | None => None
                      end
                  | _, _, _, _ => None
                  end
              | _ => None
              end
            else
              match escape e with
              | Some x =>
                  match scanstring s'' with
                  | Some (str, r) => Some (String x str, r)
                  | None => None
                  end
              | None => None
              end
        end
      else if (nat_of_ascii c <=? 31)%nat then None
      else
        match scanstring s' with
        | Some (str, r) => Some (String c str, r)
        | None => None
        end
  end.

(** The longest run of digits at the head of [s]: its value continuing
    [acc], its length, and the rest. *)
Fixpoint digits (acc : Z) (s : string) : Z * nat * string :=
  match s with
  | String c s' =>
      if is_digit c then
        let '(v, n, r) := digits (10 * acc + digit_val c)%Z s' in (v, S n, r)
      else (acc, 0, s)
  | EmptyString => (acc, 0, s)
  end.

(** The fraction of a number, if one follows: a dot and one digit or more.
    The digits continue [int_part]; their count and what follows them are
    returned, and whether there was a fraction. *)
Definition number_fraction (int_part : Z) (s : string) : Z * nat * string * bool :=
  match s with
  | String d (String f r) =>
      if Ascii.eqb d "."%char && is_digit f then
        let '(v, n, r') := digits int_part (String f r) in (v, n, r', true)
      else (int_part, 0, s, false)
  | _ => (int_part, 0, s, false)
  end.

(** The exponent of a number, if one follows: [e] or [E], an optional
    sign, and one digit or more; without a digit nothing is taken. *)
Definition number_exponent (s : string) : Z * string * bool :=
  match s with
  | String e r =>
      if Ascii.eqb e "e"%char || Ascii.eqb e "E"%char then
        let '(exp_negative, r1) :=
          match r with
          | String g r' =>
              if Ascii.eqb g "-"%char then (true, r')
              else if Ascii.eqb g "+"%char then (false, r')
              else (false, r)
          | EmptyString => (false, r)
          end in
        let '(v, n, r2) := digits 0 r1 in
        match n with
        | O => (0%Z, s, false)
        | S _ => (if exp_negative then Z.opp v else v, r2, true)
        end
      else (0%Z, s, false)
  | EmptyString => (0%Z, s, false)
  end.

(** [_match_number]: an optional minus sign; [0], or a digit other than [0]
    and then digits; optionally a fraction; optionally an exponent.  The
    result is a [float] when there is a fraction or an exponent, an [int]
    otherwise. *)
Definition match_number (s : string) : option (pyval * string) :=
  let '(negative, s1) :=
    match s with
    | String c s' => if Ascii.eqb c "-"%char then (true, s') else (false, s)
    | EmptyString => (false, s)
    end in
  match s1 with
  | EmptyString => None
  | String c s2 =>
      if is_digit c then
        let '(int_part, after_int) :=
          if Ascii.eqb c "0"%char then (0%Z, s2)
          else let '(v, _, r) := digits (digit_val c) s2 in (v, r) in
        let '(mantissa, frac_len, after_frac, has_frac) := number_fraction int_part after_int in
        let '(exponent, after_exp, has_exp) := number_exponent after_frac in
        if has_frac || has_exp then
          Some (PFloat (FDec negative mantissa (exponent - Z.of_nat frac_len)), after_exp)
        else
          Some (PInt (if negative then Z.opp int_part else int_part), after_exp)
      else None
  end.

(** [d[k] = v] on the pairs of a [dict]. *)
Fixpoint dict_set (k : string) (v : pyval) (kvs : list (string * pyval))
  : list (string * pyval) :=
  match kvs with
  | [] => [(k, v)]
  | (k', v') :: rest =>
      if String.eqb k k' then (k', v) :: rest else (k', v') :: dict_set k v rest
  end.

(** [scan_once] with [_parse_object] and [_parse_array].  The fuel bounds
    the depth of the calls; what [loads] gives is never used up
    ([JsonFacts.loads_fuel]). *)
Fixpoint scan_once (fuel : nat) (s : string) : option (pyval * string) :=
  match fuel with
  | O => None
  | S fuel' =>
      match s with
      | EmptyString => None
      | String c rest =>
          if Ascii.eqb c dquote then
            match scanstring rest with
            | Some (str, r) => Some (PStr str, r)
            | None => None
            end
          else if Ascii.eqb c "{"%char then
            match skip_ws rest with
            | String c1 r1 =>
                if Ascii.eqb c1 "}"%char then Some (PDict [], r1)
                else parse_pairs fuel' (String c1 r1) []
            | EmptyString => None
            end
          else if Ascii.eqb c "["%char then
            match skip_ws rest with
            | String c1 r1 =>
                if Ascii.eqb c1 "]"%char then Some (PList [], r1)
                else parse_items fuel' (String c1 r1) []
            | EmptyString => None
            end
          else if starts_with "null" s then Some (PNone, drop 4 s)
          else if starts_with "true" s then Some (PBool true, drop 4 s)
          else if starts_with "false" s then Some (PBool false, drop 5 s)
          else if starts_with "NaN" s then Some (PFloat FNan, drop 3 s)
          else if starts_with "Infinity" s then Some (PFloat (FInf false), drop 8 s)
          else if starts_with "-Infinity" s then Some (PFloat (FInf true), drop 9 s)
          else match_number s
      end
  end

with parse_pairs (fuel : nat) (s : string) (acc : list (string * pyval))
  : option (pyval * string) :=
  match fuel with
  | O => None
  | S fuel' =>
      match s with
      | String q after_q =>
          if Ascii.eqb q dquote then
            match scanstring after_q with
            | Some (key, r) =>
                match skip_ws r with
                | String colon r1 =>
                    if Ascii.eqb colon ":"%char then
                      match scan_once fuel' (skip_ws r1) with
                      | Some (val, r2) =>
                          let acc' := dict_set key val acc in
                          match skip_ws r2 with
                          | String d r3 =>
                              if Ascii.eqb d "}"%char then Some (PDict acc', r3)
                              else if Ascii.eqb d ","%char
                              then parse_pairs fuel' (skip_ws r3) acc'
                              else None
                          | EmptyString => None
                          end
                      | None => None
                      end
                    else None
                | EmptyString => None
                end
            | None => None
            end
          else None
      | EmptyString => None
      end
  end

with parse_items (fuel : nat) (s : string) (acc : list pyval)
  : option (pyval * string) :=
  match fuel with
  | O => None
  | S fuel' =>
      match scan_once fuel' s with
      | Some (val, r) =>
          let acc' := (acc ++ [val])%list in
          match skip_ws r with
          | String d r1 =>
              if Ascii.eqb d "]"%char then Some (PList acc', r1)
              else if Ascii.eqb d ","%char then parse_items fuel' (skip_ws r1) acc'
              else None
          | EmptyString => None
          end
      | None => None
      end
  end.

(** [json.loads(s)] *)
Definition loads (s : string) : option pyval :=
  match scan_once (S (2 * String.length s)) (skip_ws s) with
  | Some (v, rest) =>
      match skip_ws rest with
      | EmptyString => Some v
      | String _ _ => None
      end
  | None => None
  end.

End Json.

(* ================================================================== *)
(** * More of [str] *)

Module StrOps.
Import Str.

(** [s.lstrip()], [s.rstrip()], [s.strip()]: [str.isspace] holds of the
    same characters as [\s]. *)
Fixpoint lstrip (s : string) : string :=
  match s with
  | String c s' => if is_space c then lstrip s' else s
  | EmptyString => s
  end.

Fixpoint rstrip (s : string) : string :=
  match s with
  | EmptyString => EmptyString
  | String c s' =>
      match rstrip s' with
      | EmptyString => if is_space c then EmptyString else String c EmptyString
      | r => String c r
      end
  end.

Definition strip (s : string) : string := rstrip (lstrip s).

(** [s.replace(old, new)] for a non-empty [old]; [skip] counts the
    characters of the current occurrence still to pass over. *)
Fixpoint replace_from (old new : string) (skip : nat) (s : string) : string :=
  match skip with
  | S k =>
      match s with
      | String _ s' => replace_from old new k s'
      | EmptyString => EmptyString
      end
  | O =>
      match s with
      | EmptyString => EmptyString
      | String c s' =>
          if starts_with old s
          then new ++ replace_from old new (String.length old - 1) s'
          else String c (replace_from old new 0 s')
      end
  end.

Definition replace (old new s : string) : string := replace_from old new 0 s.

(** A text between double quotes. *)
Definition quoted (s : string) : string := String dquote (s ++ String dquote EmptyString).

End StrOps.

(* ================================================================== *)
(** * utils.py: [clean_json_output] *)

Module Extract.
Import Str Re.

(** [clean_json_output(response_text)] *)
Definition clean_json_output (response_text : string) : option string :=
  match search DOTALL (lits "{" ++ [Star Dot] ++ lits "}")%list response_text with
  | Some m => Some (group0 response_text m)
  | None =>
      match Json.loads response_text with
      | Some _ => Some response_text
      | None => None
      end
  end.

End Extract.

(* ================================================================== *)
(** * llm_client.py *)

Module LLMClient.
Import Str StrOps Re Utils Extract.

Definition squote : ascii := "'"%char.

(** [fix_arrays]: inside the brackets, a run without single quotes between
    two single quotes is put between double quotes. *)
Definition fix_arrays (inner : string) : string :=
  "[" ++ sub NOFLAGS
           (lits "'" ++ [GOpen; Star (NotIn [squote]); GClose] ++ lits "'")%list
           quoted inner
      ++ "]".

(** [fix_json_string(json_str)].  Its last line holds a replacement field
    with backslashes, which Python reads from version 3.12 on. *)
Definition fix_json_string (json_str : string) : string :=
  match Json.loads json_str with
  | Some _ => json_str
  | None =>
      (* a single-quoted run before a colon becomes double-quoted *)
      let json_str :=
        sub NOFLAGS (lits "'" ++ [GOpen; Star (NotIn [squote]); GClose] ++ lits "':")%list
          (fun g => quoted g ++ ":") json_str in
      (* a single-quoted run after a colon and a space becomes double-quoted *)
      let json_str :=
        sub NOFLAGS (lits ": '" ++ [GOpen; Star (NotIn [squote]); GClose] ++ lits "'")%list
          (fun g => ": " ++ quoted g) json_str in
      let json_str := replace "'true'" "true" json_str in
      let json_str := replace "'false'" "false" json_str in
      let json_str := replace "'null'" "null" json_str in
      let json_str := replace "None" "null" json_str in
      (* each bracketed span within a line, the shortest first *)
      let json_str :=
        sub NOFLAGS (lits "[" ++ [GOpen; Lazy Dot; GClose] ++ lits "]")%list
          fix_arrays json_str in
      (* the value of the command key, its quotes escaped *)
      let json_str :=
        sub NOFLAGS
          (lits (quoted "command" ++ ": " ++ String dquote EmptyString)
             ++ [GOpen; Star (NotIn [dquote]); GClose] ++ lits (String dquote EmptyString))%list
          (fun g =>
             quoted "command" ++ ": "
             ++ quoted (replace (String dquote EmptyString)
                          (String Json.backslash (String dquote EmptyString)) g))
          json_str in
      json_str
  end.

Definition fence : string := "```".

(** [generate_response(prompt, show_thinking=True, debug)]: the parsed
    response, or [None]. *)
Definition generate_response (debug : bool) (p : llm_prompt) : M pyval :=
  print_thinking ;;
  response <- generate_content p ;;
  match response with
  | None =>
      print_error [Txt "LLM connection error: "; Unspecified] ;;
      ret PNone
  | Some text =>
      let raw := strip text in
      let cleaned_json := clean_json_output raw in
      (if debug then
         print [Txt "DEBUG - Raw LLM response:"] ;;
         print [Txt fence; Txt (String newline raw); Txt (String newline fence)]
       else ret tt) ;;
      match cleaned_json with
      | Some cleaned =>
          if truthy (PStr cleaned) then
            let fixed_json := fix_json_string cleaned in
            (if debug then
               print [Txt "DEBUG - Fixed JSON:"] ;;
               print [Txt fence; Txt (String newline fixed_json); Txt (String newline fence)]
             else ret tt) ;;
            match Json.loads fixed_json with
            | Some result => ret result
            | None =>
                evaluated <- eval_literal cleaned ;;
                match evaluated with
                | Some result => ret result
                | None =>
                    (if debug then
                       print [Txt "DEBUG - JSON decode error: "; Unspecified] ;;
                       print [Txt "DEBUG - Attempted to parse: "; Txt fixed_json]
                     else ret tt) ;;
                    print_error
                      [Txt "Could not parse the LLM response as JSON. Please try again."] ;;
                    ret PNone
                end
            end
          else
            print_error
              [Txt "Could not generate a valid response. Please try rephrasing your request."] ;;
            ret PNone
      | None =>
          print_error
            [Txt "Could not generate a valid response. Please try rephrasing your request."] ;;
          ret PNone
      end
  end.

(** [LLMClient()]: without an API key it reports and exits.  Creating the
    client of the library is taken to succeed. *)
Definition init : M unit :=
  key <- get_api_key ;;
  match key with
  | Some (String _ _) => ret tt
  | _ =>
      print_error [Txt "API key not found. Please set GEMINI_API_KEY in your .env file."] ;;
      sys_exit 1
  end.

End LLMClient.

(* ================================================================== *)
(** * utils.py: displaying a command or an answer *)

Module Display.
Import Str Utils.

(** [textwrap.fill(text, width=80)]: only a [str] has [expandtabs]. *)
Definition fill (text : pyval) : M piece :=
  match text with
  | PStr s => ret (Filled s)
  | _ => raise (AttributeError "expandtabs")
  end.

(** [display_command(command, description)] *)
Definition display_command (command description : pyval) : M unit :=
  print [] ;;
  print_styled [Txt "COMMAND"] Blue true ;;
  print [Rule] ;;
  wrapped_command <- fill command ;;
  print_styled [wrapped_command] White true ;;
  print [Rule] ;;
  if truthy description then
    print_styled [Txt "DESCRIPTION"] Blue true ;;
    print [Val description] ;;
    print []
  else ret tt.

(** [display_answer(answer)] *)
Definition display_answer (answer : pyval) : M unit :=
  print [] ;;
  print_styled [Txt "ANSWER"] Green true ;;
  print [Rule] ;;
  wrapped_answer <- fill answer ;;
  print_styled [wrapped_answer] White false ;;
  print [Rule] ;;
  print [].

End Display.

(* ================================================================== *)
(** * command_generator.py *)

Module CommandGenerator.
Import Str Utils Security LLMClient.

(** [d.get(key)] and [d.get(key, default)] *)
Definition get (d : list (string * pyval)) (key : string) : pyval :=
  match assoc key d with Some v => v | None => PNone end.

Definition get_or (d : list (string * pyval)) (key : string) (default : pyval) : pyval :=
  match assoc key d with Some v => v | None => default end.

(** [v.get]: only a [dict] has it. *)
Definition as_dict (v : pyval) : M (list (string * pyval)) :=
  match v with
  | PDict kvs => ret kvs
  | _ => raise (AttributeError "get")
  end.

(** [CommandGenerator()].  [debug] is the flag that [main] makes every call
    of [generate_response] pass on. *)
Record generator := { debug : bool }.

(** [analyze_request(prompt)] *)
Definition analyze_request (g : generator) (prompt : string) : M pyval :=
  valid <- validate_input prompt ;;
  if negb valid then ret PNone
  else
    directory_structure <- get_directory_structure ;;
    generate_response (debug g) (AnalysisPrompt directory_structure prompt).

(** [generate_command_with_inputs(command_template, user_inputs)] *)
Definition generate_command_with_inputs (g : generator)
  (command_template : pyval) (user_inputs : list (pyval * string)) : M (pyval * pyval) :=
  directory_structure <- get_directory_structure ;;
  response <-
    generate_response (debug g)
      (FinalizationPrompt directory_structure command_template user_inputs) ;;
  if truthy response then
    d <- as_dict response ;;
    let command := get d "command" in
    let description := get d "description" in
    verdict <- audit_command_dyn command description ;;
    let '(is_safe, result) := verdict in
    if is_safe then ret (command, description)
    else
      print_error [Txt "Generated command was rejected: "; Txt result] ;;
      ret (PNone, PNone)
  else ret (PNone, PNone).

End CommandGenerator.

(* ================================================================== *)
(** * cli.py *)

Module Cli.
Import Str StrOps Utils Display CommandGenerator.

(** The parsed command line. *)
Record args := { prompt : string; quiet : bool; debug_flag : bool }.

(** [for x in v]: the items of a [list], the characters of a [str], the
    keys of a [dict]; nothing else the parser returns can be iterated. *)
Definition iterate (v : pyval) : M (list pyval) :=
  match v with
  | PList l => ret l
  | PStr s => ret (map (fun c => PStr (String c EmptyString)) (list_ascii_of_string s))
  | PDict kvs => ret (map (fun kv => PStr (fst kv)) kvs)
  | _ => raise (TypeError "not iterable")
  end.

(** Whether a value can be the key of a [dict]. *)
Definition hashable (v : pyval) : bool :=
  match v with
  | PList _ | PDict _ => false
  | _ => true
  end.

(** The loop that asks for the inputs. *)
Fixpoint collect_inputs (prompts : list pyval) (user_inputs : list (pyval * string))
  : M (list (pyval * string)) :=
  match prompts with
  | [] => ret user_inputs
  | input_prompt :: rest =>
      line <- input [Txt "  "; Val input_prompt; Txt ": "] ;;
      let user_response := strip line in
      if hashable input_prompt
      then collect_inputs rest (user_inputs ++ [(input_prompt, user_response)])%list
      else raise (TypeError "unhashable type")
  end.

(** [pyperclip.copy(text)] *)
Definition copy (text : pyval) : M unit :=
  match text with
  | PStr s => emit (Copied s)
  | _ => raise (TypeError "only str")
  end.

(** [handle_command_request(generator, requirements, quiet)] *)
Definition handle_command_request (g : generator)
  (requirements : list (string * pyval)) (quiet : bool) : M bool :=
  chosen <-
    (if truthy (get_or requirements "requires_input" (PBool false)) then
       print [] ;;
       print_styled [Txt "INPUT REQUIRED"] Yellow true ;;
       let input_description :=
         get_or requirements "input_description"
           (PStr "Please provide the following information to complete the command:") in
       wrapped_description <- fill input_description ;;
       print [wrapped_description] ;;
       print [] ;;
       prompts <- iterate (get_or requirements "inputs" (PList [])) ;;
       user_inputs <- collect_inputs prompts [] ;;
       generate_command_with_inputs g (get requirements "command") user_inputs
     else
       ret (get requirements "command", get requirements "description")) ;;
  let '(command, description) := chosen in
  if truthy command then
    display_command command description ;;
    line <- input [Txt (String newline "Copy to clipboard? [Y/n]: ")] ;;
    let copy_choice := lower (strip line) in
    (if negb (truthy (PStr copy_choice)) || String.eqb copy_choice "y" then
       copy command ;;
       print_success [Txt "Command copied to clipboard!"]
     else ret tt) ;;
    ret true
  else
    (if negb quiet then
       print_error
         [Txt "Failed to generate command. Please try again with a clearer request."]
     else ret tt) ;;
    ret false.

(** [handle_question_request(requirements, quiet)] *)
Definition handle_question_request (requirements : list (string * pyval)) (quiet : bool)
  : M bool :=
  let answer := get requirements "answer" in
  if truthy answer then
    display_answer answer ;;
    ret true
  else
    (if negb quiet then
       print_error
         [Txt "Failed to generate an answer. Please try again with a clearer question."]
     else ret tt) ;;
    ret false.

(** [main()], after the command line is parsed. *)
Definition main (a : args) : M bool :=
  try_except
    ((if negb (quiet a) then
        print_styled [Txt "Command Generator"] Blue true ;;
        print_styled [Txt "Analyzing your request..."] Cyan false
      else ret tt) ;;
     LLMClient.init ;;
     let g := {| debug := debug_flag a |} in
     analysis <- analyze_request g (prompt a) ;;
     if truthy analysis then
       requirements <- as_dict analysis ;;
       if truthy (get_or requirements "is_command_request" (PBool false)) then
         handle_command_request g requirements (quiet a)
       else if truthy (get_or requirements "is_question" (PBool false)) then
         handle_question_request requirements (quiet a)
       else
         (if negb (quiet a) then
            print_error [Txt "Could not determine request type. Please be more specific."]
          else ret tt) ;;
         ret false
     else ret false)
    (print [Txt (String newline "Operation cancelled.")] ;; sys_exit 130)
    (fun e =>
       print_error [Txt "An unexpected error occurred: "; ExnText e] ;;
       sys_exit 1).

(** [sys.exit(0 if main() else 1)] *)
Definition script (a : args) : M unit :=
  ok <- main a ;;
  sys_exit (if ok then 0 else 1)%Z.

End Cli.

(* ================================================================== *)
(** * security.py: [sanitize_filename] *)

Module Filenames.
Import Str StrOps Re.

Definition nul : ascii := ascii_of_nat 0.

(** [sanitize_filename(filename)] *)
Definition sanitize_filename (filename : string) : string :=
  (* the slash and the backslash *)
  let sanitized :=
    sub NOFLAGS [One (OneOf ["/"%char; Json.backslash])] (fun _ => EmptyString) filename in
  (* null bytes *)
  let sanitized := replace (String nul EmptyString) EmptyString sanitized in
  (* the characters < > : the double quote | ? and the star *)
  let sanitized :=
    sub NOFLAGS
      [One (OneOf ["<"%char; ">"%char; ":"%char; dquote; "|"%char; "?"%char; "*"%char])]
      (fun _ => EmptyString) sanitized in
  sanitized.

End Filenames.

(* ================================================================== *)
(** * utils.py: [get_directory_structure]

    The directory tree is what [os.scandir] shows of it: each folder has its
    sub-directories, in the order they are listed, and its other entries.  A
    sub-directory that [os.walk] does not enter (a symbolic link, or one it
    cannot read) has no tree.  Paths are those of a POSIX system. *)

Module DirectoryContext.
Import Str StrOps Config.

#[local] Unset Elimination Schemes.
Inductive fs :=
| Folder (dirs : list (string * option fs)) (files : list string).
#[local] Set Elimination Schemes.

(** [name.startswith('.')] *)
Definition hidden (name : string) : bool := starts_with "." name.

(** [os.path.join(top, name)] for a non-empty [top] and the name of an
    entry. *)
Definition join_path (top name : string) : string :=
  match last_char None top with
  | Some c => if Ascii.eqb c "/" then top ++ name else top ++ "/" ++ name
  | None => name
  end.

(** [os.path.basename(path)]: what follows the last slash. *)
Fixpoint basename (path : string) : string :=
  match path with
  | EmptyString => EmptyString
  | String c rest =>
      if contains "/" rest then basename rest
      else if Ascii.eqb c "/" then rest else path
  end.

(** [s.count(c)] for one character. *)
Fixpoint count_char (c : ascii) (s : string) : nat :=
  match s with
  | EmptyString => 0
  | String x rest => (if Ascii.eqb x c then 1 else 0) + count_char c rest
  end.

(** [' ' * n] *)
Fixpoint spaces (n : nat) : string :=
  match n with
  | O => EmptyString
  | S k => String " " (spaces k)
  end.

(** [str(n)] *)
Definition decimal (n : nat) : string := NilZero.string_of_uint (Nat.to_uint n).

(** [sep.join(lines)] *)
Fixpoint join (sep : string) (lines : list string) : string :=
  match lines with
  | [] => EmptyString
  | [l] => l
  | l :: rest => l ++ sep ++ join sep rest
  end.

(** The triples [os.walk(top)] yields, top-down, when the loop that reads
    them keeps in [dirnames] only the names that are not hidden, as the first
    line of the loop of [get_directory_structure] does. *)
Fixpoint os_walk (top : string) (tree : fs) : list (string * list string * list string) :=
  match tree with
  | Folder dirs files =>
      (top, filter (fun d => negb (hidden d)) (map fst dirs), files)
      :: flat_map
           (fun entry : string * option fs =>
              let '(name, sub) := entry in
              if hidden name then []
              else match sub with
                   | Some t => os_walk (join_path top name) t
                   | None => []
                   end)
           dirs
  end.

(** The name shown for a file: long names are cut. *)
Definition display_name (filename : string) : string :=
  if (MAX_FILENAME_LENGTH <? String.length filename)%nat
  then take (MAX_FILENAME_LENGTH - 3) filename ++ "..."
  else filename.

(** The loop over [limited_files]. *)
Fixpoint list_files (sub_indent : string) (limited_files : list string)
  (structure : list string) : list string :=
  match limited_files with
  | [] => structure
  | filename :: rest =>
      if hidden filename then list_files sub_indent rest structure
      else list_files sub_indent rest (structure ++ [(sub_indent ++ display_name filename)%string])%list
  end.

(** One turn of the loop over [os.walk(root_dir)], on the variables
    [structure] and [total_files]. *)
Definition visit (root_dir : string) (max_depth : option nat)
  (state : list string * nat) (yielded : string * list string * list string)
  : list string * nat :=
  let '(structure, total_files) := state in
  let '(dirpath, dirnames, filenames) := yielded in
  let level := count_char "/" (replace root_dir EmptyString dirpath) in
  if match max_depth with Some d => (d <? level)%nat | None => false end then state
  else
    let dir_name :=
      if (level =? 0)%nat then
        match basename root_dir with
        | EmptyString => "."
        | b => b
        end
      else basename dirpath in
    if hidden dir_name then state
    else
      let indent := spaces (4 * level) in
      let structure := (structure ++ [(indent ++ dir_name ++ "/")%string])%list in
      let limited_files :=
        (firstn MAX_FILES_PER_DIR filenames
         ++ (if (MAX_FILES_PER_DIR <? length filenames)%nat
             then [("... (" ++ decimal (length filenames - MAX_FILES_PER_DIR)
                    ++ " more files)")%string]
             else []))%list in
      let total_files := total_files + length filenames in
      let sub_indent := spaces (4 * (level + 1)) in
      (list_files sub_indent limited_files structure, total_files).

(** [structure] and [total_files] when the loop ends.  [os.walk] of the
    empty path yields nothing. *)
Definition walk_all (root_dir : string) (max_depth : option nat) (tree : fs)
  : list string * nat :=
  match root_dir with
  | EmptyString => ([], 0)
  | _ => fold_left (visit root_dir max_depth) (os_walk root_dir tree) ([], 0)
  end.

(** [get_directory_structure(root_dir, max_depth)] *)
Definition get_directory_structure (root_dir : string) (max_depth : option nat) (tree : fs)
  : string :=
  let '(structure, total_files) := walk_all root_dir max_depth tree in
  let structure :=
    if (100 <? total_files)%nat then
      (structure
       ++ [String newline
             ("Directory summary: " ++ decimal total_files ++ " total files across "
              ++ decimal (length structure) ++ " directories")%string])%list
    else structure in
  join (String newline EmptyString) structure.

End DirectoryContext.

(* ================================================================== *)
(** * Properties of the string and pattern layer *)

Module StrFacts.
Import Str.

(** Folding the case of ASCII letters only: how the properties say "in any
    letter case", independently of [lower]. *)
Definition ascii_fold (c : ascii) : ascii :=
  let n := nat_of_ascii c in
  if ((65 <=? n) && (n <=? 90))%nat then ascii_of_nat (n + 32) else c.

Fixpoint fold_case (s : string) : string :=
  match s with
  | EmptyString => EmptyString
  | String c s' => String (ascii_fold c) (fold_case s')
  end.

(** [w] is the lower-case ASCII text [kw] in some letter case. *)
Definition in_some_case (kw w : string) : Prop := fold_case w = kw.

(** [s] has a substring that is [kw] in some letter case. *)
Definition contains_in_some_case (kw s : string) : Prop :=
  exists pre w post, s = pre ++ w ++ post /\ in_some_case kw w.

Definition is_ascii (c : ascii) : bool := (nat_of_ascii c <? 128)%nat.

Ltac each_ascii c :=
  destruct c as [[] [] [] [] [] [] [] []].

Lemma lower_char_fold (c : ascii) :
  is_ascii (ascii_fold c) = true -> lower_char c = ascii_fold c.
Proof. each_ascii c; vm_compute; intros H; first [reflexivity | discriminate H]. Qed.

Lemma lower_fold (w : string) :
  all_chars is_ascii (fold_case w) = true -> lower w = fold_case w.
Proof.
  induction w as [|c w IH]; simpl; intros H; [reflexivity|].
  apply andb_true_iff in H. destruct H as [Hc Hw].
  now rewrite (lower_char_fold c Hc), (IH Hw).
Qed.

Lemma lower_app (a b : string) : lower (a ++ b) = lower a ++ lower b.
Proof. induction a as [|c a IH]; simpl; [reflexivity | now rewrite IH]. Qed.

Lemma starts_with_app (kw rest : string) : starts_with kw (kw ++ rest) = true.
Proof.
  induction kw as [|c kw IH]; simpl; [reflexivity|].
  now rewrite Ascii.eqb_refl, IH.
Qed.

Lemma contains_here (kw s : string) : starts_with kw s = true -> contains kw s = true.
Proof. intros H. destruct s; simpl; rewrite H; reflexivity. Qed.

Lemma contains_app (kw pre post : string) : contains kw (pre ++ kw ++ post) = true.
Proof.
  induction pre as [|c pre IH].
  - change (EmptyString ++ kw ++ post) with (kw ++ post).
    apply contains_here, starts_with_app.
  - change (contains kw (String c pre ++ kw ++ post))
      with (starts_with kw (String c pre ++ kw ++ post) || contains kw (pre ++ kw ++ post)).
    rewrite IH. apply orb_true_r.
Qed.

(** A substring in some letter case shows, folded, in the lowered text. *)
Lemma contains_lower (kw s : string) :
  all_chars is_ascii kw = true ->
  contains_in_some_case kw s -> contains kw (lower s) = true.
Proof.
  intros Hkw (pre & w & post & -> & Hw). unfold in_some_case in Hw.
  rewrite !lower_app, (lower_fold w) by now rewrite Hw.
  rewrite Hw. apply contains_app.
Qed.

End StrFacts.

Module ReFacts.
Import Str Re StrFacts.

(** An anchored match exists. *)
Definition matches (fl : flags) (re : regex) (prev : option ascii) (s : string) : bool :=
  match match_here fl re prev s with Some _ => true | None => false end.

Lemma matches_One fl a re prev x s :
  matches fl (One a :: re) prev (String x s) = atom_matches fl a x && matches fl re (Some x) s.
Proof.
  unfold matches; simpl. destruct (atom_matches fl a x); simpl; [|reflexivity].
  destruct (match_here fl re (Some x) s); reflexivity.
Qed.

Lemma matches_WordB fl re prev s :
  matches fl (WordB :: re) prev s = at_boundary prev s && matches fl re prev s.
Proof. unfold matches; simpl. destruct (at_boundary prev s); reflexivity. Qed.

Lemma matches_Star_nil fl a re prev :
  matches fl (Star a :: re) prev EmptyString = matches fl re prev EmptyString.
Proof. reflexivity. Qed.

Lemma matches_Star_cons fl a re prev x s :
  matches fl (Star a :: re) prev (String x s) =
  (atom_matches fl a x && matches fl (Star a :: re) (Some x) s)
  || matches fl re prev (String x s).
Proof.
  unfold matches; simpl. destruct (atom_matches fl a x); simpl; [|reflexivity].
  match goal with |- context [match ?f (Some x) s with _ => _ end] =>
    destruct (f (Some x) s) end; reflexivity.
Qed.

(** A star may stop at once. *)
Lemma matches_Star_skip fl a re prev s :
  matches fl re prev s = true -> matches fl (Star a :: re) prev s = true.
Proof.
  intros H. destruct s as [|x s].
  - now rewrite matches_Star_nil.
  - rewrite matches_Star_cons, H. apply orb_true_r.
Qed.

(** A star may run over any text its atom accepts. *)
Lemma matches_Star_app fl a re mid : forall prev rest,
  all_chars (atom_matches fl a) mid = true ->
  matches fl re (last_char prev mid) rest = true ->
  matches fl (Star a :: re) prev (mid ++ rest) = true.
Proof.
  induction mid as [|x mid IH]; intros prev rest Hmid Hrest.
  - now apply matches_Star_skip.
  - simpl in Hmid. apply andb_true_iff in Hmid. destruct Hmid as [Hx Hmid].
    change (String x mid ++ rest) with (String x (mid ++ rest)).
    rewrite matches_Star_cons, Hx, (IH (Some x) rest Hmid Hrest). reflexivity.
Qed.

(** A match anchored after [pre] is found by the search, unless an earlier
    one is. *)
Lemma search_from_app fl re pre : forall prev s,
  matches fl re (last_char prev pre) s = true ->
  search_from fl re prev (pre ++ s) <> None.
Proof.
  induction pre as [|c pre IH]; intros prev s H.
  - unfold matches in H. change (EmptyString ++ s) with s.
    destruct s; simpl in *; destruct (match_here fl re prev _); congruence.
  - change (String c pre ++ s) with (String c (pre ++ s)). simpl.
    destruct (match_here fl re prev (String c (pre ++ s))); [congruence|].
    specialize (IH (Some c) s H).
    destruct (search_from fl re (Some c) (pre ++ s)) as [[i r]|]; simpl; congruence.
Qed.

Lemma found_app fl re pre s :
  matches fl re (last_char None pre) s = true -> found fl re (pre ++ s) = true.
Proof.
  intros H. unfold found, search.
  pose proof (search_from_app fl re pre None s H) as N.
  destruct (search_from fl re None (pre ++ s)); congruence.
Qed.

End ReFacts.

(* ================================================================== *)
(** * The fuel of the JSON parser *)

Module JsonFacts.
Import Str Json.



Lemma skip_ws_le (s : string) : String.length (skip_ws s) <= String.length s.
Proof.
  induction s as [|c s IH]; simpl; [lia|]. destruct (is_ws c); simpl; lia.
Qed.

Lemma scanstring_shorter : forall n s, String.length s <= n ->
  forall str r, scanstring s = Some (str, r) -> String.length r < String.length s.
Proof.
  induction n as [|n IH]; intros s Hn str r H.
  - destruct s; [discriminate H | simpl in Hn; lia].
  - destruct s as [|c s]; [discriminate H|]. simpl in Hn. cbn [scanstring] in H.
    destruct (Ascii.eqb c dquote).
    { inversion H; subst. simpl. lia. }
    destruct (Ascii.eqb c backslash).
    + destruct s as [|e s]; [discriminate H|].
      destruct (Ascii.eqb e "u").
      * destruct s as [|h1 [|h2 [|h3 [|h4 rest]]]]; try discriminate H.
        destruct (hex_val h1) as [[|?]|]; try discriminate H.
        destruct (hex_val h2) as [[|?]|]; try discriminate H.
        destruct (hex_val h3); try discriminate H.
        destruct (hex_val h4); try discriminate H.
        destruct (scanstring rest) as [[str' r']|] eqn:E; [|discriminate H].
        inversion H; subst. apply IH in E; simpl in *; lia.
      * destruct (escape e); [|discriminate H].
        destruct (scanstring s) as [[str' r']|] eqn:E; [|discriminate H].
        inversion H; subst. apply IH in E; simpl in *; lia.
    + destruct (nat_of_ascii c <=? 31)%nat; [discriminate H|].
      destruct (scanstring s) as [[str' r']|] eqn:E; [|discriminate H].
      inversion H; subst. apply IH in E; simpl in *; lia.
Qed.

Lemma digits_le : forall s acc v n r, digits acc s = (v, n, r) -> String.length r <= String.length s.
Proof.
  induction s as [|c s IH]; intros acc v n r H; cbn [digits] in H.
  - inversion H; subst. lia.
  - destruct (is_digit c).
    + destruct (digits (10 * acc + digit_val c) s) as [[v' n'] r'] eqn:E.
      inversion H; subst. apply IH in E. simpl. lia.
    + inversion H; subst. lia.
Qed.

Lemma number_fraction_le (int_part : Z) (s : string) v n r b :
  number_fraction int_part s = (v, n, r, b) -> String.length r <= String.length s.
Proof.
  unfold number_fraction. intros H.
  destruct s as [|d [|f s]]; try (inversion H; subst; lia).
  destruct (Ascii.eqb d "." && is_digit f).
  - destruct (digits int_part (String f s)) as [[v' n'] r'] eqn:E.
    inversion H; subst. apply digits_le in E. simpl in *. lia.
  - inversion H; subst. lia.
Qed.

Lemma number_exponent_le (s : string) v r b :
  number_exponent s = (v, r, b) -> String.length r <= String.length s.
Proof.
  unfold number_exponent. intros H.
  destruct s as [|e s]; [inversion H; subst; lia|].
  destruct (Ascii.eqb e "e" || Ascii.eqb e "E"); [|inversion H; subst; lia].
  destruct (match s with
            | String g r' =>
                if Ascii.eqb g "-" then (true, r')
                else if Ascii.eqb g "+" then (false, r') else (false, s)
            | EmptyString => (false, s)
            end) as [exp_negative r1] eqn:S1.
  assert (L1 : String.length r1 <= String.length s).
  { destruct s as [|g s']; [inversion S1; subst; lia|].
    destruct (Ascii.eqb g "-"); [inversion S1; subst; simpl; lia|].
    destruct (Ascii.eqb g "+"); inversion S1; subst; simpl; lia. }
  destruct (digits 0 r1) as [[v' n'] r2] eqn:E. apply digits_le in E.
  destruct n'; inversion H; subst; simpl; lia.
Qed.

Lemma match_number_shorter (s : string) v r :
  match_number s = Some (v, r) -> String.length r < String.length s.
Proof.
  unfold match_number. intros H.
  destruct (match s with
            | String c s' => if Ascii.eqb c "-" then (true, s') else (false, s)
            | EmptyString => (false, s)
            end) as [negative s1] eqn:S1.
  assert (L1 : String.length s1 <= String.length s).
  { destruct s as [|c s']; [inversion S1; subst; lia|].
    destruct (Ascii.eqb c "-"); inversion S1; subst; simpl; lia. }
  destruct s1 as [|c s2]; [discriminate H|].
  destruct (is_digit c); [|discriminate H].
  destruct (if Ascii.eqb c "0" then (0%Z, s2)
            else let '(v, _, r) := digits (digit_val c) s2 in (v, r))
    as [int_part after_int] eqn:I.
  assert (L2 : String.length after_int <= String.length s2).
  { destruct (Ascii.eqb c "0"); [inversion I; subst; lia|].
    destruct (digits (digit_val c) s2) as [[v' n'] r'] eqn:E.
    inversion I; subst. now apply digits_le in E. }
  destruct (number_fraction int_part after_int) as [[[mantissa frac_len] after_frac] has_frac] eqn:F.
  apply number_fraction_le in F.
  destruct (number_exponent after_frac) as [[exponent after_exp] has_exp] eqn:X.
  apply number_exponent_le in X.
  destruct (has_frac || has_exp); inversion H; subst; simpl in *; lia.
Qed.

Lemma starts_with_length (p s : string) : starts_with p s = true -> String.length p <= String.length s.
Proof.
  revert s. induction p as [|a p IH]; intros s H; simpl; [lia|].
  destruct s as [|b s]; [discriminate H|]. simpl in H.
  apply andb_true_iff in H. destruct H as [_ H]. apply IH in H. simpl. lia.
Qed.

Lemma drop_length (n : nat) (s : string) : String.length (drop n s) = String.length s - n.
Proof.
  revert s. induction n as [|n IH]; intros s; [simpl; lia|].
  destruct s as [|c s]; simpl; [reflexivity | apply IH].
Qed.

Ltac ws_bound E :=
  match type of E with
  | skip_ws ?x = _ =>
      let L := fresh "L" in
      pose proof (skip_ws_le x) as L; rewrite E in L; cbn [String.length] in L
  end.

Ltac constant_case H N :=
  match type of H with
  | Some (_, ?d) = Some (_, ?r) => replace r with d by congruence
  end;
  apply starts_with_length in N;
  rewrite drop_length; cbn [String.length] in *; lia.

(** Whatever is parsed takes at least one character. *)
Lemma parsed_shorter : forall fuel,
  (forall s v r, scan_once fuel s = Some (v, r) -> String.length r < String.length s)
  /\ (forall s acc v r, parse_pairs fuel s acc = Some (v, r) ->
                        String.length r < String.length s)
  /\ (forall s acc v r, parse_items fuel s acc = Some (v, r) ->
                        String.length r < String.length s).
Proof.
  induction fuel as [|f (IHs & IHp & IHi)].
  { repeat split; intros; discriminate. }
  split; [|split].
  - intros s v r H. cbn [scan_once] in H.
    destruct s as [|c rest]; [discriminate H|].
    destruct (Ascii.eqb c dquote).
    { destruct (scanstring rest) as [[str r0]|] eqn:E; [|discriminate H].
      inversion H; subst. apply (scanstring_shorter _ _ (le_n _)) in E. simpl. lia. }
    destruct (Ascii.eqb c "{").
    { destruct (skip_ws rest) as [|c1 r1] eqn:W; [discriminate H|]. ws_bound W.
      destruct (Ascii.eqb c1 "}"); [inversion H; subst; simpl; lia|].
      apply IHp in H. simpl in *. lia. }
    destruct (Ascii.eqb c "[").
    { destruct (skip_ws rest) as [|c1 r1] eqn:W; [discriminate H|]. ws_bound W.
      destruct (Ascii.eqb c1 "]"); [inversion H; subst; simpl; lia|].
      apply IHi in H. simpl in *. lia. }
    destruct (starts_with "null" (String c rest)) eqn:N1; [constant_case H N1|].
    destruct (starts_with "true" (String c rest)) eqn:N2; [constant_case H N2|].
    destruct (starts_with "false" (String c rest)) eqn:N3; [constant_case H N3|].
    destruct (starts_with "NaN" (String c rest)) eqn:N4; [constant_case H N4|].
    destruct (starts_with "Infinity" (String c rest)) eqn:N5; [constant_case H N5|].
    destruct (starts_with "-Infinity" (String c rest)) eqn:N6; [constant_case H N6|].
    now apply match_number_shorter in H.
  - intros s acc v r H. cbn [parse_pairs] in H.
    destruct s as [|q after_q]; [discriminate H|].
    destruct (Ascii.eqb q dquote); [|discriminate H].
    destruct (scanstring after_q) as [[key r0]|] eqn:E; [|discriminate H].
    apply (scanstring_shorter _ _ (le_n _)) in E.
    destruct (skip_ws r0) as [|colon r1] eqn:W0; [discriminate H|]. ws_bound W0.
    destruct (Ascii.eqb colon ":"); [|discriminate H].
    destruct (scan_once f (skip_ws r1)) as [[val r2]|] eqn:V; [|discriminate H].
    apply IHs in V. pose proof (skip_ws_le r1) as L1.
    destruct (skip_ws r2) as [|d r3] eqn:W2; [discriminate H|]. ws_bound W2.
    destruct (Ascii.eqb d "}"); [inversion H; subst; simpl; lia|].
    destruct (Ascii.eqb d ","); [|discriminate H].
    apply IHp in H. pose proof (skip_ws_le r3). simpl. lia.
  - intros s acc v r H. cbn [parse_items] in H.
    destruct (scan_once f s) as [[val r0]|] eqn:V; [|discriminate H].
    apply IHs in V.
    destruct (skip_ws r0) as [|d r1] eqn:W; [discriminate H|]. ws_bound W.
    destruct (Ascii.eqb d "]"); [inversion H; subst; simpl; lia|].
    destruct (Ascii.eqb d ","); [|discriminate H].
    apply IHi in H. pose proof (skip_ws_le r1). lia.
Qed.

(** With fuel above twice the length of the text, more fuel changes
    nothing. *)
Lemma fuel_enough : forall f1,
  (forall f2 s, 2 * String.length s < f1 -> 2 * String.length s < f2 ->
                scan_once f1 s = scan_once f2 s)
  /\ (forall f2 s acc, 2 * String.length s + 1 < f1 -> 2 * String.length s + 1 < f2 ->
                       parse_pairs f1 s acc = parse_pairs f2 s acc)
  /\ (forall f2 s acc, 2 * String.length s + 1 < f1 -> 2 * String.length s + 1 < f2 ->
                       parse_items f1 s acc = parse_items f2 s acc).
Proof.
  induction f1 as [|f (IHs & IHp & IHi)].
  { repeat split; intros; lia. }
  split; [|split].
  - intros [|f2] s H1 H2; [lia|]. cbn [scan_once].
    destruct s as [|c rest]; [reflexivity|]. cbn [String.length] in H1, H2.
    destruct (Ascii.eqb c dquote); [reflexivity|].
    destruct (Ascii.eqb c "{").
    { destruct (skip_ws rest) as [|c1 r1] eqn:W; [reflexivity|]. ws_bound W.
      destruct (Ascii.eqb c1 "}"); [reflexivity|].
      apply IHp; cbn [String.length]; lia. }
    destruct (Ascii.eqb c "[").
    { destruct (skip_ws rest) as [|c1 r1] eqn:W; [reflexivity|]. ws_bound W.
      destruct (Ascii.eqb c1 "]"); [reflexivity|].
      apply IHi; cbn [String.length]; lia. }
    reflexivity.
  - intros [|f2] s acc H1 H2; [lia|]. cbn [parse_pairs].
    destruct s as [|q after_q]; [reflexivity|]. cbn [String.length] in H1, H2.
    destruct (Ascii.eqb q dquote); [|reflexivity].
    destruct (scanstring after_q) as [[key r0]|] eqn:E; [|reflexivity].
    apply (scanstring_shorter _ _ (le_n _)) in E.
    destruct (skip_ws r0) as [|colon r1] eqn:W0; [reflexivity|]. ws_bound W0.
    destruct (Ascii.eqb colon ":"); [|reflexivity].
    pose proof (skip_ws_le r1) as L1.
    rewrite (IHs f2 (skip_ws r1)) by lia.
    destruct (scan_once f2 (skip_ws r1)) as [[val r2]|] eqn:V; [|reflexivity].
    apply (proj1 (parsed_shorter f2)) in V.
    destruct (skip_ws r2) as [|d r3] eqn:W2; [reflexivity|]. ws_bound W2.
    destruct (Ascii.eqb d "}"); [reflexivity|].
    destruct (Ascii.eqb d ","); [|reflexivity].
    pose proof (skip_ws_le r3). apply IHp; lia.
  - intros [|f2] s acc H1 H2; [lia|]. cbn [parse_items].
    rewrite (IHs f2 s) by lia.
    destruct (scan_once f2 s) as [[val r0]|] eqn:V; [|reflexivity].
    apply (proj1 (parsed_shorter f2)) in V.
    destruct (skip_ws r0) as [|d r1] eqn:W; [reflexivity|]. ws_bound W.
    destruct (Ascii.eqb d "]"); [reflexivity|].
    destruct (Ascii.eqb d ","); [|reflexivity].
    pose proof (skip_ws_le r1). apply IHi; lia.
Qed.

(** [loads] never fails for want of fuel: with any larger amount the parse
    is the same. *)
Theorem loads_fuel (s : string) (fuel : nat) :
  2 * String.length s < fuel ->
  scan_once fuel (skip_ws s) = scan_once (S (2 * String.length s)) (skip_ws s).
Proof.
  intros H. pose proof (skip_ws_le s).
  apply (proj1 (fuel_enough fuel)); lia.
Qed.

End JsonFacts.

(* ================================================================== *)
(** * Properties of security.py *)

Module SecurityFacts.
Import Str Re Utils Config Security StrFacts ReFacts.

#[local] Arguments found : simpl never.
#[local] Arguments contains : simpl never.

(** A world with nothing on standard input and a model that never answers. *)
Definition idle_world : world :=
  {| stdin := []; llm := fun _ => None; literal_eval := fun _ => None;
     directory_structure := "./"; api_key := Some "k"; trace := [] |}.

(** Pass 1, first check: a denylist keyword occurs in the lowered command. *)
Definition keyword_hit (command : string) : Prop :=
  exists keyword, In keyword BLOCKED_KEYWORDS /\ contains keyword (lower command) = true.

(** Pass 1, second check: a dangerous pattern is found in the command. *)
Definition pattern_hit (command : string) : Prop :=
  exists pattern reason,
    In (pattern, reason) dangerous_patterns /\ found IGNORECASE pattern command = true.

Lemma find_none_iff {A} (f : A -> bool) (l : list A) :
  find f l = None <-> (forall x, In x l -> f x = false).
Proof.
  split; [apply find_none|].
  intros H. destruct (find f l) as [x|] eqn:E; [|reflexivity].
  apply find_some in E. destruct E as [Hin Hx]. rewrite (H x Hin) in Hx. discriminate.
Qed.

Lemma is_safe_command_true (command : string) :
  fst (is_safe_command command) = true <-> ~ keyword_hit command /\ ~ pattern_hit command.
Proof.
  unfold is_safe_command, keyword_hit, pattern_hit.
  destruct (find _ BLOCKED_KEYWORDS) as [kw|] eqn:K.
  - simpl. split; [discriminate|]. intros [N _]. exfalso. apply N.
    apply find_some in K. now exists kw.
  - destruct (find _ dangerous_patterns) as [[p r]|] eqn:P.
    + simpl. split; [discriminate|]. intros [_ N]. exfalso. apply N.
      apply find_some in P. now exists p, r.
    + simpl. split; [intros _|reflexivity]. split.
      * intros (kw & Hin & H). rewrite (proj1 (find_none_iff _ _) K kw Hin) in H. discriminate.
      * intros (p & r & Hin & H).
        pose proof (proj1 (find_none_iff _ _) P (p, r) Hin) as F. simpl in F.
        rewrite F in H. discriminate.
Qed.

(** Pass 2 returns, whatever it warns about. *)
Lemma warn_risks_returns (command : string) (patterns : list (regex * string)) :
  forall w, exists w', warn_risks command patterns w = (Ret tt, w').
Proof.
  induction patterns as [|[p msg] rest IH]; intros w; simpl.
  - eexists; reflexivity.
  - unfold bind. destruct (found IGNORECASE p command).
    + unfold print_warning, print_styled, emit; simpl. apply IH.
    + unfold ret. apply IH.
Qed.

(** [audit_command] returns the verdict of Pass 1, with the reason on
    rejection and the command itself on acceptance. *)
Lemma audit_command_returns (command : string) (description : pyval) (w : world) :
  exists w',
    audit_command command description w =
      (Ret (fst (is_safe_command command),
            if fst (is_safe_command command) then command
            else snd (is_safe_command command)), w').
Proof.
  unfold audit_command. destruct (is_safe_command command) as [b r].
  destruct b; cbn [fst snd negb].
  - unfold bind. destruct (warn_risks_returns command data_risk_patterns w) as [w' ->].
    eexists; reflexivity.
  - eexists; reflexivity.
Qed.

(** C10: the description never influences the audit: with the same command
    and in the same world, two descriptions give the same verdict, the same
    [reason_or_command] and the same printed messages. *)
Theorem audit_command_ignores_description
  (command : string) (d1 d2 : pyval) (w : world) :
  audit_command command d1 w = audit_command command d2 w.
Proof. reflexivity. Qed.

(** C2: a command that contains [rm -rf] in any letter case is rejected,
    whatever the description. *)
Theorem rm_rf_rejected (command : string) (description : pyval) (w : world) :
  contains_in_some_case "rm -rf" command ->
  exists reason w', audit_command command description w = (Ret (false, reason), w').
Proof.
  intros H. apply contains_lower in H; [|reflexivity].
  destruct (audit_command_returns command description w) as [w' E].
  assert (S : is_safe_command command = (false, "Command contains blocked keyword: rm -rf")).
  { unfold is_safe_command, BLOCKED_KEYWORDS. cbn [find]. rewrite H. reflexivity. }
  rewrite S in E. cbn [fst snd] in E. eauto.
Qed.

Lemma rm_rf_rejected_witness :
  contains_in_some_case "rm -rf" "cd /tmp && RM -Rf ." /\
  exists reason w',
    audit_command "cd /tmp && RM -Rf ." (PStr "clean up") idle_world
    = (Ret (false, reason), w').
Proof.
  assert (H : contains_in_some_case "rm -rf" "cd /tmp && RM -Rf .").
  { exists "cd /tmp && ", "RM -Rf", " .". split; reflexivity. }
  split; [exact H|].
  exact (rm_rf_rejected "cd /tmp && RM -Rf ." (PStr "clean up") idle_world H).
Defined.

(** C4: the verdict is [true] exactly when Pass 1 finds neither a denylist
    keyword nor a dangerous pattern; an accepted command is returned
    unchanged, and auditing it again gives the same verdict and the same
    text: the warnings of Pass 2 change nothing. *)
Theorem audit_verdict_is_pass1 (command : string) (description : pyval) (w : world) :
  exists is_safe result w',
    audit_command command description w = (Ret (is_safe, result), w')
    /\ (is_safe = true <-> ~ keyword_hit command /\ ~ pattern_hit command)
    /\ (is_safe = true ->
        result = command
        /\ exists w'', audit_command result description w' = (Ret (true, command), w'')).
Proof.
  destruct (audit_command_returns command description w) as [w' E].
  exists (fst (is_safe_command command)).
  exists (if fst (is_safe_command command) then command else snd (is_safe_command command)).
  exists w'. split; [exact E|]. split; [apply is_safe_command_true|].
  intros S. rewrite S. split; [reflexivity|].
  destruct (audit_command_returns command description w') as [w'' E'].
  rewrite S in E'. eauto.
Qed.

(** A command that Pass 2 warns about is accepted all the same, and
    returned as it is. *)
Example audit_recursive_grep :
  audit_command "grep -r TODO src" (PStr "Find the notes left in the code") idle_world
  = (Ret (true, "grep -r TODO src"),
     advance idle_world 0
       [Out Yellow false [Txt "Command searches recursively - verify scope"]]).
Proof. vm_compute. reflexivity. Qed.

(** The word [chmod], in any letter case, followed later on the same line
    by [777]: [pre] does not end, and [mid] does not start, with a word
    character, and [mid] has no line break. *)
Definition chmod_then_777 (command : string) : Prop :=
  exists pre w mid post,
    command = pre ++ w ++ mid ++ "777" ++ post
    /\ in_some_case "chmod" w
    /\ match last_char None pre with Some c => is_word c | None => false end = false
    /\ match mid with String c _ => is_word c | EmptyString => true end = false
    /\ all_chars (fun c => negb (Ascii.eqb c newline)) mid = true.

Definition is_lower_letter (c : ascii) : bool :=
  ((97 <=? nat_of_ascii c) && (nat_of_ascii c <=? 122))%nat.

Lemma fold_letter (c k : ascii) :
  ascii_fold c = k -> is_lower_letter k = true ->
  char_eq IGNORECASE k c = true /\ is_word c = true.
Proof.
  intros <-. each_ascii c; vm_compute; intros H; first [discriminate H | split; reflexivity].
Qed.

Definition chmod_pattern : regex :=
  ([WordB] ++ lits "chmod" ++ [WordB; Star Dot] ++ lits "777")%list.

Lemma chmod_pattern_found (command : string) :
  chmod_then_777 command -> found IGNORECASE chmod_pattern command = true.
Proof.
  intros (pre & w & mid & post & -> & Hw & Hpre & Hmid & Hline).
  apply found_app. unfold in_some_case in Hw.
  destruct w as [|c1 [|c2 [|c3 [|c4 [|c5 [|c6 w]]]]]]; try discriminate Hw.
  injection Hw as H1 H2 H3 H4 H5.
  destruct (fold_letter c1 _ H1 eq_refl) as [E1 W1].
  destruct (fold_letter c2 _ H2 eq_refl) as [E2 _].
  destruct (fold_letter c3 _ H3 eq_refl) as [E3 _].
  destruct (fold_letter c4 _ H4 eq_refl) as [E4 _].
  destruct (fold_letter c5 _ H5 eq_refl) as [E5 W5].
  destruct mid as [|m0 mid]; [discriminate Hmid|].
  cbn [chmod_pattern lits app String.append].
  rewrite matches_WordB. unfold at_boundary at 1. rewrite Hpre, W1. cbn [xorb andb].
  rewrite !matches_One. cbn [atom_matches]. rewrite E1, E2, E3, E4, E5. cbn [andb].
  rewrite matches_WordB. unfold at_boundary at 1. rewrite W5, Hmid. cbn [xorb andb].
  apply (matches_Star_app IGNORECASE Dot _ (String m0 mid) (Some c5) ("777" ++ post)).
  - exact Hline.
  - cbn [String.append]. rewrite !matches_One. reflexivity.
Qed.

(** C3, as the code has it: a command in which the word [chmod] is followed
    later on the same line by [777] is rejected; the reason is the
    permissions reason when no denylist keyword occurs in it and neither of
    the two patterns listed before the [chmod] one is found. *)
Theorem chmod_777_rejected (command : string) (description : pyval) (w : world) :
  chmod_then_777 command ->
  exists reason w',
    audit_command command description w = (Ret (false, reason), w')
    /\ (~ keyword_hit command ->
        (forall pattern r, In (pattern, r) (firstn 2 dangerous_patterns) ->
                           found IGNORECASE pattern command = false) ->
        reason = "Command sets dangerous file permissions").
Proof.
  intros H. apply chmod_pattern_found in H.
  destruct (audit_command_returns command description w) as [w' E].
  assert (S : exists reason,
             is_safe_command command = (false, reason)
             /\ (~ keyword_hit command ->
                 (forall pattern r, In (pattern, r) (firstn 2 dangerous_patterns) ->
                                    found IGNORECASE pattern command = false) ->
                 reason = "Command sets dangerous file permissions")).
  { unfold is_safe_command.
    destruct (find _ BLOCKED_KEYWORDS) as [kw|] eqn:K.
    - eexists; split; [reflexivity|]. intros N. exfalso. apply N.
      apply find_some in K. now exists kw.
    - unfold dangerous_patterns. cbn [find fst].
      match goal with |- context [found IGNORECASE ?p command] =>
        destruct (found IGNORECASE p command) eqn:P1 end.
      { eexists; split; [reflexivity|]. intros _ F.
        rewrite (F _ _ (or_introl eq_refl)) in P1. discriminate. }
      match goal with |- context [if found IGNORECASE ?p command then _ else _] =>
        destruct (found IGNORECASE p command) eqn:P2 end.
      { eexists; split; [reflexivity|]. intros _ F.
        rewrite (F _ _ (or_intror (or_introl eq_refl))) in P2. discriminate. }
      change (found IGNORECASE chmod_pattern command = true) in H.
      unfold chmod_pattern in H. rewrite H.
      eexists; split; reflexivity. }
  destruct S as (reason & S & R). rewrite S in E. cbn [fst snd] in E.
  exists reason, w'. split; assumption.
Qed.

Lemma chmod_777_rejected_witness :
  chmod_then_777 "ChMod 777 notes.txt"
  /\ exists w',
       audit_command "ChMod 777 notes.txt" PNone idle_world
       = (Ret (false, "Command sets dangerous file permissions"), w').
Proof.
  assert (H : chmod_then_777 "ChMod 777 notes.txt").
  { exists EmptyString, "ChMod", " ", " notes.txt". repeat split; reflexivity. }
  split; [exact H|].
  destruct (chmod_777_rejected "ChMod 777 notes.txt" PNone idle_world H)
    as (reason & w' & E & R).
  exists w'. rewrite E. rewrite R; [reflexivity | |].
  - intros (kw & Hin & Hc). unfold BLOCKED_KEYWORDS in Hin. simpl in Hin.
    repeat (destruct Hin as [<- | Hin]; [vm_compute in Hc; discriminate Hc|]).
    exact Hin.
  - intros pattern r Hin. simpl in Hin.
    repeat (destruct Hin as [Hin | Hin]; [injection Hin as <- <-; vm_compute; reflexivity|]).
    contradiction.
Defined.

(** C3 as stated fails: in [sudo chmod 777 notes.txt] the word [chmod] is
    followed by [777], and the reason returned is that of the denylist
    keyword [sudo], which is checked first. *)
Lemma chmod_777_reason_counterexample :
  chmod_then_777 "sudo chmod 777 notes.txt"
  /\ result_of (audit_command "sudo chmod 777 notes.txt" PNone) idle_world
     = Ret (false, "Command contains blocked keyword: sudo")
  /\ "Command contains blocked keyword: sudo" <> "Command sets dangerous file permissions".
Proof.
  split; [|split].
  - exists "sudo ", "chmod", " ", " notes.txt". repeat split; reflexivity.
  - vm_compute. reflexivity.
  - discriminate.
Qed.

End SecurityFacts.

(* ================================================================== *)
(** * Running computations *)

Module RunFacts.

Lemma advance_advance (w : world) (n1 n2 : nat) (e1 e2 : list event) :
  advance (advance w n1 e1) n2 e2 = advance w (n1 + n2) (e1 ++ e2).
Proof.
  unfold advance; simpl.
  now rewrite skipn_skipn, (Nat.add_comm n2 n1), app_assoc.
Qed.

Lemma advance_nothing (w : world) : advance w 0 [] = w.
Proof. destruct w; unfold advance; simpl. now rewrite app_nil_r. Qed.

Lemma events_of_advance {A} (m : M A) (w : world) (r : outcome A) (n : nat) (evs : list event) :
  m w = (r, advance w n evs) -> events_of m w = evs /\ result_of m w = r.
Proof.
  intros E. unfold events_of, result_of. rewrite E. simpl. split; [|reflexivity].
  rewrite skipn_app, skipn_all, Nat.sub_diag. reflexivity.
Qed.

Lemma llm_advance (w : world) (n : nat) (evs : list event) : llm (advance w n evs) = llm w.
Proof. reflexivity. Qed.

Lemma literal_eval_advance (w : world) (n : nat) (evs : list event) :
  literal_eval (advance w n evs) = literal_eval w.
Proof. reflexivity. Qed.

Lemma stdin_advance (w : world) (n : nat) (evs : list event) :
  stdin (advance w n evs) = skipn n (stdin w).
Proof. reflexivity. Qed.

(** An event printed by [print_error]. *)
Definition is_error (e : event) : bool :=
  match e with
  | Out Red _ _ => true
  | _ => false
  end.

Definition error_line (text : list piece) : event := Out Red false (Txt "Error: " :: text).

(** An event that puts a command or an answer before the user: its text on
    the screen, or a copy on the clipboard. *)
Definition delivers (e : event) : bool :=
  match e with
  | Out White _ _ => true
  | Copied _ => true
  | _ => false
  end.

(** One of the two lines [main] opens with. *)
Definition is_banner (e : event) : bool :=
  match e with
  | Out Blue true [Txt s] => String.eqb s "Command Generator"
  | Out Cyan false [Txt s] => String.eqb s "Analyzing your request..."
  | _ => false
  end.

(** What the steps between the opening lines and a delivery never do. *)
Definition noticed (e : event) : bool := is_banner e || delivers e.

Lemma existsb_noticed (evs : list event) :
  existsb noticed evs = false ->
  existsb is_banner evs = false /\ existsb delivers evs = false.
Proof.
  induction evs as [|e evs IH]; simpl; [auto|]. intros H.
  apply orb_false_iff in H. destruct H as [He Hs].
  unfold noticed in He. apply orb_false_iff in He. destruct He as [Hb Hd].
  destruct (IH Hs) as [-> ->]. now rewrite Hb, Hd.
Qed.

(** ** What a computation can print

    [emits_only P m]: whatever the world, [m] ends, having read some items of
    standard input and added to the trace only events that satisfy [P]. *)
Definition emits_only {A} (P : event -> bool) (m : M A) : Prop :=
  forall w, exists r n evs, m w = (r, advance w n evs) /\ forallb P evs = true.

Section Emits.
Context (P : event -> bool).

Lemma emits_stay {A} (r : outcome A) : emits_only P (fun w => (r, w)).
Proof. intros w. exists r, 0, []. now rewrite advance_nothing. Qed.

Lemma emits_ret {A} (x : A) : emits_only P (ret x).
Proof. apply emits_stay. Qed.

Lemma emits_raise {A} (e : exn) : emits_only P (@raise A e).
Proof. apply emits_stay. Qed.

Lemma emits_exit {A} (code : Z) : emits_only P (@sys_exit A code).
Proof. apply emits_stay. Qed.

Lemma emits_read {A} (f : world -> A) : emits_only P (fun w => (Ret (f w), w)).
Proof. intros w. exists (Ret (f w)), 0, []. now rewrite advance_nothing. Qed.

Lemma emits_emit (e : event) : P e = true -> emits_only P (emit e).
Proof. intros H w. exists (Ret tt), 0, [e]. simpl. now rewrite H. Qed.

Lemma emits_input (text : list piece) : P (Asked text) = true -> emits_only P (input text).
Proof.
  intros H w. unfold input.
  destruct (stdin w) as [|[s|] rest]; eexists _, 1, [Asked text];
    (split; [reflexivity | simpl; now rewrite H]).
Qed.

Lemma emits_generate_content (p : llm_prompt) :
  P (Generated p) = true -> emits_only P (generate_content p).
Proof.
  intros H w. exists (Ret (llm w p)), 0, [Generated p]. simpl. now rewrite H.
Qed.

Lemma emits_bind {A B} (m : M A) (k : A -> M B) :
  emits_only P m -> (forall x, emits_only P (k x)) -> emits_only P (bind m k).
Proof.
  intros Hm Hk w. destruct (Hm w) as (r & n & evs & E & F). unfold bind. rewrite E.
  destruct r as [x|e|c].
  - destruct (Hk x (advance w n evs)) as (r' & n' & evs' & E' & F').
    rewrite E', advance_advance. exists r', (n + n'), (evs ++ evs')%list.
    split; [reflexivity|]. now rewrite forallb_app, F, F'.
  - now exists (Raise e), n, evs.
  - now exists (Exit c), n, evs.
Qed.

Lemma emits_try_except {A} (body on_interrupt : M A) (on_exception : exn -> M A) :
  emits_only P body -> emits_only P on_interrupt ->
  (forall e, emits_only P (on_exception e)) ->
  emits_only P (try_except body on_interrupt on_exception).
Proof.
  intros Hb Hi He w. destruct (Hb w) as (r & n & evs & E & F).
  unfold try_except. rewrite E. destruct r as [x|e|c].
  - now exists (Ret x), n, evs.
  - destruct (is_Exception e).
    + destruct (He e (advance w n evs)) as (r' & n' & evs' & E' & F').
      rewrite E', advance_advance. exists r', (n + n'), (evs ++ evs')%list.
      split; [reflexivity|]. now rewrite forallb_app, F, F'.
    + destruct (Hi (advance w n evs)) as (r' & n' & evs' & E' & F').
      rewrite E', advance_advance. exists r', (n + n'), (evs ++ evs')%list.
      split; [reflexivity|]. now rewrite forallb_app, F, F'.
  - now exists (Exit c), n, evs.
Qed.

Lemma emits_events {A} (m : M A) (w : world) :
  emits_only P m -> forallb P (events_of m w) = true.
Proof.
  intros H. destruct (H w) as (r & n & evs & E & F).
  apply events_of_advance in E. destruct E as [-> _]. exact F.
Qed.

End Emits.

End RunFacts.

(* ================================================================== *)
(** * Properties of the response parser *)

Module ParserFacts.
Import Str StrOps Re Utils Extract LLMClient StrFacts ReFacts RunFacts.

(** What [generate_response] makes of the model's answer: the parsed value,
    or [None] when it reports a failure. *)
Definition parsed (w : world) (p : llm_prompt) : option pyval :=
  match llm w p with
  | None => None
  | Some text =>
      match clean_json_output (strip text) with
      | Some cleaned =>
          if truthy (PStr cleaned) then
            match Json.loads (fix_json_string cleaned) with
            | Some v => Some v
            | None => literal_eval w cleaned
            end
          else None
      | None => None
      end
  end.

Definition value_or_None (r : option pyval) : pyval :=
  match r with Some v => v | None => PNone end.

(** The failures [generate_response] reports. *)
Definition response_errors : list event :=
  [ error_line [Txt "LLM connection error: "; Unspecified];
    error_line [Txt "Could not parse the LLM response as JSON. Please try again."];
    error_line [Txt "Could not generate a valid response. Please try rephrasing your request."] ].

Ltac flatten_advance :=
  rewrite ?advance_advance, ?llm_advance, ?literal_eval_advance; cbn [Nat.add app].

(** [generate_response] always returns: the parsed value, having printed
    no error, or [None], having printed one.  It reads nothing from
    standard input. *)
Lemma generate_response_run (debug : bool) (p : llm_prompt) (w : world) :
  exists evs,
    generate_response debug p w = (Ret (value_or_None (parsed w p)), advance w 0 evs)
    /\ existsb noticed evs = false
    /\ match parsed w p with
       | Some _ => forallb (fun e => negb (is_error e)) evs = true
       | None => exists e, In e response_errors /\ In e evs
       end.
Proof.
  unfold parsed.
  destruct debug;
    cbv [generate_response bind print_thinking print_styled print print_error
         generate_content eval_literal ret emit];
    flatten_advance;
    (destruct (llm w p) as [text|];
     [|flatten_advance; eexists; split; [reflexivity|]; split; [reflexivity|];
       eexists; split; [left; reflexivity|]; simpl; tauto]);
    (destruct (clean_json_output (strip text)) as [cleaned|];
     [|flatten_advance; eexists; split; [reflexivity|]; split; [reflexivity|];
       eexists; split; [right; right; left; reflexivity|]; simpl; tauto]);
    (destruct (truthy (PStr cleaned));
     [|flatten_advance; eexists; split; [reflexivity|]; split; [reflexivity|];
       eexists; split; [right; right; left; reflexivity|]; simpl; tauto]);
    (destruct (Json.loads (fix_json_string cleaned)) as [v|];
     [flatten_advance; eexists; split; [reflexivity|]; split; reflexivity|]);
    flatten_advance;
    (destruct (literal_eval w cleaned) as [v|];
     [flatten_advance; eexists; split; [reflexivity|]; split; reflexivity|]);
    flatten_advance; eexists; (split; [reflexivity|]); (split; [reflexivity|]);
    eexists; (split; [right; left; reflexivity|]); simpl; tauto.
Qed.

(** ** Extracting an object from the text around it *)

Definition brace_tail : regex := [Star Dot; One (Lit "}")].
Definition brace_pattern : regex := One (Lit "{") :: brace_tail.

Definition not_char (x : ascii) (c : ascii) : bool := negb (Ascii.eqb x c).

Lemma append_assoc (a b c : string) : (a ++ b) ++ c = a ++ b ++ c.
Proof. induction a as [|x a IH]; simpl; [reflexivity | now rewrite IH]. Qed.

Lemma lstrip_app (a b : string) (c : ascii) :
  is_space c = false -> lstrip (a ++ String c b) = lstrip a ++ String c b.
Proof.
  intros Hc. induction a as [|x a IH]; simpl.
  - now rewrite Hc.
  - destruct (is_space x); [exact IH | reflexivity].
Qed.

Lemma rstrip_app (a b : string) (c : ascii) :
  is_space c = false -> rstrip (a ++ String c b) = a ++ String c (rstrip b).
Proof.
  intros Hc. induction a as [|x a IH]; simpl.
  - destruct (rstrip b); [now rewrite Hc | reflexivity].
  - rewrite IH. destruct a; reflexivity.
Qed.

Lemma all_chars_lstrip (P : ascii -> bool) (s : string) :
  all_chars P s = true -> all_chars P (lstrip s) = true.
Proof.
  induction s as [|x s IH]; simpl; [auto|]. intros H.
  apply andb_true_iff in H. destruct H as [Hx Hs].
  destruct (is_space x); [auto|]. simpl. now rewrite Hx, Hs.
Qed.

Lemma all_chars_rstrip (P : ascii -> bool) (s : string) :
  all_chars P s = true -> all_chars P (rstrip s) = true.
Proof.
  induction s as [|x s IH]; simpl; [auto|]. intros H.
  apply andb_true_iff in H. destruct H as [Hx Hs]. specialize (IH Hs).
  destruct (rstrip s).
  - destruct (is_space x); simpl; [reflexivity | now rewrite Hx].
  - simpl in *. now rewrite Hx, IH.
Qed.

Lemma match_here_One fl a re prev x s :
  match_here fl (One a :: re) prev (String x s) =
  if atom_matches fl a x then option_map shift (match_here fl re (Some x) s) else None.
Proof. reflexivity. Qed.

Lemma match_here_Star_cons fl a re prev x s :
  match_here fl (Star a :: re) prev (String x s) =
  if atom_matches fl a x then
    match match_here fl (Star a :: re) (Some x) s with
    | Some r => Some (shift r)
    | None => match_here fl re prev (String x s)
    end
  else match_here fl re prev (String x s).
Proof. reflexivity. Qed.

(** With no closing brace left, the rest of the brace pattern fails. *)
Lemma brace_tail_none (suf : string) : forall prev,
  all_chars (not_char "}") suf = true ->
  match_here DOTALL brace_tail prev suf = None.
Proof.
  induction suf as [|x suf IH]; intros prev H; [reflexivity|].
  simpl in H. apply andb_true_iff in H. destruct H as [Hx Hs].
  unfold brace_tail at 1. rewrite match_here_Star_cons. cbn [atom_matches dotall DOTALL orb].
  fold brace_tail. rewrite (IH (Some x) Hs), match_here_One.
  unfold not_char in Hx. cbn [atom_matches char_eq ignorecase DOTALL].
  now apply negb_true_iff in Hx; rewrite Hx.
Qed.

(** The greedy star stops at the last closing brace. *)
Lemma brace_tail_some (body suf : string) : forall prev,
  all_chars (not_char "}") suf = true ->
  exists r, match_here DOTALL brace_tail prev (body ++ "}" ++ suf) = Some r
            /\ m_len r = S (String.length body).
Proof.
  induction body as [|x body IH]; intros prev H.
  - change (EmptyString ++ "}" ++ suf) with (String "}" suf).
    unfold brace_tail at 1. rewrite match_here_Star_cons.
    cbn [atom_matches dotall DOTALL orb].
    fold brace_tail. rewrite (brace_tail_none suf _ H), match_here_One.
    eexists; split; reflexivity.
  - change (String x body ++ "}" ++ suf) with (String x (body ++ "}" ++ suf)).
    unfold brace_tail at 1. rewrite match_here_Star_cons.
    cbn [atom_matches dotall DOTALL orb].
    fold brace_tail. destruct (IH (Some x) H) as (r & -> & L).
    eexists; split; [reflexivity|]. simpl. now rewrite L.
Qed.

Lemma brace_search (pre body suf : string) : forall prev,
  all_chars (not_char "{") pre = true ->
  all_chars (not_char "}") suf = true ->
  exists r,
    search_from DOTALL brace_pattern prev (pre ++ "{" ++ body ++ "}" ++ suf)
      = Some (String.length pre, r)
    /\ m_len r = S (S (String.length body)).
Proof.
  induction pre as [|x pre IH]; intros prev Hpre Hsuf.
  - change (EmptyString ++ "{" ++ body ++ "}" ++ suf) with (String "{" (body ++ "}" ++ suf)).
    cbn [search_from]. unfold brace_pattern.
    rewrite match_here_One. cbn [atom_matches char_eq ignorecase DOTALL].
    destruct (brace_tail_some body suf (Some "{"%char) Hsuf) as (r & E & L).
    replace (Ascii.eqb "{" "{") with true by reflexivity.
    rewrite E. simpl. eexists; split; [reflexivity|]. simpl. now rewrite L.
  - simpl in Hpre. apply andb_true_iff in Hpre. destruct Hpre as [Hx Hpre].
    change (String x pre ++ "{" ++ body ++ "}" ++ suf)
      with (String x (pre ++ "{" ++ body ++ "}" ++ suf)).
    cbn [search_from].
    assert (N : match_here DOTALL brace_pattern prev
                  (String x (pre ++ "{" ++ body ++ "}" ++ suf)) = None).
    { unfold brace_pattern. rewrite match_here_One.
      cbn [atom_matches char_eq ignorecase DOTALL].
      unfold not_char in Hx. apply negb_true_iff in Hx. now rewrite Hx. }
    rewrite N. destruct (IH (Some x) Hpre Hsuf) as (r & -> & L).
    eexists; split; [reflexivity | exact L].
Qed.

Lemma drop_app (a b : string) : drop (String.length a) (a ++ b) = b.
Proof. induction a as [|x a IH]; simpl; [destruct b; reflexivity | exact IH]. Qed.

Lemma take_app (a b : string) : take (String.length a) (a ++ b) = a.
Proof. induction a as [|x a IH]; simpl; [destruct b; reflexivity | now rewrite IH]. Qed.

Lemma length_append (a b : string) :
  String.length (a ++ b) = String.length a + String.length b.
Proof. induction a as [|x a IH]; simpl; [reflexivity | now rewrite IH]. Qed.

(** [clean_json_output] returns the span from the first opening brace to
    the last closing one. *)
Lemma clean_json_output_span (pre body suf : string) :
  all_chars (not_char "{") pre = true ->
  all_chars (not_char "}") suf = true ->
  clean_json_output (pre ++ "{" ++ body ++ "}" ++ suf) = Some ("{" ++ body ++ "}").
Proof.
  intros Hpre Hsuf. unfold clean_json_output, search.
  destruct (brace_search pre body suf None Hpre Hsuf) as (r & E & L).
  change (lits "{" ++ [Star Dot] ++ lits "}")%list with brace_pattern.
  rewrite E. unfold group0. cbn [fst snd].
  rewrite drop_app, L. f_equal.
  replace (S (S (String.length body))) with (String.length ("{" ++ body ++ "}")).
  - replace ("{" ++ body ++ "}" ++ suf) with (("{" ++ body ++ "}") ++ suf).
    + apply take_app.
    + simpl. now rewrite append_assoc.
  - simpl. rewrite length_append. simpl. lia.
Qed.

(** The same after [strip], whatever surrounds the object. *)
Lemma clean_json_output_embedded (prefix body suffix : string) :
  all_chars (not_char "{") prefix = true ->
  all_chars (not_char "}") suffix = true ->
  clean_json_output (strip (prefix ++ ("{" ++ body ++ "}") ++ suffix))
  = Some ("{" ++ body ++ "}").
Proof.
  intros Hpre Hsuf. unfold strip.
  change (prefix ++ ("{" ++ body ++ "}") ++ suffix)
    with (prefix ++ String "{" ((body ++ "}") ++ suffix)).
  rewrite lstrip_app by reflexivity.
  rewrite (append_assoc body "}" suffix).
  replace (lstrip prefix ++ String "{" (body ++ "}" ++ suffix))
    with ((lstrip prefix ++ String "{" body) ++ String "}" suffix)
    by (rewrite append_assoc; reflexivity).
  rewrite rstrip_app by reflexivity.
  rewrite append_assoc.
  apply (clean_json_output_span (lstrip prefix) body (rstrip suffix)).
  - now apply all_chars_lstrip.
  - now apply all_chars_rstrip.
Qed.

Lemma append_empty (s : string) : s ++ EmptyString = s.
Proof. induction s as [|x s IH]; simpl; [reflexivity | now rewrite IH]. Qed.

Lemma fix_json_string_valid (s : string) (v : pyval) :
  Json.loads s = Some v -> fix_json_string s = s.
Proof. intros H. unfold fix_json_string. now rewrite H. Qed.

Lemma parsed_embedded (w : world) (p : llm_prompt) (prefix body suffix : string) (v : pyval) :
  Json.loads ("{" ++ body ++ "}") = Some v ->
  all_chars (not_char "{") prefix = true ->
  all_chars (not_char "}") suffix = true ->
  llm w p = Some (prefix ++ ("{" ++ body ++ "}") ++ suffix) ->
  parsed w p = Some v.
Proof.
  intros Hv Hpre Hsuf Hllm. unfold parsed. rewrite Hllm.
  rewrite (clean_json_output_embedded prefix body suffix Hpre Hsuf).
  cbn [truthy String.eqb negb append].
  change (String "{" (body ++ "}")) with ("{" ++ body ++ "}").
  now rewrite (fix_json_string_valid _ _ Hv), Hv.
Qed.

Lemma generate_response_parsed (debug : bool) (p : llm_prompt) (w : world) (v : pyval) :
  parsed w p = Some v ->
  result_of (generate_response debug p) w = Ret v
  /\ forallb (fun e => negb (is_error e)) (events_of (generate_response debug p) w) = true.
Proof.
  intros H. destruct (generate_response_run debug p w) as (evs & E & _ & P).
  rewrite H in E, P. apply events_of_advance in E. destruct E as [-> ->]. auto.
Qed.

(** A world in which the model answers [text] to every prompt, nothing is on
    standard input and [ast.literal_eval] rejects what it is given. *)
Definition answering (text : string) : world :=
  {| stdin := []; llm := fun _ => Some text; literal_eval := fun _ => None;
     directory_structure := "./"; api_key := Some "k"; trace := [] |}.

Definition some_prompt : llm_prompt := AnalysisPrompt "./" "list the files".

(** The text of the object with the one key [command], bound to [ls]. *)
Definition ls_object_body : string := quoted "command" ++ ": " ++ quoted "ls".

(** C5, as the code has it: when the text before a well-formed JSON object
    has no opening brace and the text after it no closing brace, parsing
    the whole succeeds and gives what parsing the object alone gives, with
    no error reported. *)
Theorem embedded_object_recovered (debug : bool) (p : llm_prompt) (w1 w2 : world)
  (prefix body suffix : string) (v : pyval) :
  Json.loads ("{" ++ body ++ "}") = Some v ->
  all_chars (not_char "{") prefix = true ->
  all_chars (not_char "}") suffix = true ->
  llm w1 p = Some (prefix ++ ("{" ++ body ++ "}") ++ suffix) ->
  llm w2 p = Some ("{" ++ body ++ "}") ->
  result_of (generate_response debug p) w1 = Ret v
  /\ result_of (generate_response debug p) w2 = Ret v
  /\ forallb (fun e => negb (is_error e)) (events_of (generate_response debug p) w1) = true.
Proof.
  intros Hv Hpre Hsuf H1 H2.
  pose proof (parsed_embedded w1 p prefix body suffix v Hv Hpre Hsuf H1) as P1.
  assert (P2 : parsed w2 p = Some v).
  { apply (parsed_embedded w2 p EmptyString body EmptyString v Hv); try reflexivity.
    rewrite H2. cbn [append]. now rewrite !append_empty. }
  destruct (generate_response_parsed debug p w1 v P1) as [R1 E1].
  destruct (generate_response_parsed debug p w2 v P2) as [R2 _].
  auto.
Qed.

Lemma embedded_object_recovered_witness :
  result_of (generate_response false some_prompt)
    (answering ("Here you go: " ++ ("{" ++ ls_object_body ++ "}") ++ " Anything else?"))
  = Ret (PDict [("command", PStr "ls")])
  /\ result_of (generate_response false some_prompt) (answering ("{" ++ ls_object_body ++ "}"))
     = Ret (PDict [("command", PStr "ls")])
  /\ forallb (fun e => negb (is_error e))
       (events_of (generate_response false some_prompt)
          (answering ("Here you go: " ++ ("{" ++ ls_object_body ++ "}") ++ " Anything else?")))
     = true.
Proof.
  apply (embedded_object_recovered false some_prompt _ _
           "Here you go: " ls_object_body " Anything else?"); reflexivity.
Defined.

(** C5 as stated fails.  The span is cut from the first opening brace to
    the last closing one: a brace in the text before the object makes the
    parse fail ([ast.literal_eval] rejects the span too, a syntax error),
    and an enclosing pair of braces makes it return another object. *)
Lemma embedded_object_counterexample :
  Json.loads ("{" ++ ls_object_body ++ "}") = Some (PDict [("command", PStr "ls")])
  /\ result_of (generate_response false some_prompt) (answering ("{" ++ ls_object_body ++ "}"))
     = Ret (PDict [("command", PStr "ls")])
  /\ result_of (generate_response false some_prompt)
       (answering ("Use {curly} braces: " ++ ("{" ++ ls_object_body ++ "}") ++ EmptyString))
     = Ret PNone
  /\ result_of (generate_response false some_prompt)
       (answering (("{" ++ quoted "wrapped" ++ ": ") ++ ("{" ++ ls_object_body ++ "}") ++ "}"))
     = Ret (PDict [("wrapped", PDict [("command", PStr "ls")])]).
Proof. repeat split; vm_compute; reflexivity. Qed.

(** C6, as the code has it: when [json.loads] accepts the extracted span,
    repaired or not, the value returned is the one it gives, field by
    field: a field is a [str] where the text has a JSON string, and a
    number, a boolean or [None] where the text has one of those. *)
Theorem parsed_fields_as_written (debug : bool) (p : llm_prompt) (w : world)
  (text cleaned : string) (v : pyval) :
  llm w p = Some text ->
  clean_json_output (strip text) = Some cleaned ->
  Json.loads (fix_json_string cleaned) = Some v ->
  result_of (generate_response debug p) w = Ret v.
Proof.
  intros Hllm Hclean Hloads.
  assert (T : truthy (PStr cleaned) = true).
  { destruct cleaned; [|reflexivity]. vm_compute in Hloads. discriminate. }
  apply generate_response_parsed. unfold parsed.
  now rewrite Hllm, Hclean, T, Hloads.
Qed.

(** The text of an object whose [command] is the number 5. *)
Definition numeric_command : string :=
  "{" ++ quoted "is_command_request" ++ ": true, " ++ quoted "command" ++ ": 5, "
      ++ quoted "description" ++ ": null}".

Lemma parsed_fields_as_written_witness :
  result_of (generate_response false some_prompt) (answering ("Sure: " ++ numeric_command))
  = Ret (PDict [("is_command_request", PBool true); ("command", PInt 5);
                ("description", PNone)]).
Proof.
  apply (parsed_fields_as_written false some_prompt _ ("Sure: " ++ numeric_command)
           numeric_command); reflexivity.
Defined.

(** C6 as stated fails: the parser succeeds on an object whose [command] is
    a number and whose [description] is [null], and returns them as they
    are. *)
Lemma string_fields_counterexample :
  result_of (generate_response false some_prompt) (answering numeric_command)
  = Ret (PDict [("is_command_request", PBool true); ("command", PInt 5);
                ("description", PNone)])
  /\ CommandGenerator.get
       [("is_command_request", PBool true); ("command", PInt 5); ("description", PNone)]
       "command" = PInt 5
  /\ CommandGenerator.get
       [("is_command_request", PBool true); ("command", PInt 5); ("description", PNone)]
       "description" = PNone.
Proof. repeat split; vm_compute; reflexivity. Qed.

End ParserFacts.

(* ================================================================== *)
(** * Properties of the request flow *)

Module FlowFacts.
Import Str StrOps Re Utils Config Security Extract LLMClient Display CommandGenerator Cli.
Import StrFacts ReFacts SecurityFacts RunFacts ParserFacts.

#[local] Arguments found : simpl never.

(** ** Input validation *)

Definition backtick : ascii := "`"%char.

(** A run with no line break between two backticks. *)
Definition backticks_on_a_line (text : string) : Prop :=
  exists pre mid post,
    text = pre ++ String backtick (mid ++ String backtick post)
    /\ all_chars (not_char newline) mid = true.

(** [$(], a run with no line break, and [)]. *)
Definition substitution_on_a_line (text : string) : Prop :=
  exists pre mid post,
    text = pre ++ "$(" ++ mid ++ ")" ++ post
    /\ all_chars (not_char newline) mid = true.

Lemma dot_matches_line (mid : string) :
  all_chars (not_char newline) mid = true ->
  all_chars (atom_matches IGNORECASE Dot) mid = true.
Proof.
  induction mid as [|x mid IH]; simpl; [auto|]. intros H.
  apply andb_true_iff in H. destruct H as [Hx Hm].
  unfold not_char in Hx. rewrite (IH Hm), andb_true_r.
  rewrite Ascii.eqb_sym. exact Hx.
Qed.

Lemma backticks_found (text : string) :
  backticks_on_a_line text ->
  found IGNORECASE (lits "`" ++ [Star Dot] ++ lits "`")%list text = true.
Proof.
  intros (pre & mid & post & -> & Hmid). apply found_app.
  cbn [lits app]. rewrite matches_One. cbn [atom_matches]. 
  replace (char_eq IGNORECASE "`" backtick) with true by reflexivity. cbn [andb].
  apply (matches_Star_app IGNORECASE Dot _ mid (Some backtick) (String backtick post)).
  - now apply dot_matches_line.
  - rewrite matches_One. reflexivity.
Qed.

Lemma substitution_found (text : string) :
  substitution_on_a_line text ->
  found IGNORECASE (lits "$(" ++ [Star Space; Star Dot; Star Space] ++ lits ")")%list text = true.
Proof.
  intros (pre & mid & post & -> & Hmid). apply found_app.
  cbn [lits app append]. rewrite !matches_One. cbn [atom_matches].
  replace (char_eq IGNORECASE "$" "$") with true by reflexivity.
  replace (char_eq IGNORECASE "(" "(") with true by reflexivity. cbn [andb].
  apply matches_Star_skip.
  apply (matches_Star_app IGNORECASE Dot _ mid (Some "("%char) (String ")" post)).
  - now apply dot_matches_line.
  - apply matches_Star_skip. rewrite matches_One. reflexivity.
Qed.

Lemma find_first {A} (f : A -> bool) (l : list A) (x : A) :
  In x l -> f x = true -> find f l <> None.
Proof.
  intros Hin Hx Hnone. rewrite (find_none f l Hnone x Hin) in Hx. discriminate.
Qed.

(** On one line, both forms are caught: [validate_input] reports the text
    and returns [False], and [analyze_request] gives up without calling the
    model. *)
Lemma validate_input_rejects_on_one_line (g : generator) (text : string) (w : world) :
  backticks_on_a_line text \/ substitution_on_a_line text ->
  validate_input text w
  = (Ret false,
     advance w 0 [error_line [Txt "Potentially unsafe input detected: "; Txt text]])
  /\ analyze_request g text w
     = (Ret PNone,
        advance w 0 [error_line [Txt "Potentially unsafe input detected: "; Txt text]]).
Proof.
  intros H.
  assert (F : find (fun pattern => found IGNORECASE pattern text) injection_patterns <> None).
  { destruct H as [H|H].
    - apply backticks_found in H. eapply find_first; [|exact H].
      unfold injection_patterns. simpl. tauto.
    - apply substitution_found in H. eapply find_first; [|exact H].
      unfold injection_patterns. simpl. tauto. }
  assert (V : validate_input text w
              = (Ret false,
                 advance w 0 [error_line [Txt "Potentially unsafe input detected: "; Txt text]])).
  { unfold validate_input.
    destruct (find _ injection_patterns); [reflexivity | congruence]. }
  split; [exact V|]. unfold analyze_request, bind. rewrite V. reflexivity.
Qed.

(** A request with a line break between two backticks. *)
Definition multiline_backticks : string :=
  "show `uname" ++ String newline " -a`".

(** A request with a line break inside [$( )]. *)
Definition multiline_substitution : string :=
  "run $(cat /etc/hostname" ++ String newline "uname -a)".

(** C7 at the failing inputs: with a line break inside the backticks, or
    inside [$( )], [validate_input] prints nothing and returns [True], and
    [analyze_request] sends the text to the model. *)
Theorem validate_input_misses_line_breaks :
  contains "`uname" multiline_backticks = true
  /\ validate_input multiline_backticks idle_world = (Ret true, idle_world)
  /\ validate_input multiline_substitution idle_world = (Ret true, idle_world)
  /\ In (Generated (AnalysisPrompt "./" multiline_backticks))
       (events_of (analyze_request {| debug := false |} multiline_backticks) idle_world)
  /\ In (Generated (AnalysisPrompt "./" multiline_substitution))
       (events_of (analyze_request {| debug := false |} multiline_substitution) idle_world).
Proof. repeat split; vm_compute; tauto. Qed.

(** ** The steps of a request *)

Definition no_errors (evs : list event) : Prop := filter is_error evs = [].

Lemma no_errors_forallb (evs : list event) :
  forallb (fun e => negb (is_error e)) evs = true -> no_errors evs.
Proof.
  unfold no_errors. induction evs as [|e evs IH]; simpl; [reflexivity|].
  intros H. apply andb_true_iff in H. destruct H as [He Hs].
  apply negb_true_iff in He. rewrite He. auto.
Qed.

Lemma filter_errors_app (a b : list event) :
  filter is_error (a ++ b)%list = (filter is_error a ++ filter is_error b)%list.
Proof. apply filter_app. Qed.

(** Pass 2 prints warnings only. *)
Lemma warn_risks_run (command : string) (patterns : list (regex * string)) :
  forall w, exists evs,
    warn_risks command patterns w = (Ret tt, advance w 0 evs)
    /\ no_errors evs /\ existsb noticed evs = false.
Proof.
  induction patterns as [|[pattern msg] rest IH]; intros w; cbn [warn_risks].
  - exists []. rewrite advance_nothing. repeat split.
  - unfold bind. destruct (found IGNORECASE pattern command).
    + cbv [print_warning print_styled emit].
      destruct (IH (advance w 0 [Out Yellow false [Txt msg]])) as (evs & -> & N & B).
      rewrite advance_advance. eexists; split; [reflexivity|].
      unfold no_errors in *. cbn [app filter is_error existsb noticed is_banner delivers orb]. auto.
    + cbv [ret]. apply IH.
Qed.

Lemma audit_command_accepts (command : string) (description : pyval) (w : world) :
  fst (is_safe_command command) = true ->
  exists evs,
    audit_command command description w = (Ret (true, command), advance w 0 evs)
    /\ no_errors evs /\ existsb noticed evs = false.
Proof.
  intros S. unfold audit_command. destruct (is_safe_command command) as [b r].
  cbn [fst] in S. subst b. cbn [negb]. unfold bind.
  destruct (warn_risks_run command data_risk_patterns w) as (evs & -> & N & B).
  exists evs. auto.
Qed.

Definition unsafe_command_detected (reason : string) : event :=
  error_line [Txt "Unsafe command detected: "; Txt reason].

Definition generated_command_rejected (reason : string) : event :=
  error_line [Txt "Generated command was rejected: "; Txt reason].

Lemma audit_command_rejects (command : string) (description : pyval) (w : world) :
  fst (is_safe_command command) = false ->
  audit_command command description w
  = (Ret (false, snd (is_safe_command command)),
     advance w 0 [unsafe_command_detected (snd (is_safe_command command))]).
Proof.
  intros S. unfold audit_command. destruct (is_safe_command command) as [b r].
  cbn [fst] in S. subst b. reflexivity.
Qed.

(** What is printed for a command that is shown. *)
Definition command_display (command : string) (description : pyval) : list event :=
  ([ Out Plain false []; Out Blue true [Txt "COMMAND"]; Out Plain false [Rule];
     Out White true [Filled command]; Out Plain false [Rule] ]
   ++ (if truthy description
       then [ Out Blue true [Txt "DESCRIPTION"]; Out Plain false [Val description];
              Out Plain false [] ]
       else []))%list.

Lemma display_command_run (command : string) (description : pyval) (w : world) :
  display_command (PStr command) description w
  = (Ret tt, advance w 0 (command_display command description)).
Proof.
  unfold command_display.
  cbv [display_command bind print print_styled emit fill ret].
  destruct (truthy description); rewrite ?advance_advance; reflexivity.
Qed.

(** The second half of [handle_command_request], from [if command:] on. *)
Definition deliver (quiet : bool) (chosen : pyval * pyval) : M bool :=
  let '(command, description) := chosen in
  if truthy command then
    display_command command description ;;
    line <- input [Txt (String newline "Copy to clipboard? [Y/n]: ")] ;;
    let copy_choice := lower (strip line) in
    (if negb (truthy (PStr copy_choice)) || String.eqb copy_choice "y" then
       copy command ;;
       print_success [Txt "Command copied to clipboard!"]
     else ret tt) ;;
    ret true
  else
    (if negb quiet then
       print_error
         [Txt "Failed to generate command. Please try again with a clearer request."]
     else ret tt) ;;
    ret false.

(** Its first half: where the command comes from. *)
Definition choose (g : generator) (requirements : list (string * pyval)) : M (pyval * pyval) :=
  if truthy (get_or requirements "requires_input" (PBool false)) then
    print [] ;;
    print_styled [Txt "INPUT REQUIRED"] Yellow true ;;
    let input_description :=
      get_or requirements "input_description"
        (PStr "Please provide the following information to complete the command:") in
    wrapped_description <- fill input_description ;;
    print [wrapped_description] ;;
    print [] ;;
    prompts <- iterate (get_or requirements "inputs" (PList [])) ;;
    user_inputs <- collect_inputs prompts [] ;;
    generate_command_with_inputs g (get requirements "command") user_inputs
  else
    ret (get requirements "command", get requirements "description").

Lemma handle_command_request_halves g requirements quiet :
  handle_command_request g requirements quiet = bind (choose g requirements) (deliver quiet).
Proof. reflexivity. Qed.

Definition failed_to_generate : event :=
  error_line [Txt "Failed to generate command. Please try again with a clearer request."].

Lemma deliver_nothing (quiet : bool) (command description : pyval) (w : world) :
  truthy command = false ->
  deliver quiet (command, description) w
  = (Ret false, advance w 0 (if quiet then [] else [failed_to_generate])).
Proof.
  intros T. unfold deliver. rewrite T.
  destruct quiet; cbv [negb bind ret print_error print_styled emit].
  - now rewrite advance_nothing.
  - reflexivity.
Qed.

Definition asked (input_prompt : pyval) : event :=
  Asked [Txt "  "; Val input_prompt; Txt ": "].

(** The loop reads one line for each prompt. *)
Lemma collect_inputs_run (prompts : list pyval) :
  forall (lines : list string) (acc : list (pyval * string)) (w : world),
    forallb hashable prompts = true ->
    length lines = length prompts ->
    firstn (length prompts) (stdin w) = map Line lines ->
    collect_inputs prompts acc w
    = (Ret (acc ++ combine prompts (map strip lines))%list,
       advance w (length prompts) (map asked prompts)).
Proof.
  induction prompts as [|p prompts IH]; intros lines acc w Hh Hlen Hin.
  - cbn [collect_inputs ret length map combine]. now rewrite app_nil_r, advance_nothing.
  - destruct lines as [|l lines]; [discriminate Hlen|].
    cbn [forallb] in Hh. apply andb_true_iff in Hh. destruct Hh as [Hp Hh].
    cbn [length] in Hlen, Hin. injection Hlen as Hlen.
    destruct (stdin w) as [|item rest] eqn:Hstdin; [discriminate Hin|].
    cbn [firstn map] in Hin. injection Hin as -> Hin.
    cbn [collect_inputs]. unfold bind at 1. unfold input. rewrite Hstdin, Hp.
    rewrite (IH lines _ (advance w 1 [Asked [Txt "  "; Val p; Txt ": "]]) Hh Hlen).
    + rewrite advance_advance, <- app_assoc. reflexivity.
    + rewrite stdin_advance, Hstdin. exact Hin.
Qed.

Lemma truthy_dict (d : list (string * pyval)) : d <> [] -> truthy (PDict d) = true.
Proof. destruct d; [congruence | reflexivity]. Qed.

(** The finalization step when the response is an object whose [command]
    is a [str]: the audit decides. *)
Lemma generate_command_with_inputs_run (g : generator) (command_template : pyval)
  (user_inputs : list (pyval * string)) (w : world)
  (d : list (string * pyval)) (command : string) :
  parsed w (FinalizationPrompt (directory_structure w) command_template user_inputs)
    = Some (PDict d) ->
  d <> [] ->
  get d "command" = PStr command ->
  exists evs,
    no_errors evs /\ existsb noticed evs = false
    /\ generate_command_with_inputs g command_template user_inputs w
       = if fst (is_safe_command command)
         then (Ret (PStr command, get d "description"), advance w 0 evs)
         else (Ret (PNone, PNone),
               advance w 0
                 (evs ++ [unsafe_command_detected (snd (is_safe_command command));
                          generated_command_rejected (snd (is_safe_command command))])%list).
Proof.
  intros P D C.
  unfold generate_command_with_inputs, bind at 1, get_directory_structure.
  unfold bind at 1.
  destruct (generate_response_run (debug g)
              (FinalizationPrompt (directory_structure w) command_template user_inputs) w)
    as (evs & E & B & N).
  rewrite E, P in *. cbn [value_or_None]. rewrite (truthy_dict d D).
  apply no_errors_forallb in N.
  cbv [as_dict bind ret]. rewrite C. cbn [audit_command_dyn].
  destruct (fst (is_safe_command command)) eqn:S.
  - destruct (audit_command_accepts command (get d "description") (advance w 0 evs) S)
      as (evs' & -> & N' & B').
    rewrite advance_advance. exists (evs ++ evs')%list. split; [|split; [|reflexivity]].
    + unfold no_errors in *. now rewrite filter_errors_app, N, N'.
    + now rewrite existsb_app, B, B'.
  - rewrite (audit_command_rejects command (get d "description") (advance w 0 evs) S).
    cbv [print_error print_styled emit]. rewrite !advance_advance.
    exists evs. split; [exact N | split; [exact B | reflexivity]].
Qed.

Definition default_input_description : string :=
  "Please provide the following information to complete the command:".

(** What is printed before the inputs are asked for. *)
Definition input_header (description_text : string) : list event :=
  [ Out Plain false []; Out Yellow true [Txt "INPUT REQUIRED"];
    Out Plain false [Filled description_text]; Out Plain false [] ].

(** The follow-up flow up to the finalization: the description is a [str],
    the inputs are a list of prompts that can be keys, and standard input
    holds a line for each. *)
Definition inputs_collected (requirements : list (string * pyval)) (w : world)
  (description_text : string) (prompts : list pyval) (lines : list string) : Prop :=
  truthy (get_or requirements "requires_input" (PBool false)) = true
  /\ get_or requirements "input_description" (PStr default_input_description)
     = PStr description_text
  /\ get_or requirements "inputs" (PList []) = PList prompts
  /\ forallb hashable prompts = true
  /\ length lines = length prompts
  /\ firstn (length prompts) (stdin w) = map Line lines.

Lemma choose_follow_up (g : generator) (requirements : list (string * pyval)) (w : world)
  (description_text : string) (prompts : list pyval) (lines : list string) :
  inputs_collected requirements w description_text prompts lines ->
  choose g requirements w
  = generate_command_with_inputs g (get requirements "command")
      (combine prompts (map strip lines))
      (advance w (length prompts) (input_header description_text ++ map asked prompts)%list).
Proof.
  intros (R & Dsc & I & Hh & Hlen & Hin). unfold choose. rewrite R.
  fold default_input_description. rewrite Dsc, I.
  cbv [bind print print_styled emit fill iterate ret].
  rewrite !advance_advance. cbn [Nat.add app].
  rewrite (collect_inputs_run prompts lines [] _ Hh Hlen) by (rewrite stdin_advance; exact Hin).
  rewrite advance_advance. reflexivity.
Qed.

(** The command is missing or empty where the direct flow needs it: there
    is no [command] key, or its value is one that Python takes for false
    ([None], the empty string, ...). *)
Definition direct_command_empty (requirements : list (string * pyval)) : Prop :=
  truthy (get_or requirements "requires_input" (PBool false)) = false
  /\ truthy (get requirements "command") = false.

(** The finalization response of the follow-up flow is an object whose
    [command] is the empty string. *)
Definition finalized_command_empty (requirements : list (string * pyval)) (w : world) : Prop :=
  exists description_text prompts lines d,
    inputs_collected requirements w description_text prompts lines
    /\ parsed w (FinalizationPrompt (directory_structure w) (get requirements "command")
                   (combine prompts (map strip lines))) = Some (PDict d)
    /\ d <> []
    /\ get d "command" = PStr EmptyString.

Lemma handle_direct_empty (g : generator) (requirements : list (string * pyval))
  (quiet : bool) (w : world) :
  direct_command_empty requirements ->
  handle_command_request g requirements quiet w
  = (Ret false, advance w 0 (if quiet then [] else [failed_to_generate])).
Proof.
  intros [R T]. rewrite handle_command_request_halves.
  unfold bind, choose. rewrite R. cbv [ret]. now apply deliver_nothing.
Qed.

(** The follow-up flow when the finalization response is an object whose
    [command] is a [str] that the audit accepts and that is empty, or that
    the audit rejects: in both cases nothing is delivered. *)
Lemma handle_follow_up_nothing (g : generator) (requirements : list (string * pyval))
  (quiet : bool) (w : world) (description_text : string) (prompts : list pyval)
  (lines : list string) (d : list (string * pyval)) (command : string) :
  inputs_collected requirements w description_text prompts lines ->
  parsed w (FinalizationPrompt (directory_structure w) (get requirements "command")
              (combine prompts (map strip lines))) = Some (PDict d) ->
  d <> [] ->
  get d "command" = PStr command ->
  command = EmptyString \/ fst (is_safe_command command) = false ->
  exists evs,
    no_errors evs /\ existsb noticed evs = false
    /\ handle_command_request g requirements quiet w
       = (Ret false,
          advance w (length prompts)
            (evs
             ++ (if fst (is_safe_command command) then []
                 else [unsafe_command_detected (snd (is_safe_command command));
                       generated_command_rejected (snd (is_safe_command command))])
             ++ (if quiet then [] else [failed_to_generate]))%list).
Proof.
  intros Hc P D C Hcase. rewrite handle_command_request_halves.
  pose proof (choose_follow_up g requirements w _ _ _ Hc) as Ch.
  set (w1 := advance w (length prompts) (input_header description_text ++ map asked prompts)%list)
    in *.
  destruct (generate_command_with_inputs_run g (get requirements "command")
              (combine prompts (map strip lines)) w1 d command P D C)
    as (evs & N & B & G).
  exists ((input_header description_text ++ map asked prompts) ++ evs)%list. split; [|split].
  { unfold no_errors in *. rewrite !filter_errors_app, N.
    assert (A : filter is_error (map asked prompts) = []).
    { clear. induction prompts; simpl; auto. }
    now rewrite A. }
  { rewrite !existsb_app, B.
    assert (A : existsb noticed (map asked prompts) = false).
    { clear. induction prompts; simpl; auto. }
    now rewrite A. }
  unfold bind. rewrite Ch, G.
  destruct (fst (is_safe_command command)) eqn:S.
  - destruct Hcase as [-> | F]; [|discriminate F].
    rewrite (deliver_nothing quiet (PStr EmptyString) (get d "description") _ eq_refl).
    unfold w1. rewrite !advance_advance, !Nat.add_0_r, <- !app_assoc. reflexivity.
  - rewrite (deliver_nothing quiet PNone PNone _ eq_refl).
    unfold w1. rewrite !advance_advance, !Nat.add_0_r, <- !app_assoc. reflexivity.
Qed.

(** C8, as the code has it: when the command is missing or empty in the
    direct flow, or is the empty string in the finalization response of the
    follow-up flow, the request fails; the one error reported is the
    failed-to-generate message, and in quiet mode none is: no message of an
    audit rejection is printed. *)
Theorem empty_command_fails (g : generator) (requirements : list (string * pyval))
  (quiet : bool) (w : world) :
  direct_command_empty requirements \/ finalized_command_empty requirements w ->
  result_of (handle_command_request g requirements quiet) w = Ret false
  /\ filter is_error (events_of (handle_command_request g requirements quiet) w)
     = if quiet then [] else [failed_to_generate].
Proof.
  intros [H | (description_text & prompts & lines & d & Hc & P & D & C)].
  - pose proof (handle_direct_empty g requirements quiet w H) as E.
    apply events_of_advance in E. destruct E as [-> ->].
    split; [reflexivity | destruct quiet; reflexivity].
  - destruct (handle_follow_up_nothing g requirements quiet w _ _ _ d EmptyString
                Hc P D C (or_introl eq_refl)) as (evs & N & _ & E).
    apply events_of_advance in E. destruct E as [-> ->].
    split; [reflexivity|].
    change (fst (is_safe_command EmptyString)) with true. cbv iota.
    rewrite !filter_errors_app, N. destruct quiet; reflexivity.
Qed.

(** A request for a commit whose message is to be asked for. *)
Definition commit_requirements : list (string * pyval) :=
  [ ("is_command_request", PBool true); ("requires_input", PBool true);
    ("inputs", PList [PStr "commit message"]); ("command", PStr "git commit -m MESSAGE") ].

(** The text of an object whose [command] is the empty string. *)
Definition empty_command_text : string :=
  "{" ++ quoted "command" ++ ": " ++ quoted EmptyString ++ ", "
      ++ quoted "description" ++ ": " ++ quoted "nothing to do" ++ "}".

Definition typing (lines : list stdin_item) (text : string) : world :=
  {| stdin := lines; llm := fun _ => Some text; literal_eval := fun _ => None;
     directory_structure := "./"; api_key := Some "k"; trace := [] |}.

Lemma empty_command_fails_witness :
  finalized_command_empty commit_requirements (typing [Line "fix bug"] empty_command_text)
  /\ result_of (handle_command_request {| debug := false |} commit_requirements false)
       (typing [Line "fix bug"] empty_command_text) = Ret false
  /\ filter is_error
       (events_of (handle_command_request {| debug := false |} commit_requirements false)
          (typing [Line "fix bug"] empty_command_text))
     = [failed_to_generate].
Proof.
  assert (H : finalized_command_empty commit_requirements
                (typing [Line "fix bug"] empty_command_text)).
  { exists default_input_description, [PStr "commit message"], ["fix bug"],
      [("command", PStr EmptyString); ("description", PStr "nothing to do")].
    repeat split; try reflexivity. discriminate. }
  split; [exact H|].
  exact (empty_command_fails {| debug := false |} commit_requirements false
           (typing [Line "fix bug"] empty_command_text) (or_intror H)).
Defined.

(** C8 as stated fails: in quiet mode an empty command ends the request
    with no message at all. *)
Lemma empty_command_counterexample :
  direct_command_empty [("is_command_request", PBool true); ("command", PStr EmptyString)]
  /\ handle_command_request {| debug := false |}
       [("is_command_request", PBool true); ("command", PStr EmptyString)] true idle_world
     = (Ret false, idle_world)
  /\ trace idle_world = [].
Proof. repeat split; reflexivity. Qed.

(** The finalization response of the follow-up flow is an object whose
    [command] is a [str] that the audit rejects. *)
Definition finalized_command_unsafe (requirements : list (string * pyval)) (w : world)
  (command : string) : Prop :=
  exists description_text prompts lines d,
    inputs_collected requirements w description_text prompts lines
    /\ parsed w (FinalizationPrompt (directory_structure w) (get requirements "command")
                   (combine prompts (map strip lines))) = Some (PDict d)
    /\ d <> []
    /\ get d "command" = PStr command
    /\ fst (is_safe_command command) = false.

(** In the follow-up flow a command that the audit rejects goes no
    further: both rejection messages are printed, and the command is
    neither displayed nor copied. *)
Lemma follow_up_rejection_delivers_nothing (g : generator)
  (requirements : list (string * pyval)) (quiet : bool) (w : world) (command : string) :
  finalized_command_unsafe requirements w command ->
  result_of (handle_command_request g requirements quiet) w = Ret false
  /\ existsb delivers (events_of (handle_command_request g requirements quiet) w) = false
  /\ In (unsafe_command_detected (snd (is_safe_command command)))
       (events_of (handle_command_request g requirements quiet) w)
  /\ In (generated_command_rejected (snd (is_safe_command command)))
       (events_of (handle_command_request g requirements quiet) w).
Proof.
  intros (description_text & prompts & lines & d & Hc & P & D & C & S).
  destruct (handle_follow_up_nothing g requirements quiet w _ _ _ d command
              Hc P D C (or_intror S)) as (evs & _ & B & E).
  apply existsb_noticed in B. destruct B as [_ B].
  rewrite S in E. apply events_of_advance in E. destruct E as [-> ->].
  split; [reflexivity|]. split; [|split].
  - rewrite !existsb_app, B. destruct quiet; reflexivity.
  - apply in_or_app. right. simpl. tauto.
  - apply in_or_app. right. simpl. tauto.
Qed.

(** ** The opening lines are printed by [main] alone *)

Definition not_banner (e : event) : bool := negb (is_banner e).

Ltac emits_step :=
  match goal with
  | |- emits_only _ (bind _ _) => apply emits_bind; [|intros]
  | |- emits_only _ (ret _) => apply emits_ret
  | |- emits_only _ (raise _) => apply emits_raise
  | |- emits_only _ (sys_exit _) => apply emits_exit
  | |- emits_only _ (emit _) => apply emits_emit; reflexivity
  | |- emits_only _ (input _) => apply emits_input; reflexivity
  | |- emits_only _ (generate_content _) => apply emits_generate_content; reflexivity
  | |- emits_only _ get_api_key => apply emits_read
  | |- emits_only _ get_directory_structure => apply emits_read
  | |- emits_only _ (eval_literal _) => apply emits_read
  | |- emits_only _ (if ?b then _ else _) => destruct b
  | |- emits_only _ (match ?x with _ => _ end) => destruct x
  end.

Ltac emits :=
  unfold print_error, print_success, print_warning, print_info, print, print_styled;
  repeat emits_step.

Lemma print_thinking_calm : emits_only not_banner print_thinking.
Proof. unfold print_thinking. emits. Qed.

Lemma validate_input_calm (text : string) : emits_only not_banner (validate_input text).
Proof. unfold validate_input. emits. Qed.

Lemma warn_risks_calm (command : string) (patterns : list (regex * string)) :
  emits_only not_banner (warn_risks command patterns).
Proof.
  induction patterns as [|[pattern warning] rest IH]; cbn [warn_risks]; emits; exact IH.
Qed.

Lemma audit_command_dyn_calm (command description : pyval) :
  emits_only not_banner (audit_command_dyn command description).
Proof.
  destruct command; cbn [audit_command_dyn]; try apply emits_raise.
  unfold audit_command. destruct (is_safe_command s) as [[] reason]; cbn [negb]; emits.
  apply warn_risks_calm.
Qed.

Lemma generate_response_calm (debug : bool) (p : llm_prompt) :
  emits_only not_banner (generate_response debug p).
Proof.
  unfold generate_response. apply emits_bind; [apply print_thinking_calm | intros _]. emits.
Qed.

Lemma init_calm : emits_only not_banner LLMClient.init.
Proof. unfold LLMClient.init. emits. Qed.

Lemma fill_calm (text : pyval) : emits_only not_banner (fill text).
Proof. unfold fill. emits. Qed.

Lemma display_command_calm (command description : pyval) :
  emits_only not_banner (display_command command description).
Proof.
  unfold display_command. emits; try apply fill_calm; emits.
Qed.

Lemma display_answer_calm (answer : pyval) : emits_only not_banner (display_answer answer).
Proof.
  unfold display_answer. emits; try apply fill_calm; emits.
Qed.

Lemma analyze_request_calm (g : generator) (text : string) :
  emits_only not_banner (analyze_request g text).
Proof.
  unfold analyze_request. apply emits_bind; [apply validate_input_calm | intros valid].
  emits. apply generate_response_calm.
Qed.

Lemma generate_command_with_inputs_calm (g : generator) (command_template : pyval)
  (user_inputs : list (pyval * string)) :
  emits_only not_banner (generate_command_with_inputs g command_template user_inputs).
Proof.
  unfold generate_command_with_inputs, as_dict.
  emits_step; [emits|]. emits_step; [apply generate_response_calm|].
  emits_step; [|emits]. emits_step; [emits|].
  emits_step; [apply audit_command_dyn_calm|]. emits.
Qed.

Lemma collect_inputs_calm (prompts : list pyval) :
  forall user_inputs, emits_only not_banner (collect_inputs prompts user_inputs).
Proof.
  induction prompts as [|input_prompt rest IH]; intros user_inputs; cbn [collect_inputs]; emits.
  apply IH.
Qed.

Lemma handle_command_request_calm (g : generator) (requirements : list (string * pyval))
  (quiet : bool) :
  emits_only not_banner (handle_command_request g requirements quiet).
Proof.
  rewrite handle_command_request_halves. apply emits_bind.
  - unfold choose, iterate. emits_step; [|emits].
    emits_step; [emits|]. emits_step; [emits|].
    emits_step; [apply fill_calm|]. emits_step; [emits|]. emits_step; [emits|].
    emits_step; [emits|]. emits_step; [apply collect_inputs_calm|].
    apply generate_command_with_inputs_calm.
  - intros [command description]. unfold deliver, copy.
    emits_step; [|emits].
    emits_step; [apply display_command_calm|]. emits.
Qed.

Lemma handle_question_request_calm (requirements : list (string * pyval)) (quiet : bool) :
  emits_only not_banner (handle_question_request requirements quiet).
Proof.
  unfold handle_question_request.
  emits_step; [|emits]. emits_step; [apply display_answer_calm|]. emits.
Qed.

(** ** The whole request *)

(** [main] after the analysis. *)
Definition classify (a : args) (g : generator) (analysis : pyval) : M bool :=
  if truthy analysis then
    requirements <- as_dict analysis ;;
    if truthy (get_or requirements "is_command_request" (PBool false)) then
      handle_command_request g requirements (quiet a)
    else if truthy (get_or requirements "is_question" (PBool false)) then
      handle_question_request requirements (quiet a)
    else
      (if negb (quiet a) then
         print_error [Txt "Could not determine request type. Please be more specific."]
       else ret tt) ;;
      ret false
  else ret false.

Definition analysis_prompt (a : args) (w : world) : llm_prompt :=
  AnalysisPrompt (directory_structure w) (prompt a).

(** The API key is set and the request passes [validate_input]. *)
Definition ready (a : args) (w : world) : Prop :=
  (exists c k, api_key w = Some (String c k))
  /\ find (fun pattern => found IGNORECASE pattern (prompt a)) injection_patterns = None.

Lemma main_halves (a : args) :
  main a
  = try_except
      ((if negb (quiet a) then
          print_styled [Txt "Command Generator"] Blue true ;;
          print_styled [Txt "Analyzing your request..."] Cyan false
        else ret tt) ;;
       LLMClient.init ;;
       analysis <- analyze_request {| debug := debug_flag a |} (prompt a) ;;
       classify a {| debug := debug_flag a |} analysis)
      (print [Txt (String newline "Operation cancelled.")] ;; sys_exit 130)
      (fun e =>
         print_error [Txt "An unexpected error occurred: "; ExnText e] ;;
         sys_exit 1).
Proof. reflexivity. Qed.

Lemma bind_run {A B} (m : M A) (k : A -> M B) (w : world) (x : A) (w' : world) :
  m w = (Ret x, w') -> bind m k w = k x w'.
Proof. unfold bind. now intros ->. Qed.

(** In quiet mode [main] goes silently up to the call of the model, and
    returns what the rest of it returns. *)
Lemma main_quiet_run (a : args) (w : world) :
  quiet a = true -> ready a w ->
  exists evs,
    existsb noticed evs = false
    /\ match parsed w (analysis_prompt a w) with
       | Some _ => no_errors evs
       | None => exists e, In e response_errors /\ In e evs
       end
    /\ forall (b : bool) (w' : world),
         classify a {| debug := debug_flag a |} (value_or_None (parsed w (analysis_prompt a w)))
           (advance w 0 evs) = (Ret b, w') ->
         main a w = (Ret b, w').
Proof.
  intros Q ((c & k & K) & V).
  destruct (generate_response_run (debug_flag a) (analysis_prompt a w) w) as (evs & E & B & P).
  exists evs. split; [exact B|]. split.
  { destruct (parsed w (analysis_prompt a w)); [now apply no_errors_forallb | exact P]. }
  intros b w' C.
  rewrite main_halves. unfold try_except.
  rewrite (bind_run _ _ w tt w) by (rewrite Q; reflexivity).
  rewrite (bind_run _ _ w tt w)
    by (unfold LLMClient.init, bind, get_api_key; rewrite K; reflexivity).
  rewrite (bind_run _ _ w (value_or_None (parsed w (analysis_prompt a w))) (advance w 0 evs)).
  - rewrite C. reflexivity.
  - unfold analyze_request, bind, validate_input. rewrite V. cbv [ret negb].
    unfold get_directory_structure. exact E.
Qed.

(** The two lines [main] opens with, unless quiet. *)
Definition opening (a : args) : list event :=
  if quiet a then []
  else [ Out Blue true [Txt "Command Generator"];
         Out Cyan false [Txt "Analyzing your request..."] ].

(** A request in which [validate_input] finds a pattern ends there: the
    text is reported, the model is not called, and [main] returns [False]. *)
Lemma rejected_input_ends_request (a : args) (w : world) :
  (exists c k, api_key w = Some (String c k)) ->
  find (fun pattern => found IGNORECASE pattern (prompt a)) injection_patterns <> None ->
  main a w
  = (Ret false,
     advance w 0
       (opening a
        ++ [error_line [Txt "Potentially unsafe input detected: "; Txt (prompt a)]])%list).
Proof.
  intros (c & k & K) V. rewrite main_halves. unfold try_except, opening.
  rewrite (bind_run _ _ w tt (advance w 0 (opening a))).
  2:{ unfold opening. destruct (quiet a); cbn [negb].
      - cbv [ret]. now rewrite advance_nothing.
      - cbv [bind print_styled emit]. now rewrite advance_advance. }
  rewrite (bind_run _ _ _ tt (advance w 0 (opening a)))
    by (unfold LLMClient.init, bind, get_api_key; cbn [api_key advance]; rewrite K; reflexivity).
  rewrite (bind_run _ _ _ PNone
             (advance w 0
                (opening a
                 ++ [error_line [Txt "Potentially unsafe input detected: "; Txt (prompt a)]])%list)).
  - reflexivity.
  - unfold analyze_request, bind, validate_input.
    destruct (find _ injection_patterns); [|congruence].
    cbv [bind print_error print_styled emit ret negb]. now rewrite advance_advance.
Qed.

Lemma inputs_collected_advance (requirements : list (string * pyval)) (w : world)
  (evs : list event) (description_text : string) (prompts : list pyval) (lines : list string) :
  inputs_collected requirements w description_text prompts lines ->
  inputs_collected requirements (advance w 0 evs) description_text prompts lines.
Proof. intros H. exact H. Qed.

(** The request is neither a command request nor a question. *)
Definition unclassified (d : list (string * pyval)) : Prop :=
  d <> []
  /\ truthy (get_or d "is_command_request" (PBool false)) = false
  /\ truthy (get_or d "is_question" (PBool false)) = false.

Lemma main_quiet_calm (a : args) : quiet a = true -> emits_only not_banner (main a).
Proof.
  intros Q. rewrite main_halves. apply emits_try_except; [|emits|intros e; emits].
  rewrite Q. cbn [negb].
  emits_step; [emits|]. emits_step; [apply init_calm|].
  emits_step; [apply analyze_request_calm|].
  unfold classify, as_dict. rewrite Q. cbn [negb].
  emits_step; [|emits]. emits_step; [emits|].
  emits_step; [apply handle_command_request_calm|].
  emits_step; [apply handle_question_request_calm|]. emits.
Qed.

Lemma not_banner_events (evs : list event) :
  forallb not_banner evs = true -> existsb is_banner evs = false.
Proof.
  induction evs as [|e evs IH]; simpl; [auto|]. intros H.
  apply andb_true_iff in H. destruct H as [He Hs].
  unfold not_banner in He. apply negb_true_iff in He. now rewrite He, IH.
Qed.

(** The message of [main] for an exception. *)
Definition unexpected_error (e : exn) : event :=
  error_line [Txt "An unexpected error occurred: "; ExnText e].

(** How [main] ends, given how the steps after the analysis end. *)
Definition main_end (r : outcome bool * world) : outcome bool * world :=
  match r with
  | (Raise e, w') =>
      if is_Exception e
      then (Exit 1, advance w' 0 [unexpected_error e])
      else (Exit 130, advance w' 0 [Out Plain false [Txt (String newline "Operation cancelled.")]])
  | r => r
  end.

(** In quiet mode [main] goes silently up to the call of the model, and
    ends as the rest of it does. *)
Lemma main_quiet_end (a : args) (w : world) :
  quiet a = true -> ready a w ->
  exists evs,
    existsb noticed evs = false
    /\ match parsed w (analysis_prompt a w) with
       | Some _ => no_errors evs
       | None => exists e, In e response_errors /\ In e evs
       end
    /\ main a w
       = main_end
           (classify a {| debug := debug_flag a |}
              (value_or_None (parsed w (analysis_prompt a w))) (advance w 0 evs)).
Proof.
  intros Q ((c & k & K) & V).
  destruct (generate_response_run (debug_flag a) (analysis_prompt a w) w) as (evs & E & B & P).
  exists evs. split; [exact B|]. split.
  { destruct (parsed w (analysis_prompt a w)); [now apply no_errors_forallb | exact P]. }
  rewrite main_halves. unfold try_except.
  rewrite (bind_run _ _ w tt w) by (rewrite Q; reflexivity).
  rewrite (bind_run _ _ w tt w)
    by (unfold LLMClient.init, bind, get_api_key; rewrite K; reflexivity).
  rewrite (bind_run _ _ w (value_or_None (parsed w (analysis_prompt a w))) (advance w 0 evs)).
  - unfold main_end.
    destruct (classify _ _ _ _) as [[b|e|code] w']; reflexivity.
  - unfold analyze_request, bind, validate_input. rewrite V. cbv [ret negb].
    unfold get_directory_structure. exact E.
Qed.

(** The prompt of the finalization: the template and the answers. *)
Definition finalization_prompt (requirements : list (string * pyval)) (w : world)
  (prompts : list pyval) (lines : list string) : llm_prompt :=
  FinalizationPrompt (directory_structure w) (get requirements "command")
    (combine prompts (map strip lines)).

(** A response with no command that is a [str]: not an object, or an object
    whose [command] is missing or of another type. *)
Definition lacks_command (response : pyval) : bool :=
  match response with
  | PDict d => match get d "command" with PStr _ => false | _ => true end
  | _ => true
  end.

(** The follow-up flow when the finalization gives no command to audit:
    its response fails to parse or is a value Python takes for false, and
    [handle_command_request] returns [False]; or it is another value without
    a [str] command, and the audit, or the lookup of the command, raises. *)
Lemma handle_follow_up_no_audit (g : generator) (requirements : list (string * pyval))
  (w : world) (description_text : string) (prompts : list pyval) (lines : list string) :
  inputs_collected requirements w description_text prompts lines ->
  exists evs,
    existsb noticed evs = false
    /\ match parsed w (finalization_prompt requirements w prompts lines) with
       | Some _ => no_errors evs
       | None => exists e, In e response_errors /\ In e evs
       end
    /\ (truthy (value_or_None (parsed w (finalization_prompt requirements w prompts lines)))
        = false ->
        handle_command_request g requirements true w
        = (Ret false, advance w (length prompts) evs))
    /\ (truthy (value_or_None (parsed w (finalization_prompt requirements w prompts lines)))
        = true ->
        lacks_command (value_or_None (parsed w (finalization_prompt requirements w prompts lines)))
        = true ->
        exists e,
          is_Exception e = true
          /\ handle_command_request g requirements true w
             = (Raise e, advance w (length prompts) evs)).
Proof.
  intros Hc. rewrite handle_command_request_halves.
  pose proof (choose_follow_up g requirements w _ _ _ Hc) as Ch.
  set (w1 := advance w (length prompts) (input_header description_text ++ map asked prompts)%list)
    in *.
  destruct (generate_response_run (debug g) (finalization_prompt requirements w1 prompts lines) w1)
    as (evs & E & B & N).
  change (finalization_prompt requirements w1 prompts lines)
    with (finalization_prompt requirements w prompts lines) in E, N.
  change (parsed w1 (finalization_prompt requirements w prompts lines))
    with (parsed w (finalization_prompt requirements w prompts lines)) in E, N.
  assert (A1 : existsb noticed (map asked prompts) = false)
    by (clear; induction prompts; simpl; auto).
  assert (A2 : filter is_error (map asked prompts) = [])
    by (clear; induction prompts; simpl; auto).
  exists ((input_header description_text ++ map asked prompts) ++ evs)%list.
  split; [now rewrite !existsb_app, A1, B|]. split.
  { destruct (parsed w (finalization_prompt requirements w prompts lines)).
    - apply no_errors_forallb in N. unfold no_errors in *.
      now rewrite !filter_errors_app, A2, N.
    - destruct N as (e & I1 & I2). exists e. split; [exact I1|].
      apply in_or_app. now right. }
  assert (G : generate_command_with_inputs g (get requirements "command")
                (combine prompts (map strip lines)) w1
              = (if truthy (value_or_None
                              (parsed w (finalization_prompt requirements w prompts lines)))
                 then
                   d <- as_dict (value_or_None
                                   (parsed w (finalization_prompt requirements w prompts lines))) ;;
                   verdict <- audit_command_dyn (get d "command") (get d "description") ;;
                   let '(is_safe, result) := verdict in
                   if is_safe then ret (get d "command", get d "description")
                   else
                     print_error [Txt "Generated command was rejected: "; Txt result] ;;
                     ret (PNone, PNone)
                 else ret (PNone, PNone)) (advance w1 0 evs)).
  { unfold generate_command_with_inputs, bind at 1, get_directory_structure.
    unfold bind at 1. fold (finalization_prompt requirements w1 prompts lines).
    change (finalization_prompt requirements w1 prompts lines)
      with (finalization_prompt requirements w prompts lines).
    rewrite E. reflexivity. }
  split.
  - intros T. unfold bind at 1. rewrite Ch, G, T. cbv [ret].
    rewrite (deliver_nothing true PNone PNone _ eq_refl).
    unfold w1. now rewrite !advance_advance, !Nat.add_0_r, app_nil_r.
  - intros T L. rewrite T in G.
    destruct (value_or_None (parsed w (finalization_prompt requirements w prompts lines)))
      as [| | | | | |d] eqn:V;
      try (exists (AttributeError "get"); split; [reflexivity|];
           unfold bind at 1; rewrite Ch, G; cbv [as_dict bind raise];
           unfold w1; now rewrite !advance_advance, !Nat.add_0_r).
    exists (AttributeError "lower"). split; [reflexivity|].
    unfold bind at 1. rewrite Ch, G. cbv [as_dict bind ret].
    cbn [lacks_command] in L.
    destruct (get d "command"); try discriminate L;
      cbv [audit_command_dyn raise]; unfold w1; now rewrite !advance_advance, !Nat.add_0_r.
Qed.

Definition is_dict (v : pyval) : bool :=
  match v with
  | PDict _ => true
  | _ => false
  end.

(** In quiet mode, a response to the analysis that Python takes for false
    ends the request with [False] and no error. *)
Lemma quiet_falsy_analysis (a : args) (w : world) (v : pyval) :
  quiet a = true -> ready a w ->
  parsed w (analysis_prompt a w) = Some v -> truthy v = false ->
  result_of (main a) w = Ret false
  /\ filter is_error (events_of (main a) w) = [].
Proof.
  intros Q R F T. destruct (main_quiet_end a w Q R) as (evs & _ & P & M).
  rewrite F in P, M. cbn [value_or_None] in M.
  unfold classify in M. rewrite T in M. cbv [ret main_end] in M.
  apply events_of_advance in M. destruct M as [-> ->]. auto.
Qed.

(** In quiet mode, a response to the analysis that is not an object, and
    that Python takes for true, is reported as an unexpected error. *)
Lemma quiet_analysis_not_object (a : args) (w : world) (v : pyval) :
  quiet a = true -> ready a w ->
  parsed w (analysis_prompt a w) = Some v -> truthy v = true -> is_dict v = false ->
  result_of (main a) w = Exit 1
  /\ filter is_error (events_of (main a) w) = [unexpected_error (AttributeError "get")].
Proof.
  intros Q R F T D. destruct (main_quiet_end a w Q R) as (evs & _ & P & M).
  rewrite F in P, M. cbn [value_or_None] in M.
  unfold classify in M. rewrite T in M.
  assert (C : (requirements <- as_dict v ;;
               if truthy (get_or requirements "is_command_request" (PBool false)) then
                 handle_command_request {| debug := debug_flag a |} requirements (quiet a)
               else if truthy (get_or requirements "is_question" (PBool false)) then
                 handle_question_request requirements (quiet a)
               else
                 (if negb (quiet a) then
                    print_error [Txt "Could not determine request type. Please be more specific."]
                  else ret tt) ;;
                 ret false) (advance w 0 evs)
              = (Raise (AttributeError "get"), advance w 0 evs)).
  { destruct v; try discriminate D; reflexivity. }
  rewrite C in M. cbn [main_end is_Exception] in M. rewrite advance_advance in M.
  apply events_of_advance in M. destruct M as [-> ->]. split; [reflexivity|].
  unfold no_errors in P. now rewrite filter_errors_app, P.
Qed.

(** In quiet mode, the follow-up flow when the finalization gives no
    command to audit. *)
Lemma quiet_follow_up_no_audit (a : args) (w : world) (d : list (string * pyval))
  (description_text : string) (prompts : list pyval) (lines : list string) :
  quiet a = true -> ready a w ->
  parsed w (analysis_prompt a w) = Some (PDict d) ->
  truthy (get_or d "is_command_request" (PBool false)) = true ->
  inputs_collected d w description_text prompts lines ->
  (parsed w (finalization_prompt d w prompts lines) = None ->
   result_of (main a) w = Ret false
   /\ exists e, In e response_errors /\ In e (events_of (main a) w))
  /\ (forall v,
        parsed w (finalization_prompt d w prompts lines) = Some v -> truthy v = false ->
        result_of (main a) w = Ret false
        /\ filter is_error (events_of (main a) w) = [])
  /\ (forall v,
        parsed w (finalization_prompt d w prompts lines) = Some v -> truthy v = true ->
        lacks_command v = true ->
        exists e,
          result_of (main a) w = Exit 1
          /\ filter is_error (events_of (main a) w) = [unexpected_error e]).
Proof.
  intros Q R F T Hc. destruct (main_quiet_end a w Q R) as (evs & _ & P & M).
  rewrite F in P, M. cbn [value_or_None] in M.
  assert (D : d <> []) by (intros ->; discriminate T).
  unfold classify in M. rewrite (truthy_dict d D) in M.
  assert (C : (requirements <- as_dict (PDict d) ;;
               if truthy (get_or requirements "is_command_request" (PBool false)) then
                 handle_command_request {| debug := debug_flag a |} requirements (quiet a)
               else if truthy (get_or requirements "is_question" (PBool false)) then
                 handle_question_request requirements (quiet a)
               else
                 (if negb (quiet a) then
                    print_error [Txt "Could not determine request type. Please be more specific."]
                  else ret tt) ;;
                 ret false) (advance w 0 evs)
              = handle_command_request {| debug := debug_flag a |} d true (advance w 0 evs)).
  { cbv [as_dict bind ret]. now rewrite T, Q. }
  rewrite C in M. clear C.
  destruct (handle_follow_up_no_audit {| debug := debug_flag a |} d (advance w 0 evs)
              _ _ _ (inputs_collected_advance d w evs _ _ _ Hc))
    as (evs' & _ & N & H0 & H1).
  change (parsed (advance w 0 evs) (finalization_prompt d (advance w 0 evs) prompts lines))
    with (parsed w (finalization_prompt d w prompts lines)) in N, H0, H1.
  unfold no_errors in P.
  split; [|split].
  - intros E. rewrite E in N, H0. rewrite (H0 eq_refl) in M. cbn [main_end] in M.
    rewrite advance_advance in M. apply events_of_advance in M. destruct M as [-> ->].
    split; [reflexivity|]. destruct N as (e & I1 & I2). exists e. split; [exact I1|].
    apply in_or_app. now right.
  - intros v E Tv. rewrite E in N, H0. cbn [value_or_None] in H0.
    rewrite (H0 Tv) in M. cbn [main_end] in M.
    rewrite advance_advance in M. apply events_of_advance in M. destruct M as [-> ->].
    split; [reflexivity|]. unfold no_errors in N. now rewrite filter_errors_app, P, N.
  - intros v E Tv L. rewrite E in N, H1. cbn [value_or_None] in H1.
    destruct (H1 Tv L) as (e & X & Hr). rewrite Hr in M. cbn [main_end] in M. rewrite X in M.
    rewrite !advance_advance in M. apply events_of_advance in M. destruct M as [-> ->].
    exists e. split; [reflexivity|]. unfold no_errors in N.
    now rewrite !filter_errors_app, P, N.
Qed.

(** C9, as the code has it: in quiet mode the opening lines are never
    printed.  Reported: a failure of the model call or of the parser, by
    [generate_response] at either call; an audit rejection, by the two
    messages of the audit; a response that is not an object, and a
    finalization without a command that is a [str], as an unexpected error
    with exit status 1.  Not reported, the request ending with [False] and
    no error message: an unclassified request; a command that is missing or
    empty in the direct flow, or the empty string in the finalization; a
    response to the analysis or to the finalization that parses to a value
    Python takes for false. *)
Theorem quiet_mode_reporting (a : args) (w : world) :
  quiet a = true ->
  existsb is_banner (events_of (main a) w) = false
  /\ (forall p, parsed w p = None ->
       exists e, In e response_errors
                 /\ In e (events_of (generate_response (debug_flag a) p) w))
  /\ (ready a w ->
      (parsed w (analysis_prompt a w) = None ->
       result_of (main a) w = Ret false
       /\ exists e, In e response_errors /\ In e (events_of (main a) w))
      /\ (forall d command,
            parsed w (analysis_prompt a w) = Some (PDict d) ->
            truthy (get_or d "is_command_request" (PBool false)) = true ->
            finalized_command_unsafe d w command ->
            result_of (main a) w = Ret false
            /\ filter is_error (events_of (main a) w)
               = [unsafe_command_detected (snd (is_safe_command command));
                  generated_command_rejected (snd (is_safe_command command))])
      /\ (forall d,
            parsed w (analysis_prompt a w) = Some (PDict d) ->
            unclassified d ->
            result_of (main a) w = Ret false
            /\ filter is_error (events_of (main a) w) = [])
      /\ (forall d,
            parsed w (analysis_prompt a w) = Some (PDict d) ->
            truthy (get_or d "is_command_request" (PBool false)) = true ->
            direct_command_empty d \/ finalized_command_empty d w ->
            result_of (main a) w = Ret false
            /\ filter is_error (events_of (main a) w) = [])
      /\ (forall v,
            parsed w (analysis_prompt a w) = Some v -> truthy v = false ->
            result_of (main a) w = Ret false
            /\ filter is_error (events_of (main a) w) = [])
      /\ (forall v,
            parsed w (analysis_prompt a w) = Some v -> truthy v = true ->
            is_dict v = false ->
            result_of (main a) w = Exit 1
            /\ filter is_error (events_of (main a) w)
               = [unexpected_error (AttributeError "get")])
      /\ (forall d description_text prompts lines,
            parsed w (analysis_prompt a w) = Some (PDict d) ->
            truthy (get_or d "is_command_request" (PBool false)) = true ->
            inputs_collected d w description_text prompts lines ->
            (parsed w (finalization_prompt d w prompts lines) = None ->
             result_of (main a) w = Ret false
             /\ exists e, In e response_errors /\ In e (events_of (main a) w))
            /\ (forall v,
                  parsed w (finalization_prompt d w prompts lines) = Some v ->
                  truthy v = false ->
                  result_of (main a) w = Ret false
                  /\ filter is_error (events_of (main a) w) = [])
            /\ (forall v,
                  parsed w (finalization_prompt d w prompts lines) = Some v ->
                  truthy v = true -> lacks_command v = true ->
                  exists e,
                    result_of (main a) w = Exit 1
                    /\ filter is_error (events_of (main a) w) = [unexpected_error e]))).
Proof.
  intros Q. split; [|split].
  { apply not_banner_events, emits_events, main_quiet_calm, Q. }
  { intros p F. destruct (generate_response_run (debug_flag a) p w) as (evs & E & _ & P).
    rewrite F in P. apply events_of_advance in E. destruct E as [-> _]. exact P. }
  intros R. destruct (main_quiet_run a w Q R) as (evs & _ & P & Run).
  assert (Dict : forall d, truthy (get_or d "is_command_request" (PBool false)) = true ->
                           d <> []).
  { intros d T ->. discriminate T. }
  split; [|split; [|split; [|split; [|split; [|split]]]]].
  5:{ intros v F T. exact (quiet_falsy_analysis a w v Q R F T). }
  5:{ intros v F T D. exact (quiet_analysis_not_object a w v Q R F T D). }
  5:{ intros d description_text prompts lines F T Hc.
      exact (quiet_follow_up_no_audit a w d description_text prompts lines Q R F T Hc). }
  - intros F. rewrite F in P, Run. cbn [value_or_None] in Run.
    specialize (Run false (advance w 0 evs) eq_refl).
    apply events_of_advance in Run. destruct Run as [-> ->]. auto.
  - intros d command F T (description_text & prompts & lines & fd & Hc & Pf & D & C & S).
    rewrite F in P, Run. cbn [value_or_None] in Run.
    destruct (handle_follow_up_nothing {| debug := debug_flag a |} d (quiet a)
                (advance w 0 evs) _ _ _ fd command
                (inputs_collected_advance d w evs _ _ _ Hc) Pf D C (or_intror S))
      as (evs' & N' & _ & E).
    rewrite S in E.
    assert (M : main a w
                = (Ret false,
                   advance w (length prompts)
                     (evs ++ evs'
                      ++ [unsafe_command_detected (snd (is_safe_command command));
                          generated_command_rejected (snd (is_safe_command command))])%list)).
    { apply Run. unfold classify. rewrite (truthy_dict d (Dict d T)).
      cbv [as_dict bind ret]. rewrite T, E, Q, advance_advance.
      reflexivity. }
    apply events_of_advance in M. destruct M as [-> ->].
    split; [reflexivity|].
    rewrite !filter_errors_app, P, N'. reflexivity.
  - intros d F (D & T1 & T2). rewrite F in P, Run. cbn [value_or_None] in Run.
    assert (M : main a w = (Ret false, advance w 0 evs)).
    { apply Run. unfold classify. rewrite (truthy_dict d D).
      cbv [as_dict bind ret]. rewrite T1, T2, Q. reflexivity. }
    apply events_of_advance in M. destruct M as [-> ->]. auto.
  - intros d F T H. rewrite F in P, Run. cbn [value_or_None] in Run.
    assert (E : exists n evs',
               no_errors evs'
               /\ handle_command_request {| debug := debug_flag a |} d true (advance w 0 evs)
                  = (Ret false, advance (advance w 0 evs) n evs')).
    { destruct H as [H | (description_text & prompts & lines & fd & Hc & Pf & D & C)].
      - exists 0, []. split; [reflexivity|].
        apply (handle_direct_empty {| debug := debug_flag a |} d true (advance w 0 evs) H).
      - destruct (handle_follow_up_nothing {| debug := debug_flag a |} d true
                    (advance w 0 evs) _ _ _ fd EmptyString
                    (inputs_collected_advance d w evs _ _ _ Hc) Pf D C (or_introl eq_refl))
          as (evs' & N' & _ & E).
        change (fst (is_safe_command EmptyString)) with true in E. cbn [app] in E.
        rewrite app_nil_r in E. eauto. }
    destruct E as (n & evs' & N' & E).
    assert (M : main a w = (Ret false, advance w n (evs ++ evs')%list)).
    { apply Run. unfold classify. rewrite (truthy_dict d (Dict d T)).
      cbv [as_dict bind ret]. rewrite T, Q, E, advance_advance. reflexivity. }
    apply events_of_advance in M. destruct M as [-> ->].
    split; [reflexivity|].
    rewrite filter_errors_app, P, N'. reflexivity.
Qed.

(** The text of the analysis that asks for a commit message. *)
Definition commit_analysis_text : string :=
  "{" ++ quoted "is_command_request" ++ ": true, " ++ quoted "requires_input" ++ ": true, "
      ++ quoted "inputs" ++ ": [" ++ quoted "commit message" ++ "], "
      ++ quoted "command" ++ ": " ++ quoted "git commit -m MESSAGE" ++ "}".

(** The text of a finalization whose command wipes the disk. *)
Definition wipe_text : string :=
  "{" ++ quoted "is_command_request" ++ ": true, " ++ quoted "requires_input" ++ ": false, "
      ++ quoted "command" ++ ": " ++ quoted "sudo rm -rf /" ++ ", "
      ++ quoted "description" ++ ": " ++ quoted "Delete everything" ++ "}".

(** A world in which the model answers the analysis with [first] and the
    finalization with [second]. *)
Definition conversing (lines : list stdin_item) (first second : string) : world :=
  {| stdin := lines;
     llm := fun p => match p with
                     | AnalysisPrompt _ _ => Some first
                     | FinalizationPrompt _ _ _ => Some second
                     end;
     literal_eval := fun _ => None;
     directory_structure := "./"; api_key := Some "k"; trace := [] |}.

Definition quiet_commit : args :=
  {| prompt := "commit my changes"; quiet := true; debug_flag := false |}.

Lemma quiet_mode_reporting_witness :
  quiet quiet_commit = true
  /\ ready quiet_commit (conversing [Line "fix bug"] commit_analysis_text wipe_text)
  /\ existsb is_banner
       (events_of (main quiet_commit)
          (conversing [Line "fix bug"] commit_analysis_text wipe_text)) = false
  /\ result_of (main quiet_commit) (conversing [Line "fix bug"] commit_analysis_text wipe_text)
     = Ret false
  /\ filter is_error
       (events_of (main quiet_commit)
          (conversing [Line "fix bug"] commit_analysis_text wipe_text))
     = [unsafe_command_detected "Command contains blocked keyword: rm -rf";
        generated_command_rejected "Command contains blocked keyword: rm -rf"].
Proof.
  assert (Q : quiet quiet_commit = true) by reflexivity.
  assert (R : ready quiet_commit (conversing [Line "fix bug"] commit_analysis_text wipe_text)).
  { split; [exists "k"%char, EmptyString; reflexivity | reflexivity]. }
  split; [exact Q|]. split; [exact R|].
  destruct (quiet_mode_reporting quiet_commit
              (conversing [Line "fix bug"] commit_analysis_text wipe_text) Q) as (B & _ & Cases).
  split; [exact B|].
  refine (proj1 (proj2 (Cases R)) commit_requirements "sudo rm -rf /" eq_refl eq_refl _).
  exists default_input_description, [PStr "commit message"], ["fix bug"],
    [("is_command_request", PBool true); ("requires_input", PBool false);
     ("command", PStr "sudo rm -rf /"); ("description", PStr "Delete everything")].
  repeat split; try reflexivity. discriminate.
Defined.

(** The text of an analysis that is neither a command request nor a
    question. *)
Definition unclassified_text : string :=
  "{" ++ quoted "is_command_request" ++ ": false, " ++ quoted "is_question" ++ ": false}".

(** C9 as stated fails: in quiet mode an unclassified request ends with
    [False] and nothing but the progress line of the call to the model is
    printed; so does a request whose command is empty. *)
Lemma quiet_mode_counterexample :
  (result_of (main quiet_commit) (answering unclassified_text) = Ret false
   /\ filter is_error (events_of (main quiet_commit) (answering unclassified_text)) = []
   /\ In (Out Cyan false [Txt "Generating response"])
        (events_of (main quiet_commit) (answering unclassified_text)))
  /\ (result_of (main quiet_commit)
        (answering ("{" ++ quoted "is_command_request" ++ ": true, "
                        ++ quoted "command" ++ ": " ++ quoted EmptyString ++ "}"))
      = Ret false
      /\ filter is_error
           (events_of (main quiet_commit)
              (answering ("{" ++ quoted "is_command_request" ++ ": true, "
                              ++ quoted "command" ++ ": " ++ quoted EmptyString ++ "}")))
         = []).
Proof. repeat split; vm_compute; tauto. Qed.

(** ** The direct flow *)

Definition copy_question : event :=
  Asked [Txt (String newline "Copy to clipboard? [Y/n]: ")].

(** In the direct flow a command that is a non-empty [str] is displayed,
    and copied on request, whatever it is: no audit takes place. *)
Lemma direct_flow_delivers (g : generator) (requirements : list (string * pyval))
  (quiet : bool) (w : world) (command line : string) (rest : list stdin_item) :
  truthy (get_or requirements "requires_input" (PBool false)) = false ->
  get requirements "command" = PStr command ->
  command <> EmptyString ->
  stdin w = Line line :: rest ->
  handle_command_request g requirements quiet w
  = (Ret true,
     advance w 1
       (command_display command (get requirements "description")
        ++ copy_question
        :: (if negb (truthy (PStr (lower (strip line)))) || String.eqb (lower (strip line)) "y"
            then [Copied command;
                  Out Green false [Txt "v "; Txt "Command copied to clipboard!"]]
            else []))%list).
Proof.
  intros R C N S. rewrite handle_command_request_halves.
  unfold bind at 1, choose. rewrite R. cbv [ret]. rewrite C.
  unfold deliver.
  assert (T : truthy (PStr command) = true) by (destruct command; [congruence | reflexivity]).
  rewrite T.
  rewrite (bind_run _ _ w tt _ (display_command_run command _ w)).
  unfold bind at 1, input. rewrite stdin_advance, S. cbn [skipn].
  destruct (negb (truthy (PStr (lower (strip line)))) || String.eqb (lower (strip line)) "y");
    cbv [bind copy emit print_success print_styled ret];
    rewrite !advance_advance; cbn [Nat.add]; rewrite <- ?app_assoc; reflexivity.
Qed.

Definition wipe_request : args :=
  {| prompt := "free some disk space"; quiet := false; debug_flag := false |}.

(** C1 at the failing input: the model answers a request with the command
    [sudo rm -rf /] and [requires_input] false.  The audit would reject the
    command; [main] displays it and, on the user's [y], copies it, with no
    error reported. *)
Theorem direct_flow_skips_audit :
  fst (is_safe_command "sudo rm -rf /") = false
  /\ result_of (main wipe_request) (typing [Line "y"] wipe_text) = Ret true
  /\ In (Out White true [Filled "sudo rm -rf /"])
       (events_of (main wipe_request) (typing [Line "y"] wipe_text))
  /\ In (Copied "sudo rm -rf /")
       (events_of (main wipe_request) (typing [Line "y"] wipe_text))
  /\ filter is_error (events_of (main wipe_request) (typing [Line "y"] wipe_text)) = [].
Proof. repeat split; vm_compute; tauto. Qed.

(** ** Scenarios *)

(** The text of a finalization with a description and no command. *)
Definition no_command_text : string :=
  "{" ++ quoted "description" ++ ": " ++ quoted "Commit the changes" ++ "}".

(** A finalization response without a [command] key: [audit_command] is
    called on [None], [command.lower()] raises, and [main] reports an
    unexpected error and exits with status 1. *)
Example missing_finalized_command_raises :
  result_of (main quiet_commit) (conversing [Line "fix bug"] commit_analysis_text no_command_text)
  = Exit 1
  /\ filter is_error
       (events_of (main quiet_commit)
          (conversing [Line "fix bug"] commit_analysis_text no_command_text))
     = [error_line [Txt "An unexpected error occurred: "; ExnText (AttributeError "lower")]].
Proof. split; vm_compute; reflexivity. Qed.

(** The text of the analysis that answers with a command needing no input. *)
Definition venv_text : string :=
  "{" ++ quoted "is_command_request" ++ ": true, " ++ quoted "requires_input" ++ ": false, "
      ++ quoted "command" ++ ": " ++ quoted "python -m venv env" ++ ", "
      ++ quoted "description" ++ ": " ++ quoted "Create a virtual environment" ++ "}".

(** A request for a virtual environment: the command is displayed, and
    copied when the user presses return. *)
Example venv_delivered :
  main {| prompt := "Create a new virtual environment"; quiet := true; debug_flag := false |}
    (typing [Line EmptyString] venv_text)
  = (Ret true,
     advance (typing [Line EmptyString] venv_text) 1
       ([ Out Cyan false [Txt "Generating response"]; Out Cyan false [Txt "."];
          Out Cyan false [Txt "."]; Out Cyan false [Txt "."]; Out Plain false [];
          Generated (AnalysisPrompt "./" "Create a new virtual environment") ]
        ++ command_display "python -m venv env" (PStr "Create a virtual environment")
        ++ [ copy_question; Copied "python -m venv env";
             Out Green false [Txt "v "; Txt "Command copied to clipboard!"] ])%list).
Proof. vm_compute. reflexivity. Qed.

(** The text of a finalization whose command commits and pushes. *)
Definition push_text : string :=
  "{" ++ quoted "command" ++ ": "
      ++ quoted ("git add . && git commit -m " ++ String Json.backslash (String dquote "fix bug")
                 ++ String Json.backslash (String dquote " && git push"))
      ++ ", " ++ quoted "description" ++ ": " ++ quoted "Commit and push" ++ "}".

(** A push that asks for the commit message: the finalized command passes
    the audit and is displayed; the user declines the copy. *)
Example push_delivered :
  result_of (main quiet_commit) (conversing [Line "fix bug"; Line "n"] commit_analysis_text push_text)
  = Ret true
  /\ In (Out White true
           [Filled ("git add . && git commit -m " ++ quoted "fix bug" ++ " && git push")])
       (events_of (main quiet_commit)
          (conversing [Line "fix bug"; Line "n"] commit_analysis_text push_text))
  /\ existsb (fun e => match e with Copied _ => true | _ => false end)
       (events_of (main quiet_commit)
          (conversing [Line "fix bug"; Line "n"] commit_analysis_text push_text)) = false.
Proof. repeat split; vm_compute; tauto. Qed.

End FlowFacts.

(* ================================================================== *)
(** * What a match says about the text *)

Module ReSound.
Import Str Re StrFacts.

Lemma find_hit {A} (f : A -> bool) (l : list A) (x : A) :
  In x l -> f x = true -> exists y, find f l = Some y /\ In y l /\ f y = true.
Proof.
  induction l as [|a l IH]; simpl; [tauto|]. intros [->|Hin] Hx.
  - rewrite Hx. eauto.
  - destruct (f a) eqn:Fa; [eauto|].
    destruct (IH Hin Hx) as (y & E & I & Fy). eauto.
Qed.

Lemma find_miss {A} (f : A -> bool) (l : list A) :
  (forall x, In x l -> f x = false) -> find f l = None.
Proof.
  induction l as [|a l IH]; simpl; [reflexivity|]. intros H.
  rewrite (H a) by auto. apply IH. auto.
Qed.

(** The characters of a text. *)
Fixpoint occurs (c : ascii) (s : string) : bool :=
  match s with
  | EmptyString => false
  | String x s' => Ascii.eqb x c || occurs c s'
  end.

Lemma occurs_app (c : ascii) (a b : string) :
  occurs c (a ++ b) = occurs c a || occurs c b.
Proof. induction a as [|x a IH]; simpl; [reflexivity|]. now rewrite IH, orb_assoc. Qed.

Lemma occurs_all_chars (p : ascii -> bool) (c : ascii) (s : string) :
  all_chars p s = true -> occurs c s = true -> p c = true.
Proof.
  induction s as [|x s IH]; simpl; [discriminate|]. intros H O.
  apply andb_true_iff in H. destruct H as [Hx Hs].
  apply orb_true_iff in O. destruct O as [O|O]; [|auto].
  apply Ascii.eqb_eq in O. now subst.
Qed.

(** A successful search is an anchored match at some position. *)
Lemma search_from_sound fl re : forall s prev i r,
  search_from fl re prev s = Some (i, r) ->
  exists pre post prev',
    s = pre ++ post /\ String.length pre = i /\ match_here fl re prev' post = Some r.
Proof.
  induction s as [|x s IH]; intros prev i r; simpl.
  - destruct (match_here fl re prev EmptyString) eqn:E; [|discriminate].
    intros H. inversion H; subst. exists EmptyString, EmptyString, prev. auto.
  - destruct (match_here fl re prev (String x s)) eqn:E.
    + intros H. inversion H; subst. exists EmptyString, (String x s), prev. auto.
    + destruct (search_from fl re (Some x) s) as [[j q]|] eqn:F; [|discriminate].
      simpl. intros H. inversion H; subst.
      destruct (IH _ _ _ F) as (pre & post & prev' & -> & L & M).
      exists (String x pre), post, prev'. simpl. auto.
Qed.

Lemma match_One_inv fl a re prev s r :
  match_here fl (One a :: re) prev s = Some r ->
  exists x s' r',
    s = String x s' /\ atom_matches fl a x = true
    /\ match_here fl re (Some x) s' = Some r' /\ r = shift r'.
Proof.
  simpl. destruct s as [|x s']; [discriminate|].
  destruct (atom_matches fl a x) eqn:A; [|discriminate].
  destruct (match_here fl re (Some x) s') as [r'|] eqn:M; [|discriminate].
  simpl. intros H. inversion H. exists x, s', r'. auto.
Qed.

Lemma match_GOpen_inv fl re prev s r :
  match_here fl (GOpen :: re) prev s = Some r ->
  exists r', match_here fl re prev s = Some r'
             /\ r = {| m_len := m_len r'; g_start := 0; g_end := g_end r' |}.
Proof.
  simpl. destruct (match_here fl re prev s) as [r'|]; [|discriminate].
  intros H. inversion H. eauto.
Qed.

Lemma match_GClose_inv fl re prev s r :
  match_here fl (GClose :: re) prev s = Some r ->
  exists r', match_here fl re prev s = Some r'
             /\ r = {| m_len := m_len r'; g_start := g_start r'; g_end := 0 |}.
Proof.
  simpl. destruct (match_here fl re prev s) as [r'|]; [|discriminate].
  intros H. inversion H. eauto.
Qed.

Lemma match_Star_inv fl a re : forall s prev r,
  match_here fl (Star a :: re) prev s = Some r ->
  exists run rest prev' r',
    s = run ++ rest /\ all_chars (atom_matches fl a) run = true
    /\ match_here fl re prev' rest = Some r'
    /\ r = Nat.iter (String.length run) shift r'.
Proof.
  induction s as [|x s IH]; intros prev r.
  - simpl. intros H. exists EmptyString, EmptyString, prev, r. auto.
  - intros H.
    assert (D : (atom_matches fl a x = true
                 /\ exists q, match_here fl (Star a :: re) (Some x) s = Some q /\ r = shift q)
                \/ match_here fl re prev (String x s) = Some r).
    { simpl in H |- *. destruct (atom_matches fl a x); [|auto].
      match type of H with
      | match ?t with _ => _ end = _ => destruct t as [q|] eqn:Q
      end; [|auto].
      inversion H. left. eauto. }
    destruct D as [(A & q & Q & ->)|D].
    + destruct (IH _ _ Q) as (run & rest & prev' & r' & -> & R & M & ->).
      exists (String x run), rest, prev', r'. simpl. rewrite A, R. auto.
    + exists EmptyString, (String x s), prev, r. auto.
Qed.

Lemma match_Lazy_inv fl a re : forall s prev r,
  match_here fl (Lazy a :: re) prev s = Some r ->
  exists run rest prev' r',
    s = run ++ rest /\ all_chars (atom_matches fl a) run = true
    /\ match_here fl re prev' rest = Some r'
    /\ r = Nat.iter (String.length run) shift r'.
Proof.
  induction s as [|x s IH]; intros prev r.
  - simpl. destruct (match_here fl re prev EmptyString) eqn:E; [|discriminate].
    intros H. inversion H; subst. exists EmptyString, EmptyString, prev, r. auto.
  - intros H.
    assert (D : match_here fl re prev (String x s) = Some r
                \/ (atom_matches fl a x = true
                    /\ exists q, match_here fl (Lazy a :: re) (Some x) s = Some q
                                 /\ r = shift q)).
    { simpl in H |- *. destruct (match_here fl re prev (String x s)); [auto|].
      destruct (atom_matches fl a x); [|discriminate].
      match type of H with
      | option_map _ ?t = _ => destruct t as [q|] eqn:Q
      end; [|discriminate].
      inversion H. right. eauto. }
    destruct D as [D|(A & q & Q & ->)].
    + exists EmptyString, (String x s), prev, r. auto.
    + destruct (IH _ _ Q) as (run & rest & prev' & r' & -> & R & M & ->).
      exists (String x run), rest, prev', r'. simpl. rewrite A, R. auto.
Qed.

(** Two texts the flags do not tell apart. *)
Fixpoint same_text (fl : flags) (kw w : string) : bool :=
  match kw, w with
  | EmptyString, EmptyString => true
  | String c kw', String x w' => char_eq fl c x && same_text fl kw' w'
  | _, _ => false
  end.

Lemma match_lits_inv fl re : forall kw prev s r,
  match_here fl (lits kw ++ re)%list prev s = Some r ->
  exists w rest prev' r',
    s = w ++ rest /\ same_text fl kw w = true
    /\ match_here fl re prev' rest = Some r'
    /\ r = Nat.iter (String.length kw) shift r'.
Proof.
  induction kw as [|c kw IH]; intros prev s r H.
  - exists EmptyString, s, prev, r. auto.
  - cbn [lits app] in H. apply match_One_inv in H.
    destruct H as (x & s' & q & -> & A & M & ->).
    destruct (IH _ _ _ M) as (w & rest & prev' & r' & -> & S & M' & ->).
    exists (String x w), rest, prev', r'. simpl in A |- *. rewrite A, S. auto.
Qed.

Lemma same_text_lower (kw w : string) :
  same_text IGNORECASE kw w = true -> lower w = lower kw.
Proof.
  revert w. induction kw as [|c kw IH]; intros [|x w]; simpl; try discriminate; [auto|].
  intros H. apply andb_true_iff in H. destruct H as [C S].
  unfold char_eq in C. simpl in C. apply Ascii.eqb_eq in C.
  now rewrite C, (IH _ S).
Qed.

Lemma same_text_exact (kw w : string) :
  same_text NOFLAGS kw w = true -> w = kw.
Proof.
  revert w. induction kw as [|c kw IH]; intros [|x w]; simpl; try discriminate; [auto|].
  intros H. apply andb_true_iff in H. destruct H as [C S].
  unfold char_eq in C. simpl in C. apply Ascii.eqb_eq in C.
  now rewrite C, (IH _ S).
Qed.

(** A pattern with a literal character matches only a text that has the
    character, up to the flags. *)
Lemma match_needs_literal fl c : forall re prev s r,
  In (One (Lit c)) re -> match_here fl re prev s = Some r ->
  exists x, occurs x s = true /\ char_eq fl c x = true.
Proof.
  induction re as [|it re IH]; intros prev s r I H; [destruct I|].
  destruct I as [->|I].
  - apply match_One_inv in H. destruct H as (x & s' & r' & -> & A & _).
    exists x. simpl. now rewrite Ascii.eqb_refl.
  - destruct it as [a|a|a| | |].
    + apply match_One_inv in H. destruct H as (x & s' & r' & -> & _ & M & _).
      destruct (IH _ _ _ I M) as (y & O & C). exists y. simpl. rewrite O, orb_true_r. auto.
    + apply match_Star_inv in H. destruct H as (run & rest & prev' & r' & -> & _ & M & _).
      destruct (IH _ _ _ I M) as (y & O & C). exists y. rewrite occurs_app, O, orb_true_r. auto.
    + apply match_Lazy_inv in H. destruct H as (run & rest & prev' & r' & -> & _ & M & _).
      destruct (IH _ _ _ I M) as (y & O & C). exists y. rewrite occurs_app, O, orb_true_r. auto.
    + simpl in H. destruct (at_boundary prev s); [eauto|discriminate].
    + simpl in H. destruct (match_here fl re prev s) eqn:M; [eauto|discriminate].
    + simpl in H. destruct (match_here fl re prev s) eqn:M; [eauto|discriminate].
Qed.

Lemma found_needs_literal fl c re s :
  In (One (Lit c)) re -> found fl re s = true ->
  exists x, occurs x s = true /\ char_eq fl c x = true.
Proof.
  unfold found, search. intros I H.
  destruct (search_from fl re None s) as [[i r]|] eqn:E; [|discriminate].
  destruct (search_from_sound _ _ _ _ _ _ E) as (pre & post & prev' & -> & _ & M).
  destruct (match_needs_literal _ _ _ _ _ _ I M) as (x & O & C).
  exists x. rewrite occurs_app, O, orb_true_r. auto.
Qed.

(** A pattern that starts with a word boundary and a literal text is found
    only where the text is, up to the flags. *)
Lemma found_word fl kw re s :
  found fl (WordB :: lits kw ++ re)%list s = true ->
  exists pre w post, s = pre ++ w ++ post /\ same_text fl kw w = true.
Proof.
  unfold found, search. intros H.
  destruct (search_from _ _ None s) as [[i r]|] eqn:E; [|discriminate].
  destruct (search_from_sound _ _ _ _ _ _ E) as (pre & post & prev' & -> & _ & M).
  simpl in M. destruct (at_boundary prev' post); [|discriminate].
  destruct (match_lits_inv _ _ _ _ _ _ M) as (w & rest & _ & _ & -> & S & _).
  eauto.
Qed.

End ReSound.

(* ================================================================== *)
(** * Properties of [sanitize_filename] *)

Module FilenameFacts.
Import Str StrOps Re Filenames StrFacts.

(** The characters of [s] that satisfy [p], in their order. *)
Fixpoint keep (p : ascii -> bool) (s : string) : string :=
  match s with
  | EmptyString => EmptyString
  | String c s' => if p c then String c (keep p s') else keep p s'
  end.

(** The ten characters [sanitize_filename] is written to remove. *)
Definition forbidden (c : ascii) : bool :=
  existsb (Ascii.eqb c)
    ["/"%char; Json.backslash; nul; "<"%char; ">"%char; ":"%char; dquote; "|"%char;
     "?"%char; "*"%char].

Definition allowed (c : ascii) : bool := negb (forbidden c).

Lemma sub_one_of (cs : list ascii) : forall s prev,
  sub_from NOFLAGS [One (OneOf cs)] (fun _ => EmptyString) prev 0 s
  = keep (fun x => negb (existsb (fun c => Ascii.eqb c x) cs)) s.
Proof.
  induction s as [|x s IH]; intros prev; [reflexivity|].
  cbn [sub_from match_here atom_matches keep]. unfold char_eq. cbn [ignorecase NOFLAGS].
  destruct (existsb (fun c => Ascii.eqb c x) cs); cbn [negb option_map shift m_len].
  - apply IH.
  - now rewrite IH.
Qed.

Lemma replace_one_char (c : ascii) (s : string) :
  replace (String c EmptyString) EmptyString s = keep (fun x => negb (Ascii.eqb c x)) s.
Proof.
  unfold replace. induction s as [|x s IH]; [reflexivity|].
  cbn [replace_from starts_with keep String.length Nat.sub]. rewrite andb_true_r.
  destruct (Ascii.eqb c x); cbn [negb]; [exact IH | now rewrite IH].
Qed.

Lemma keep_keep (p q : ascii -> bool) (s : string) :
  keep q (keep p s) = keep (fun c => p c && q c) s.
Proof.
  induction s as [|x s IH]; [reflexivity|]. simpl.
  destruct (p x); simpl; [|exact IH]. destruct (q x); now rewrite IH.
Qed.

Lemma keep_ext (p q : ascii -> bool) (s : string) :
  (forall c, p c = q c) -> keep p s = keep q s.
Proof. intros E. induction s as [|x s IH]; simpl; [reflexivity|]. now rewrite E, IH. Qed.

Lemma keep_all (p : ascii -> bool) (s : string) :
  all_chars p s = true -> keep p s = s.
Proof.
  induction s as [|x s IH]; simpl; [reflexivity|]. intros H.
  apply andb_true_iff in H. destruct H as [Hx Hs]. now rewrite Hx, IH.
Qed.

Lemma all_chars_keep (p : ascii -> bool) (s : string) : all_chars p (keep p s) = true.
Proof.
  induction s as [|x s IH]; simpl; [reflexivity|].
  destruct (p x) eqn:P; simpl; [now rewrite P|exact IH].
Qed.

Lemma sanitize_filename_keep (s : string) : sanitize_filename s = keep allowed s.
Proof.
  unfold sanitize_filename, sub.
  rewrite !sub_one_of, replace_one_char, !keep_keep. apply keep_ext.
  intros c. each_ascii c; reflexivity.
Qed.

(** X1: [sanitize_filename] returns the name without its slashes,
    backslashes, null characters and the characters [< > : | ? *] and the
    double quote; every other character stays, in its place in the order.
    Nothing forbidden is left, and sanitizing twice changes nothing more. *)
Theorem sanitize_filename_removes (filename : string) :
  sanitize_filename filename = keep allowed filename
  /\ all_chars allowed (sanitize_filename filename) = true
  /\ sanitize_filename (sanitize_filename filename) = sanitize_filename filename.
Proof.
  rewrite !sanitize_filename_keep. split; [reflexivity|]. split; [apply all_chars_keep|].
  apply keep_all, all_chars_keep.
Qed.

(** X2: a name with none of the ten characters is returned as it is.  Dots
    are not among them: the name [..] and a name that starts with a dot
    pass through unchanged. *)
Theorem sanitize_filename_keeps_clean_names (filename : string) :
  all_chars allowed filename = true -> sanitize_filename filename = filename.
Proof.
  intros H. rewrite sanitize_filename_keep. now apply keep_all.
Qed.

Lemma sanitize_filename_keeps_clean_names_witness :
  all_chars allowed ".." = true /\ sanitize_filename ".." = "..".
Proof.
  split; [reflexivity|].
  exact (sanitize_filename_keeps_clean_names ".." eq_refl).
Defined.

End FilenameFacts.

(* ================================================================== *)
(** * Properties of the denylist and of the input patterns *)

Module DenylistFacts.
Import Str StrOps Re Utils Config Security.
Import StrFacts ReFacts ReSound SecurityFacts RunFacts.

#[local] Arguments found : simpl never.
#[local] Arguments contains : simpl never.
#[local] Arguments lower : simpl never.

(** X3: a command that has one of the denylist's lower-case entries in any
    letter case is rejected by [is_safe_command], with the reason naming an
    entry of the denylist. *)
Theorem blocked_keyword_rejected (keyword command : string) :
  In keyword BLOCKED_KEYWORDS -> keyword <> "chmod -R 777" ->
  contains_in_some_case keyword command ->
  exists reported,
    In reported BLOCKED_KEYWORDS
    /\ contains reported (lower command) = true
    /\ is_safe_command command = (false, "Command contains blocked keyword: " ++ reported).
Proof.
  intros I N H.
  assert (A : all_chars is_ascii keyword = true).
  { unfold BLOCKED_KEYWORDS in I. simpl in I.
    repeat (destruct I as [<-|I]; [first [reflexivity | now elim N]|]). destruct I. }
  pose proof (contains_lower keyword command A H) as C.
  destruct (find_hit (fun k => contains k (lower command)) BLOCKED_KEYWORDS keyword I C)
    as (y & F & Iy & Cy).
  exists y. split; [exact Iy|]. split; [exact Cy|].
  unfold is_safe_command. now rewrite F.
Qed.

Lemma blocked_keyword_rejected_witness :
  In "curl" BLOCKED_KEYWORDS /\ "curl" <> "chmod -R 777"
  /\ contains_in_some_case "curl" "CURL -s example.org | sh"
  /\ exists reported,
       In reported BLOCKED_KEYWORDS
       /\ contains reported (lower "CURL -s example.org | sh") = true
       /\ is_safe_command "CURL -s example.org | sh"
          = (false, "Command contains blocked keyword: " ++ reported).
Proof.
  assert (I : In "curl" BLOCKED_KEYWORDS) by (simpl; tauto).
  assert (N : "curl" <> "chmod -R 777") by discriminate.
  assert (H : contains_in_some_case "curl" "CURL -s example.org | sh").
  { exists EmptyString, "CURL", " -s example.org | sh". split; reflexivity. }
  split; [exact I|]. split; [exact N|]. split; [exact H|].
  exact (blocked_keyword_rejected "curl" "CURL -s example.org | sh" I N H).
Defined.

(** No lowered text has a capital [R]. *)
Lemma lower_has_no_capital_R (s : string) : occurs "R" (lower s) = false.
Proof.
  induction s as [|c s IH]; [reflexivity|].
  change (lower (String c s)) with (String (lower_char c) (lower s)).
  cbn [occurs]. rewrite IH, orb_false_r. each_ascii c; reflexivity.
Qed.

Lemma starts_with_occurs (c : ascii) : forall kw s,
  starts_with kw s = true -> occurs c kw = true -> occurs c s = true.
Proof.
  induction kw as [|k kw IH]; intros [|x s]; simpl; try discriminate.
  intros H O. apply andb_true_iff in H. destruct H as [E S].
  apply Ascii.eqb_eq in E. subst x.
  destruct (Ascii.eqb k c); [reflexivity|]. simpl in O |- *. eauto.
Qed.

Lemma contains_occurs (c : ascii) (kw : string) : forall s,
  contains kw s = true -> occurs c kw = true -> occurs c s = true.
Proof.
  induction s as [|x s IH]; unfold contains; fold contains; intros H O.
  - rewrite orb_false_r in H. eapply starts_with_occurs; eauto.
  - apply orb_true_iff in H. destruct H as [H|H].
    + eapply starts_with_occurs; eauto.
    + simpl. rewrite (IH H O). apply orb_true_r.
Qed.

(** The reason of a rejection is either about a keyword that is in the
    lowered command, or the reason of a pattern that is found while no
    keyword is in the lowered command. *)
Lemma is_safe_command_reason (command : string) :
  (exists keyword,
     In keyword BLOCKED_KEYWORDS /\ contains keyword (lower command) = true
     /\ is_safe_command command = (false, "Command contains blocked keyword: " ++ keyword))
  \/ ((forall keyword, In keyword BLOCKED_KEYWORDS -> contains keyword (lower command) = false)
      /\ ((exists pattern reason,
             In (pattern, reason) dangerous_patterns
             /\ found IGNORECASE pattern command = true
             /\ is_safe_command command = (false, reason))
          \/ is_safe_command command = (true, EmptyString))).
Proof.
  unfold is_safe_command.
  destruct (find (fun keyword => contains keyword (lower command)) BLOCKED_KEYWORDS)
    as [k|] eqn:F.
  - left. exists k. apply find_some in F. destruct F. auto.
  - right. split; [exact (find_none _ _ F)|].
    destruct (find (fun pr => found IGNORECASE (fst pr) command) dangerous_patterns)
      as [[p reason]|] eqn:G; [|auto].
    left. exists p, reason. apply find_some in G. simpl in G. destruct G. auto.
Qed.

(** X4: the denylist entry [chmod -R 777] is never the keyword of a
    rejection: the command is lowered before the entries are looked for,
    and the entry has a capital letter. *)
Theorem capital_keyword_never_reported (command : string) :
  String.eqb (snd (is_safe_command command)) "Command contains blocked keyword: chmod -R 777"
  = false.
Proof.
  apply String.eqb_neq. intros E.
  destruct (is_safe_command_reason command)
    as [(k & I & C & S)|[_ [(p & reason & I & _ & S)|S]]];
    rewrite S in E; cbn [snd] in E.
  - unfold BLOCKED_KEYWORDS in I. simpl in I.
    repeat (destruct I as [<-|I]; [try discriminate E|]); [|destruct I].
    assert (O := contains_occurs "R" _ _ C eq_refl).
    rewrite lower_has_no_capital_R in O. discriminate.
  - unfold dangerous_patterns in I. simpl in I. revert E.
    repeat (destruct I as [I|I]; [inversion I; discriminate|]). destruct I.
  - discriminate.
Qed.

(** A word of lower-case letters found by a pattern, in any case, is in
    the lowered command. *)
Lemma word_pattern_in_lower (kw command : string) (re : regex) :
  lower kw = kw ->
  found IGNORECASE (WordB :: lits kw ++ re)%list command = true ->
  contains kw (lower command) = true.
Proof.
  intros L H. apply found_word in H. destruct H as (pre & w & post & -> & S).
  apply same_text_lower in S. rewrite !lower_app, S, L. apply contains_app.
Qed.

(** X5: for a command of ASCII characters, three reasons of the dangerous
    patterns are never given: for the words [format], [sudo] and [mkfs], the
    denylist has the same word, is consulted first, and finds it wherever
    the pattern would.  (Beyond ASCII the comparison of [re.IGNORECASE] and
    [str.lower] part: the pattern takes U+017F for an [s], [lower] does
    not.) *)
Theorem shadowed_pattern_reasons (command : string) :
  all_chars is_ascii command = true ->
  existsb (String.eqb (snd (is_safe_command command)))
    [ "Command may format storage device";
      "Command requires elevated privileges";
      "Command may format filesystem" ] = false.
Proof.
  intros _. cbn [existsb]. rewrite !orb_false_r.
  destruct (is_safe_command_reason command)
    as [(k & I & C & S)|[N [(p & reason & I & F & S)|S]]];
    rewrite S; cbn [snd]; [reflexivity| |reflexivity].
  unfold dangerous_patterns in I. simpl in I.
  repeat (destruct I as [I|I];
          [inversion I; subst; clear I; try reflexivity|]); [| | |destruct I].
  - apply (word_pattern_in_lower "format") in F; [|reflexivity].
    rewrite (N "format") in F by (simpl; tauto). discriminate.
  - apply (word_pattern_in_lower "sudo") in F; [|reflexivity].
    rewrite (N "sudo") in F by (simpl; tauto). discriminate.
  - apply (word_pattern_in_lower "mkfs") in F; [|reflexivity].
    rewrite (N "mkfs") in F by (simpl; tauto). discriminate.
Qed.

Lemma shadowed_pattern_reasons_witness :
  all_chars is_ascii "SUDO mkfs.ext4 /dev/sdb1" = true
  /\ existsb (String.eqb (snd (is_safe_command "SUDO mkfs.ext4 /dev/sdb1")))
       [ "Command may format storage device";
         "Command requires elevated privileges";
         "Command may format filesystem" ] = false.
Proof.
  split; [reflexivity|].
  exact (shadowed_pattern_reasons "SUDO mkfs.ext4 /dev/sdb1" eq_refl).
Defined.

End DenylistFacts.

(* ================================================================== *)
(** * Properties of [validate_input] *)

Module InputFacts.
Import Str StrOps Re Utils Config Security Extract LLMClient Display CommandGenerator Cli.
Import StrFacts ReFacts ReSound SecurityFacts RunFacts ParserFacts FlowFacts.

#[local] Arguments found : simpl never.
#[local] Arguments contains : simpl never.

(** A character other than the four every pattern but the dash ones needs
    one of. *)
Definition plain_char (c : ascii) : bool :=
  negb (existsb (Ascii.eqb c) ["("%char; "`"%char; ";"%char; "<"%char]).

Lemma symbol_exact (c x : ascii) :
  In c ["("%char; "`"%char; ";"%char; "<"%char; "-"%char] ->
  char_eq IGNORECASE c x = true -> x = c.
Proof.
  intros I. simpl in I.
  repeat (destruct I as [<-|I];
          [each_ascii x; vm_compute; intros H; first [reflexivity | discriminate H]|]).
  destruct I.
Qed.

Lemma needs_symbol (c : ascii) (re : regex) (text : string) :
  In c ["("%char; "`"%char; ";"%char; "<"%char] ->
  In (One (Lit c)) re ->
  all_chars plain_char text = true ->
  found IGNORECASE re text = false.
Proof.
  intros I L P. destruct (found IGNORECASE re text) eqn:F; [|reflexivity].
  destruct (found_needs_literal _ _ _ _ L F) as (x & O & C).
  apply symbol_exact in C; [|simpl in I |- *; tauto]. subst x.
  pose proof (occurs_all_chars _ _ _ P O) as Q.
  simpl in I. repeat (destruct I as [<-|I]; [discriminate Q|]). destruct I.
Qed.

(** A pattern with two dashes in a row is found only where the text has
    them. *)
Lemma needs_dashes (before : string) (re : regex) (text : string) :
  contains "--" text = false ->
  found IGNORECASE (lits before ++ lits "--" ++ re)%list text = false.
Proof.
  intros N. destruct (found _ _ text) eqn:F; [|reflexivity].
  unfold found, search in F.
  destruct (search_from _ _ None text) as [[i r]|] eqn:E; [|discriminate].
  destruct (search_from_sound _ _ _ _ _ _ E) as (pre & post & prev' & -> & _ & M).
  destruct (match_lits_inv _ _ _ _ _ _ M) as (w & rest & prev2 & r2 & -> & _ & M2 & _).
  cbn [lits app] in M2.
  apply match_One_inv in M2. destruct M2 as (x & s1 & r3 & -> & A & M3 & _).
  apply match_One_inv in M3. destruct M3 as (y & s2 & r4 & -> & B & _ & _).
  cbn [atom_matches] in A, B.
  apply symbol_exact in A; [|simpl; tauto]. apply symbol_exact in B; [|simpl; tauto].
  subst x y.
  assert (C : contains "--" (pre ++ w ++ String "-" (String "-" s2)) = true).
  { rewrite <- append_assoc. apply (contains_app "--" (pre ++ w) s2). }
  congruence.
Qed.

(** X6: a request with none of the characters [(], the backtick, [;] and
    [<], and without two dashes in a row, passes [validate_input]: nothing
    is printed and the result is [True]. *)
Theorem validate_input_accepts (text : string) (w : world) :
  all_chars plain_char text = true -> contains "--" text = false ->
  validate_input text w = (Ret true, w).
Proof.
  intros P D. unfold validate_input.
  rewrite find_miss; [reflexivity|].
  intros p I. unfold injection_patterns in I. cbn [In] in I.
  repeat (destruct I as [<-|I];
          [first
             [ apply (needs_symbol "("); [simpl; tauto | simpl; tauto | exact P]
             | apply (needs_symbol "`"); [simpl; tauto | simpl; tauto | exact P]
             | apply (needs_symbol ";"); [simpl; tauto | simpl; tauto | exact P]
             | apply (needs_symbol "<"); [simpl; tauto | simpl; tauto | exact P]
             | exact (needs_dashes EmptyString _ text D)
             | exact (needs_dashes "'" _ text D) ]|]).
  destruct I.
Qed.

Lemma validate_input_accepts_witness :
  all_chars plain_char "show the 10 largest files - newest first" = true
  /\ contains "--" "show the 10 largest files - newest first" = false
  /\ validate_input "show the 10 largest files - newest first" idle_world
     = (Ret true, idle_world).
Proof.
  split; [reflexivity|]. split; [reflexivity|].
  exact (validate_input_accepts "show the 10 largest files - newest first" idle_world
           eq_refl eq_refl).
Defined.

(** Two dashes and a character that is not a line break. *)
Definition mentions_long_option (text : string) : Prop :=
  exists pre c post,
    text = pre ++ "--" ++ String c post /\ c <> newline.

Lemma long_option_found (text : string) :
  mentions_long_option text ->
  found IGNORECASE (lits "--" ++ plus Dot)%list text = true.
Proof.
  intros (pre & c & post & -> & N). apply found_app.
  cbn [lits app plus append]. rewrite !matches_One. cbn [atom_matches].
  replace (char_eq IGNORECASE "-" "-") with true by reflexivity.
  cbn [andb]. unfold plus. rewrite matches_One. cbn [atom_matches dotall IGNORECASE orb].
  apply Ascii.eqb_neq in N. rewrite N. cbn [negb andb].
  apply matches_Star_skip. reflexivity.
Qed.

(** X7: a request that has a pair of backticks on one line, [$( )] on one
    line, or two dashes before any character but a line break is refused:
    [main] prints the error with the request, never calls the model, and
    returns [False]. *)
Theorem suspicious_request_refused (a : args) (w : world) :
  (exists c k, api_key w = Some (String c k)) ->
  backticks_on_a_line (prompt a) \/ substitution_on_a_line (prompt a)
  \/ mentions_long_option (prompt a) ->
  main a w
  = (Ret false,
     advance w 0
       (opening a
        ++ [error_line [Txt "Potentially unsafe input detected: "; Txt (prompt a)]])%list).
Proof.
  intros K H. apply rejected_input_ends_request; [exact K|].
  destruct H as [H|[H|H]].
  - apply backticks_found in H. eapply find_first; [|exact H].
    unfold injection_patterns. simpl. tauto.
  - apply substitution_found in H. eapply find_first; [|exact H].
    unfold injection_patterns. simpl. tauto.
  - apply long_option_found in H. eapply find_first; [|exact H].
    unfold injection_patterns. simpl. tauto.
Qed.

Definition log_request : args :=
  {| prompt := "show the git log with --oneline"; quiet := false; debug_flag := false |}.

Lemma suspicious_request_refused_witness :
  (exists c k, api_key idle_world = Some (String c k))
  /\ (backticks_on_a_line (prompt log_request) \/ substitution_on_a_line (prompt log_request)
      \/ mentions_long_option (prompt log_request))
  /\ main log_request idle_world
     = (Ret false,
        advance idle_world 0
          (opening log_request
           ++ [error_line [Txt "Potentially unsafe input detected: ";
                           Txt (prompt log_request)]])%list).
Proof.
  assert (K : exists c k, api_key idle_world = Some (String c k)).
  { exists "k"%char, EmptyString. reflexivity. }
  assert (H : backticks_on_a_line (prompt log_request)
              \/ substitution_on_a_line (prompt log_request)
              \/ mentions_long_option (prompt log_request)).
  { right. right. exists "show the git log with ", "o"%char, "neline".
    split; [reflexivity | discriminate]. }
  split; [exact K|]. split; [exact H|].
  exact (suspicious_request_refused log_request idle_world K H).
Defined.

End InputFacts.

(* ================================================================== *)
(** * Properties of the response parser *)

Module ResponseFacts.
Import Str StrOps Re Utils Extract LLMClient.
Import StrFacts ReFacts ReSound RunFacts ParserFacts.

(** ** [clean_json_output] in plain terms *)

(** The text from the first [c] on. *)
Fixpoint from_first (c : ascii) (s : string) : option string :=
  match s with
  | EmptyString => None
  | String x s' => if Ascii.eqb x c then Some s else from_first c s'
  end.

(** The text up to the last [c], with it. *)
Fixpoint upto_last (c : ascii) (s : string) : option string :=
  match s with
  | EmptyString => None
  | String x s' =>
      match upto_last c s' with
      | Some t => Some (String x t)
      | None => if Ascii.eqb x c then Some (String x EmptyString) else None
      end
  end.

(** From the first opening brace to the last closing brace after it. *)
Definition object_span (text : string) : option string :=
  match from_first "{" text with
  | Some t => upto_last "}" t
  | None => None
  end.

Lemma from_first_some (c : ascii) : forall s t,
  from_first c s = Some t ->
  exists pre rest,
    s = pre ++ String c rest /\ t = String c rest /\ all_chars (not_char c) pre = true.
Proof.
  induction s as [|x s IH]; intros t; simpl; [discriminate|].
  destruct (Ascii.eqb x c) eqn:E.
  - apply Ascii.eqb_eq in E. subst x. intros H. inversion H.
    exists EmptyString, s. auto.
  - intros H. destruct (IH _ H) as (pre & rest & -> & -> & P).
    exists (String x pre), rest. simpl. unfold not_char at 1.
    rewrite Ascii.eqb_sym, E, P. auto.
Qed.

Lemma from_first_none (c : ascii) : forall s,
  from_first c s = None -> all_chars (not_char c) s = true.
Proof.
  induction s as [|x s IH]; simpl; [reflexivity|].
  destruct (Ascii.eqb x c) eqn:E; [discriminate|]. intros H.
  unfold not_char at 1. now rewrite Ascii.eqb_sym, E, IH.
Qed.

Lemma upto_last_some (c : ascii) : forall s t,
  upto_last c s = Some t ->
  exists body suf,
    s = body ++ String c suf /\ t = body ++ String c EmptyString
    /\ all_chars (not_char c) suf = true.
Proof.
  induction s as [|x s IH]; intros t; simpl; [discriminate|].
  destruct (upto_last c s) as [u|] eqn:U.
  - intros H. inversion H. destruct (IH _ eq_refl) as (body & suf & -> & -> & P).
    exists (String x body), suf. auto.
  - destruct (Ascii.eqb x c) eqn:E; [|discriminate].
    apply Ascii.eqb_eq in E. subst x. intros H. inversion H.
    exists EmptyString, s. split; [reflexivity|]. split; [reflexivity|].
    clear - U. induction s as [|y s IH]; simpl in *; [reflexivity|].
    destruct (upto_last c s); [discriminate|].
    destruct (Ascii.eqb y c) eqn:E; [discriminate|].
    unfold not_char at 1. now rewrite Ascii.eqb_sym, E, IH.
Qed.

Lemma upto_last_none (c : ascii) : forall s,
  upto_last c s = None -> all_chars (not_char c) s = true.
Proof.
  induction s as [|y s IH]; simpl in *; [reflexivity|].
  destruct (upto_last c s); [discriminate|].
  destruct (Ascii.eqb y c) eqn:E; [discriminate|]. intros _.
  unfold not_char at 1. now rewrite Ascii.eqb_sym, E, IH.
Qed.

(** With no closing brace in the text, the brace pattern is not found. *)
Lemma brace_search_no_close : forall s prev,
  all_chars (not_char "}") s = true -> search_from DOTALL brace_pattern prev s = None.
Proof.
  induction s as [|x s IH]; intros prev H; [reflexivity|].
  pose proof H as H'. simpl in H. apply andb_true_iff in H. destruct H as [Hx Hs].
  cbn [search_from]. unfold brace_pattern at 1. rewrite match_here_One.
  rewrite (brace_tail_none s (Some x) Hs).
  destruct (atom_matches DOTALL (Lit "{") x); cbn [option_map]; now rewrite IH.
Qed.

(** Nor is it found while no opening brace has been passed. *)
Lemma brace_search_no_open (rest : string) : forall pre prev,
  all_chars (not_char "{") pre = true ->
  (forall prev', search_from DOTALL brace_pattern prev' rest = None) ->
  search_from DOTALL brace_pattern prev (pre ++ rest) = None.
Proof.
  induction pre as [|x pre IH]; intros prev H R; [apply R|].
  simpl in H. apply andb_true_iff in H. destruct H as [Hx Hp].
  change (String x pre ++ rest) with (String x (pre ++ rest)).
  cbn [search_from]. unfold brace_pattern at 1. rewrite match_here_One.
  cbn [atom_matches char_eq ignorecase DOTALL].
  unfold not_char in Hx. apply negb_true_iff in Hx. rewrite Hx.
  now rewrite IH.
Qed.

Lemma clean_json_output_object (text sp : string) :
  object_span text = Some sp -> clean_json_output text = Some sp.
Proof.
  unfold object_span. destruct (from_first "{" text) as [t|] eqn:F; [|discriminate].
  intros U. destruct (from_first_some _ _ _ F) as (pre & rest & -> & -> & P).
  destruct (upto_last_some _ _ _ U) as (body & suf & E & -> & Q).
  destruct body as [|b body]; simpl in E; inversion E; subst.
  apply (clean_json_output_span pre body suf P Q).
Qed.

Lemma clean_json_output_no_object (text : string) :
  object_span text = None ->
  search DOTALL (lits "{" ++ [Star Dot] ++ lits "}")%list text = None.
Proof.
  unfold object_span, search.
  change (lits "{" ++ [Star Dot] ++ lits "}")%list with brace_pattern.
  destruct (from_first "{" text) as [t|] eqn:F.
  - intros U. destruct (from_first_some _ _ _ F) as (pre & rest & -> & -> & P).
    apply upto_last_none in U. apply brace_search_no_open; [exact P|].
    intros prev'. now apply brace_search_no_close.
  - intros _. apply from_first_none in F.
    rewrite <- (append_empty text). apply brace_search_no_open; [exact F|].
    reflexivity.
Qed.

(** X8: when the text has an opening brace with a closing brace after it,
    [clean_json_output] returns the text from the first opening brace to
    the last closing brace, whatever is between and around them; when the
    text has no such pair, whatever [clean_json_output] returns is the whole
    text, unchanged. *)
Theorem clean_json_output_cases (response_text : string) :
  match object_span response_text with
  | Some span => clean_json_output response_text = Some span
  | None =>
      forall cleaned,
        clean_json_output response_text = Some cleaned -> cleaned = response_text
  end.
Proof.
  destruct (object_span response_text) as [sp|] eqn:O.
  - now apply clean_json_output_object.
  - intros cleaned. unfold clean_json_output.
    rewrite (clean_json_output_no_object _ O).
    destruct (Json.loads response_text); [|discriminate].
    intros H. now inversion H.
Qed.

(** X9: what [clean_json_output] returns, it returns unchanged when
    applied to it again. *)
Theorem clean_json_output_stable (response_text cleaned : string) :
  clean_json_output response_text = Some cleaned ->
  clean_json_output cleaned = Some cleaned.
Proof.
  intros H. destruct (object_span response_text) as [sp|] eqn:O.
  - rewrite (clean_json_output_object _ _ O) in H. inversion H; subst sp.
    unfold object_span in O.
    destruct (from_first "{" response_text) as [t|] eqn:F; [|discriminate].
    destruct (from_first_some _ _ _ F) as (pre & rest & -> & -> & P).
    destruct (upto_last_some _ _ _ O) as (body & suf & E & -> & Q).
    destruct body as [|b body]; simpl in E; inversion E; subst.
    pose proof (clean_json_output_span EmptyString body EmptyString eq_refl eq_refl) as S.
    simpl in S |- *. exact S.
  - unfold clean_json_output in H.
    rewrite (clean_json_output_no_object _ O) in H.
    destruct (Json.loads response_text) eqn:L; [|discriminate].
    inversion H; subst cleaned.
    unfold clean_json_output. now rewrite (clean_json_output_no_object _ O), L.
Qed.

Lemma clean_json_output_stable_witness :
  clean_json_output "Sure: {'command': 'ls'} (done)" = Some "{'command': 'ls'}"
  /\ clean_json_output "{'command': 'ls'}" = Some "{'command': 'ls'}".
Proof.
  assert (H : clean_json_output "Sure: {'command': 'ls'} (done)" = Some "{'command': 'ls'}")
    by reflexivity.
  split; [exact H|].
  exact (clean_json_output_stable _ _ H).
Defined.

(** ** The last substitution of [fix_json_string] *)

Lemma take_drop (n : nat) : forall s, take n s ++ drop n s = s.
Proof.
  induction n as [|n IH]; intros [|x s]; simpl; try reflexivity. now rewrite IH.
Qed.

Lemma take_more (a b : string) (n : nat) :
  take (String.length a + n) (a ++ b) = a ++ take n b.
Proof. induction a as [|x a IH]; simpl; [reflexivity | now rewrite IH]. Qed.

Lemma iter_shift (n : nat) (r : span) :
  Nat.iter n shift r
  = {| m_len := n + m_len r; g_start := n + g_start r; g_end := n + g_end r |}.
Proof.
  induction n as [|n IH]; simpl; [now destruct r|]. rewrite IH. reflexivity.
Qed.

(** A substitution that writes back what it matched changes nothing. *)
Lemma sub_from_same (fl : flags) (re : regex) (repl : string -> string) :
  (forall prev s r k,
     match_here fl re prev s = Some r -> m_len r = S k ->
     repl (group1_at s r) = take (S k) s) ->
  forall s prev skip, sub_from fl re repl prev skip s = drop skip s.
Proof.
  intros H. induction s as [|x s IH]; intros prev [|k]; try reflexivity.
  - cbn [sub_from drop].
    destruct (match_here fl re prev (String x s)) as [r|] eqn:M.
    + destruct (m_len r) as [|k] eqn:L.
      * now rewrite IH.
      * rewrite (H _ _ _ _ M L), IH. cbn [take append]. now rewrite take_drop.
    + now rewrite IH.
  - cbn [sub_from drop]. apply IH.
Qed.

Lemma replace_absent (c : ascii) (new : string) : forall s,
  all_chars (not_char c) s = true -> replace (String c EmptyString) new s = s.
Proof.
  unfold replace. induction s as [|x s IH]; [reflexivity|]. intros H.
  simpl in H. apply andb_true_iff in H. destruct H as [Hx Hs].
  unfold not_char in Hx. apply negb_true_iff in Hx.
  cbn [replace_from starts_with]. rewrite Hx. cbn [andb].
  now rewrite IH.
Qed.

(** The pattern and the replacement of the last substitution. *)
Definition command_key : string := quoted "command" ++ ": " ++ String dquote EmptyString.

Definition command_pattern : regex :=
  (lits command_key ++ [GOpen; Star (NotIn [dquote]); GClose]
   ++ lits (String dquote EmptyString))%list.

Definition escape_command (g : string) : string :=
  quoted "command" ++ ": "
  ++ quoted (replace (String dquote EmptyString)
               (String Json.backslash (String dquote EmptyString)) g).

Lemma command_pattern_match (prev : option ascii) (s : string) (r : span) (k : nat) :
  match_here NOFLAGS command_pattern prev s = Some r -> m_len r = S k ->
  escape_command (group1_at s r) = take (S k) s.
Proof.
  unfold command_pattern. intros M L.
  destruct (match_lits_inv _ _ _ _ _ _ M) as (w & rest & prev1 & r1 & -> & S1 & M1 & ->).
  apply same_text_exact in S1. subst w.
  cbn [app] in M1.
  apply match_GOpen_inv in M1. destruct M1 as (r2 & M2 & ->).
  apply match_Star_inv in M2. destruct M2 as (run & rest2 & prev2 & r3 & -> & A & M3 & ->).
  apply match_GClose_inv in M3. destruct M3 as (r4 & M4 & ->).
  cbn [lits] in M4. apply match_One_inv in M4.
  destruct M4 as (x & s3 & r5 & -> & X & M5 & ->).
  cbn [match_here] in M5. inversion M5; subst r5; clear M5.
  cbn [atom_matches char_eq ignorecase NOFLAGS] in X. apply Ascii.eqb_eq in X. subst x.
  cbn [shift m_len g_start g_end] in L |- *.
  rewrite !iter_shift in L |- *. cbn [m_len g_start g_end] in L |- *.
  assert (Q : all_chars (not_char dquote) run = true).
  { clear - A. induction run as [|y run IH]; simpl in *; [reflexivity|].
    apply andb_true_iff in A. destruct A as [Ay Ar].
    unfold char_eq in Ay. cbn [ignorecase NOFLAGS] in Ay. rewrite orb_false_r in Ay.
    unfold not_char at 1. now rewrite Ay, IH. }
  unfold group1_at. cbn [g_start g_end].
  replace (String.length command_key + (String.length run + 0)
           - (String.length command_key + 0)) with (String.length run) by lia.
  replace (String.length command_key + 0) with (String.length command_key) by lia.
  rewrite drop_app, take_app.
  unfold escape_command. rewrite (replace_absent _ _ _ Q).
  replace (S k) with (String.length command_key + (String.length run + 1)) by lia.
  rewrite take_more, take_more. cbn [take]. unfold command_key, quoted.
  rewrite !append_assoc. reflexivity.
Qed.

(** [fix_json_string] up to its last substitution. *)
Definition fix_json_string_before_last (json_str : string) : string :=
  let json_str :=
    sub NOFLAGS (lits "'" ++ [GOpen; Star (NotIn [squote]); GClose] ++ lits "':")%list
      (fun g => quoted g ++ ":") json_str in
  let json_str :=
    sub NOFLAGS (lits ": '" ++ [GOpen; Star (NotIn [squote]); GClose] ++ lits "'")%list
      (fun g => ": " ++ quoted g) json_str in
  let json_str := replace "'true'" "true" json_str in
  let json_str := replace "'false'" "false" json_str in
  let json_str := replace "'null'" "null" json_str in
  let json_str := replace "None" "null" json_str in
  sub NOFLAGS (lits "[" ++ [GOpen; Lazy Dot; GClose] ++ lits "]")%list fix_arrays json_str.

(** X10: the last substitution of [fix_json_string], written to escape the
    double quotes in the value of the [command] key, changes no text: the
    value it matches has no double quote, and it is written back as it was.
    So does the function return what its other substitutions made. *)
Theorem command_escaping_changes_nothing (json_str : string) :
  sub NOFLAGS command_pattern escape_command json_str = json_str
  /\ fix_json_string json_str
     = match Json.loads json_str with
       | Some _ => json_str
       | None => fix_json_string_before_last json_str
       end.
Proof.
  assert (I : forall s, sub NOFLAGS command_pattern escape_command s = s).
  { intros s. unfold sub. apply (sub_from_same _ _ _ command_pattern_match). }
  split; [apply I|].
  unfold fix_json_string. destruct (Json.loads json_str); [reflexivity|].
  cbv zeta. apply I.
Qed.

End ResponseFacts.

(* ================================================================== *)
(** * Properties of a whole invocation *)

Module SessionFacts.
Import Str StrOps Re Utils Config Security Extract LLMClient Display CommandGenerator Cli.
Import StrFacts ReFacts ReSound SecurityFacts RunFacts ParserFacts FlowFacts.

#[local] Arguments found : simpl never.

(** ** One call of the model *)

Definition is_model_call (e : event) : bool :=
  match e with
  | Generated _ => true
  | _ => false
  end.

(** X11: [generate_response] never raises and reads nothing from standard
    input.  It calls the model once.  It returns the parsed value, having
    printed no error, or [None], having printed exactly one error. *)
Theorem generate_response_outcome (debug : bool) (p : llm_prompt) (w : world) :
  exists evs,
    generate_response debug p w = (Ret (value_or_None (parsed w p)), advance w 0 evs)
    /\ filter is_model_call evs = [Generated p]
    /\ match parsed w p with
       | Some _ => filter is_error evs = []
       | None => exists e, In e response_errors /\ filter is_error evs = [e]
       end.
Proof.
  unfold parsed.
  destruct debug;
    cbv [generate_response bind print_thinking print_styled print print_error
         generate_content eval_literal ret emit];
    flatten_advance;
    (destruct (llm w p) as [text|];
     [|flatten_advance; eexists; split; [reflexivity|]; split; [reflexivity|];
       eexists; split; [left; reflexivity|]; reflexivity]);
    (destruct (clean_json_output (strip text)) as [cleaned|];
     [|flatten_advance; eexists; split; [reflexivity|]; split; [reflexivity|];
       eexists; split; [right; right; left; reflexivity|]; reflexivity]);
    (destruct (truthy (PStr cleaned));
     [|flatten_advance; eexists; split; [reflexivity|]; split; [reflexivity|];
       eexists; split; [right; right; left; reflexivity|]; reflexivity]);
    (destruct (Json.loads (fix_json_string cleaned)) as [v|];
     [flatten_advance; eexists; split; [reflexivity|]; split; reflexivity|]);
    flatten_advance;
    (destruct (literal_eval w cleaned) as [v|];
     [flatten_advance; eexists; split; [reflexivity|]; split; reflexivity|]);
    flatten_advance; eexists; (split; [reflexivity|]); (split; [reflexivity|]);
    eexists; (split; [right; left; reflexivity|]); reflexivity.
Qed.

(** ** How an invocation ends *)

(** [exits_in C m]: when [m] ends by [sys.exit], the status satisfies [C]. *)
Definition exits_in {A} (C : Z -> bool) (m : M A) : Prop :=
  forall w, match fst (m w) with Exit c => C c = true | _ => True end.

Section Exits.
Context (C : Z -> bool).

Lemma exits_ret {A} (x : A) : exits_in C (ret x).
Proof. intros w. exact I. Qed.

Lemma exits_raise {A} (e : exn) : exits_in C (@raise A e).
Proof. intros w. exact I. Qed.

Lemma exits_exit {A} (code : Z) : C code = true -> exits_in C (@sys_exit A code).
Proof. intros H w. exact H. Qed.

Lemma exits_read {A} (f : world -> A) : exits_in C (fun w => (Ret (f w), w)).
Proof. intros w. exact I. Qed.

Lemma exits_emit (e : event) : exits_in C (emit e).
Proof. intros w. exact I. Qed.

Lemma exits_input (text : list piece) : exits_in C (input text).
Proof. intros w. unfold input. destruct (stdin w) as [|[s|] rest]; exact I. Qed.

Lemma exits_generate_content (p : llm_prompt) : exits_in C (generate_content p).
Proof. intros w. exact I. Qed.

Lemma exits_bind {A B} (m : M A) (k : A -> M B) :
  exits_in C m -> (forall x, exits_in C (k x)) -> exits_in C (bind m k).
Proof.
  intros Hm Hk w. specialize (Hm w). unfold bind.
  destruct (m w) as [[x|e|c] w']; simpl in *; [apply Hk | exact I | exact Hm].
Qed.

Ltac exits_step :=
  match goal with
  | |- exits_in _ (bind _ _) => apply exits_bind; [|intros]
  | |- exits_in _ (ret _) => apply exits_ret
  | |- exits_in _ (raise _) => apply exits_raise
  | |- exits_in _ (emit _) => apply exits_emit
  | |- exits_in _ (input _) => apply exits_input
  | |- exits_in _ (generate_content _) => apply exits_generate_content
  | |- exits_in _ get_api_key => apply exits_read
  | |- exits_in _ get_directory_structure => apply exits_read
  | |- exits_in _ (eval_literal _) => apply exits_read
  | |- exits_in _ (if ?b then _ else _) => destruct b
  | |- exits_in _ (match ?x with _ => _ end) => destruct x
  end.

Ltac exits :=
  unfold print_error, print_success, print_warning, print_info, print_thinking, print,
    print_styled, fill, as_dict, iterate, copy;
  repeat exits_step.

Lemma warn_risks_exits (command : string) (patterns : list (regex * string)) :
  exits_in C (warn_risks command patterns).
Proof.
  induction patterns as [|[pattern warning] rest IH]; cbn [warn_risks]; exits; exact IH.
Qed.

Lemma audit_command_dyn_exits (command description : pyval) :
  exits_in C (audit_command_dyn command description).
Proof.
  destruct command; cbn [audit_command_dyn]; try apply exits_raise.
  unfold audit_command. destruct (is_safe_command s) as [[] reason]; cbn [negb]; exits.
  apply warn_risks_exits.
Qed.

Lemma generate_response_exits (debug : bool) (p : llm_prompt) :
  exits_in C (generate_response debug p).
Proof. unfold generate_response. exits. Qed.

Lemma analyze_request_exits (g : generator) (text : string) :
  exits_in C (analyze_request g text).
Proof.
  unfold analyze_request, validate_input. exits; apply generate_response_exits.
Qed.

Lemma generate_command_with_inputs_exits (g : generator) (command_template : pyval)
  (user_inputs : list (pyval * string)) :
  exits_in C (generate_command_with_inputs g command_template user_inputs).
Proof.
  unfold generate_command_with_inputs.
  exits_step; [exits|]. exits_step; [apply generate_response_exits|].
  exits_step; [|exits]. exits_step; [exits|].
  exits_step; [apply audit_command_dyn_exits|]. exits.
Qed.

Lemma collect_inputs_exits (prompts : list pyval) :
  forall user_inputs, exits_in C (collect_inputs prompts user_inputs).
Proof.
  induction prompts as [|input_prompt rest IH]; intros user_inputs; cbn [collect_inputs]; exits.
  apply IH.
Qed.

Lemma display_command_exits (command description : pyval) :
  exits_in C (display_command command description).
Proof. unfold display_command. exits. Qed.

Lemma handle_command_request_exits (g : generator) (requirements : list (string * pyval))
  (quiet : bool) :
  exits_in C (handle_command_request g requirements quiet).
Proof.
  rewrite handle_command_request_halves. apply exits_bind.
  - unfold choose. exits_step; [|exits].
    exits_step; [exits|]. exits_step; [exits|].
    exits_step; [exits|]. exits_step; [exits|]. exits_step; [exits|].
    exits_step; [exits|]. exits_step; [apply collect_inputs_exits|].
    apply generate_command_with_inputs_exits.
  - intros [command description]. unfold deliver.
    exits_step; [|exits].
    exits_step; [apply display_command_exits|]. exits.
Qed.

Lemma handle_question_request_exits (requirements : list (string * pyval)) (quiet : bool) :
  exits_in C (handle_question_request requirements quiet).
Proof. unfold handle_question_request, display_answer. exits. Qed.

Lemma classify_exits (a : args) (g : generator) (analysis : pyval) :
  exits_in C (classify a g analysis).
Proof.
  unfold classify. exits_step; [|exits]. exits_step; [exits|].
  exits_step; [apply handle_command_request_exits|].
  exits_step; [apply handle_question_request_exits|]. exits.
Qed.

End Exits.

Definition is_one (code : Z) : bool := Z.eqb code 1.

Lemma init_exits : exits_in is_one LLMClient.init.
Proof.
  intros w. unfold LLMClient.init, bind, get_api_key.
  destruct (api_key w) as [[|c k]|]; exact I || reflexivity.
Qed.

(** Inside its [try], [main] ends by [sys.exit] only with status 1. *)
Lemma main_body_exits (a : args) :
  exits_in is_one
    ((if negb (quiet a) then
        print_styled [Txt "Command Generator"] Blue true ;;
        print_styled [Txt "Analyzing your request..."] Cyan false
      else ret tt) ;;
     LLMClient.init ;;
     analysis <- analyze_request {| debug := debug_flag a |} (prompt a) ;;
     classify a {| debug := debug_flag a |} analysis).
Proof.
  apply exits_bind.
  - destruct (quiet a); cbn [negb]; unfold print_styled;
      repeat first [apply exits_bind; [|intros] | apply exits_emit | apply exits_ret].
  - intros _. apply exits_bind; [apply init_exits | intros _].
    apply exits_bind; [apply analyze_request_exits | intros analysis].
    apply classify_exits.
Qed.

(** X12: once the command line is parsed, the script never ends with an
    exception.  It ends by [sys.exit] with status 0, 1 or 130: status 0
    exactly when [main] returns [True]. *)
Theorem script_exit_status (a : args) (w : world) :
  exists code,
    result_of (script a) w = Exit code
    /\ (code = 0 \/ code = 1 \/ code = 130)%Z
    /\ (code = 0%Z <-> result_of (main a) w = Ret true).
Proof.
  unfold result_of, script, bind. rewrite main_halves. unfold try_except.
  pose proof (main_body_exits a w) as B.
  match goal with
  | |- context [match ?body w with _ => _ end] => destruct (body w) as [[b|e|c] w1]
  end; cbn [fst] in *.
  - destruct b; cbv [sys_exit fst].
    + exists 0%Z. split; [reflexivity|]. split; [auto|]. split; reflexivity.
    + exists 1%Z. split; [reflexivity|]. split; [auto|]. split; discriminate.
  - destruct (is_Exception e); cbv [bind print print_error print_styled emit sys_exit fst].
    + exists 1%Z. split; [reflexivity|]. split; [auto|]. split; discriminate.
    + exists 130%Z. split; [reflexivity|]. split; [auto|]. split; discriminate.
  - unfold is_one in B. apply Z.eqb_eq in B. subst c. cbv [fst].
    exists 1%Z. split; [reflexivity|]. split; [auto|]. split; discriminate.
Qed.

(** ** Without an API key *)

Definition key_missing : event :=
  error_line [Txt "API key not found. Please set GEMINI_API_KEY in your .env file."].

(** X13: when [GEMINI_API_KEY] is unset or empty, [main] prints its opening
    lines (unless quiet) and the error about the key, and exits with status
    1: the request is not validated and the model is not called. *)
Theorem missing_key_exits (a : args) (w : world) :
  api_key w = None \/ api_key w = Some EmptyString ->
  main a w = (Exit 1, advance w 0 (opening a ++ [key_missing])%list).
Proof.
  intros K. rewrite main_halves. unfold try_except, opening.
  rewrite (bind_run _ _ w tt (advance w 0 (opening a))).
  2:{ unfold opening. destruct (quiet a); cbn [negb].
      - cbv [ret]. now rewrite advance_nothing.
      - cbv [bind print_styled emit]. now rewrite advance_advance. }
  unfold bind at 1, LLMClient.init, bind at 1, get_api_key. cbn [api_key advance].
  unfold opening.
  destruct K as [-> | ->]; cbv [bind print_error print_styled emit sys_exit];
    rewrite advance_advance; reflexivity.
Qed.

Definition no_key_world : world :=
  {| stdin := []; llm := fun _ => Some "{}"; literal_eval := fun _ => None;
     directory_structure := "./"; api_key := None; trace := [] |}.

Lemma missing_key_exits_witness :
  (api_key no_key_world = None \/ api_key no_key_world = Some EmptyString)
  /\ main wipe_request no_key_world
     = (Exit 1, advance no_key_world 0 (opening wipe_request ++ [key_missing])%list).
Proof.
  assert (K : api_key no_key_world = None \/ api_key no_key_world = Some EmptyString)
    by (left; reflexivity).
  split; [exact K|]. exact (missing_key_exits wipe_request no_key_world K).
Defined.

(** ** The question about the clipboard *)

Definition is_copy (e : event) : bool :=
  match e with
  | Copied _ => true
  | _ => false
  end.

(** The reply that makes [handle_command_request] copy the command: after
    [strip] and [lower], nothing or the letter [y]. *)
Definition accepts_copy (line : string) : bool :=
  let copy_choice := lower (strip line) in
  String.eqb copy_choice EmptyString || String.eqb copy_choice "y".

Lemma command_display_no_copy (command : string) (description : pyval) :
  filter is_copy (command_display command description) = [].
Proof. unfold command_display. destruct (truthy description); reflexivity. Qed.

(** X14: in the direct flow, once a command that is a non-empty [str] is
    displayed, the reply to the clipboard question decides: the command is
    copied exactly when the reply, stripped and lowered, is empty or the one
    letter [y], and the request succeeds either way; an interrupt or the end
    of the input at the question raises, with nothing copied. *)
Theorem copy_question_outcomes (g : generator) (requirements : list (string * pyval))
  (quiet : bool) (w : world) (command : string) :
  truthy (get_or requirements "requires_input" (PBool false)) = false ->
  get requirements "command" = PStr command ->
  command <> EmptyString ->
  match stdin w with
  | Line line :: _ =>
      result_of (handle_command_request g requirements quiet) w = Ret true
      /\ filter is_copy (events_of (handle_command_request g requirements quiet) w)
         = if accepts_copy line then [Copied command] else []
  | Interrupt :: _ =>
      result_of (handle_command_request g requirements quiet) w = Raise KeyboardInterrupt
      /\ filter is_copy (events_of (handle_command_request g requirements quiet) w) = []
  | [] =>
      result_of (handle_command_request g requirements quiet) w = Raise EOFError
      /\ filter is_copy (events_of (handle_command_request g requirements quiet) w) = []
  end.
Proof.
  intros R C N.
  assert (T : truthy (PStr command) = true) by (destruct command; [congruence | reflexivity]).
  destruct (stdin w) as [|[line|] rest] eqn:S.
  - assert (E : handle_command_request g requirements quiet w
                = (Raise EOFError,
                   advance w 1 (command_display command (get requirements "description")
                                ++ [copy_question])%list)).
    { rewrite handle_command_request_halves.
      unfold bind at 1, choose. rewrite R. cbv [ret]. rewrite C. unfold deliver. rewrite T.
      rewrite (bind_run _ _ w tt _ (display_command_run command _ w)).
      unfold bind at 1, input. rewrite stdin_advance, S. cbn [skipn].
      rewrite advance_advance. reflexivity. }
    apply events_of_advance in E. destruct E as [-> ->]. split; [reflexivity|].
    now rewrite filter_app, command_display_no_copy.
  - pose proof (direct_flow_delivers g requirements quiet w command line rest R C N S) as E.
    apply events_of_advance in E. destruct E as [-> ->]. split; [reflexivity|].
    rewrite filter_app, command_display_no_copy. unfold accepts_copy. cbn [truthy].
    destruct (String.eqb (lower (strip line)) EmptyString);
      destruct (String.eqb (lower (strip line)) "y"); reflexivity.
  - assert (E : handle_command_request g requirements quiet w
                = (Raise KeyboardInterrupt,
                   advance w 1 (command_display command (get requirements "description")
                                ++ [copy_question])%list)).
    { rewrite handle_command_request_halves.
      unfold bind at 1, choose. rewrite R. cbv [ret]. rewrite C. unfold deliver. rewrite T.
      rewrite (bind_run _ _ w tt _ (display_command_run command _ w)).
      unfold bind at 1, input. rewrite stdin_advance, S. cbn [skipn].
      rewrite advance_advance. reflexivity. }
    apply events_of_advance in E. destruct E as [-> ->]. split; [reflexivity|].
    now rewrite filter_app, command_display_no_copy.
Qed.

Definition list_request : list (string * pyval) :=
  [ ("is_command_request", PBool true); ("command", PStr "ls -la") ].

Lemma copy_question_outcomes_witness :
  truthy (get_or list_request "requires_input" (PBool false)) = false
  /\ get list_request "command" = PStr "ls -la"
  /\ "ls -la" <> EmptyString
  /\ result_of (handle_command_request {| debug := false |} list_request false)
       (typing [Line "yes"] "{}") = Ret true
  /\ filter is_copy
       (events_of (handle_command_request {| debug := false |} list_request false)
          (typing [Line "yes"] "{}")) = [].
Proof.
  split; [reflexivity|]. split; [reflexivity|].
  assert (N : "ls -la" <> EmptyString) by discriminate.
  split; [exact N|].
  exact (copy_question_outcomes {| debug := false |} list_request false
           (typing [Line "yes"] "{}") "ls -la" eq_refl eq_refl N).
Defined.

(** ** What the follow-up flow delivers *)




(** [returns_only Q m]: what [m] returns satisfies [Q]. *)
Definition returns_only {A} (Q : A -> Prop) (m : M A) : Prop :=
  forall w x w', m w = (Ret x, w') -> Q x.


Lemma returns_raise {A} (Q : A -> Prop) (e : exn) : returns_only Q (@raise A e).
Proof. intros w y w' E. discriminate E. Qed.



















(** ** The follow-up questions and the finalization *)



(** [generate_command_with_inputs] from the response on. *)
Definition finalize (response : pyval) : M (pyval * pyval) :=
  if truthy response then
    d <- as_dict response ;;
    let command := get d "command" in
    let description := get d "description" in
    verdict <- audit_command_dyn command description ;;
    let '(is_safe, result) := verdict in
    if is_safe then ret (command, description)
    else
      print_error [Txt "Generated command was rejected: "; Txt result] ;;
      ret (PNone, PNone)
  else ret (PNone, PNone).

Lemma generate_command_with_inputs_halves (g : generator) (command_template : pyval)
  (user_inputs : list (pyval * string)) (w : world) :
  generate_command_with_inputs g command_template user_inputs w
  = bind (generate_response (debug g)
            (FinalizationPrompt (directory_structure w) command_template user_inputs))
      finalize w.
Proof. reflexivity. Qed.




(** The prompt of the finalization: the template and the answers. *)
Definition finalization (requirements : list (string * pyval)) (w : world)
  (prompts : list pyval) (lines : list string) : llm_prompt :=
  FinalizationPrompt (directory_structure w) (get requirements "command")
    (combine prompts (map strip lines)).



Definition is_str (v : pyval) : bool :=
  match v with
  | PStr _ => true
  | _ => false
  end.

(** X22: in the follow-up flow, when the finalization response is a
    non-empty object whose [command] is missing or is not a [str],
    [handle_command_request] raises the [AttributeError] of [command.lower()]
    in the audit: nothing is delivered and no error of its own is printed. *)
Theorem finalized_command_not_str_raises (g : generator)
  (requirements : list (string * pyval)) (quiet : bool) (w : world)
  (description_text : string) (prompts : list pyval) (lines : list string)
  (d : list (string * pyval)) :
  inputs_collected requirements w description_text prompts lines ->
  parsed w (finalization requirements w prompts lines) = Some (PDict d) ->
  d <> [] ->
  is_str (get d "command") = false ->
  result_of (handle_command_request g requirements quiet) w = Raise (AttributeError "lower")
  /\ existsb delivers (events_of (handle_command_request g requirements quiet) w) = false
  /\ filter is_error (events_of (handle_command_request g requirements quiet) w) = [].
Proof.
  intros Hc P D S. rewrite handle_command_request_halves.
  pose proof (choose_follow_up g requirements w _ _ _ Hc) as Ch.
  set (w1 := advance w (length prompts) (input_header description_text ++ map asked prompts)%list)
    in *.
  rewrite generate_command_with_inputs_halves in Ch.
  change (directory_structure w1) with (directory_structure w) in Ch.
  fold (finalization requirements w prompts lines) in Ch.
  destruct (generate_response_run (debug g) (finalization requirements w prompts lines) w1)
    as (evs & E & B & N).
  change (parsed w1 (finalization requirements w prompts lines))
    with (parsed w (finalization requirements w prompts lines)) in E, N.
  rewrite P in E, N. cbn [value_or_None] in E. apply no_errors_forallb in N.
  assert (Run : bind (choose g requirements) (deliver quiet) w
                = (Raise (AttributeError "lower"),
                   advance w (length prompts + 0)
                     ((input_header description_text ++ map asked prompts) ++ evs)%list)).
  { unfold bind at 1. rewrite Ch. unfold bind at 1. rewrite E.
    unfold finalize. rewrite (truthy_dict d D). cbv [as_dict bind ret].
    unfold w1. rewrite advance_advance.
    destruct (get d "command"); try discriminate S; reflexivity. }
  apply events_of_advance in Run. destruct Run as [-> ->].
  split; [reflexivity|]. split.
  - rewrite !existsb_app.
    assert (A : existsb delivers (map asked prompts) = false)
      by (clear; induction prompts; simpl; auto).
    apply existsb_noticed in B. destruct B as [_ B]. now rewrite A, B.
  - rewrite !filter_app.
    assert (A : filter is_error (map asked prompts) = [])
      by (clear; induction prompts; simpl; auto).
    unfold no_errors in N. now rewrite A, N.
Qed.

Lemma finalized_command_not_str_raises_witness :
  inputs_collected commit_requirements (typing [Line "fix bug"] no_command_text)
    default_input_description [PStr "commit message"] ["fix bug"]
  /\ parsed (typing [Line "fix bug"] no_command_text)
       (finalization commit_requirements (typing [Line "fix bug"] no_command_text)
          [PStr "commit message"] ["fix bug"])
     = Some (PDict [("description", PStr "Commit the changes")])
  /\ [("description", PStr "Commit the changes")] <> []
  /\ is_str (get [("description", PStr "Commit the changes")] "command") = false
  /\ result_of (handle_command_request {| debug := false |} commit_requirements false)
       (typing [Line "fix bug"] no_command_text) = Raise (AttributeError "lower")
  /\ existsb delivers
       (events_of (handle_command_request {| debug := false |} commit_requirements false)
          (typing [Line "fix bug"] no_command_text)) = false
  /\ filter is_error
       (events_of (handle_command_request {| debug := false |} commit_requirements false)
          (typing [Line "fix bug"] no_command_text)) = [].
Proof.
  assert (H : inputs_collected commit_requirements (typing [Line "fix bug"] no_command_text)
                default_input_description [PStr "commit message"] ["fix bug"])
    by (repeat split; reflexivity).
  assert (P : parsed (typing [Line "fix bug"] no_command_text)
                (finalization commit_requirements (typing [Line "fix bug"] no_command_text)
                   [PStr "commit message"] ["fix bug"])
              = Some (PDict [("description", PStr "Commit the changes")]))
    by reflexivity.
  assert (D : [("description", PStr "Commit the changes")] <> []) by discriminate.
  split; [exact H|]. split; [exact P|]. split; [exact D|]. split; [reflexivity|].
  exact (finalized_command_not_str_raises {| debug := false |} commit_requirements false
           (typing [Line "fix bug"] no_command_text)
           default_input_description [PStr "commit message"] ["fix bug"]
           [("description", PStr "Commit the changes")] H P D eq_refl).
Defined.

End SessionFacts.

(* ================================================================== *)
(** * Properties of [get_directory_structure] *)

Module ListingFacts.
Import Str StrOps Config DirectoryContext.

(** Induction on a directory tree. *)
Fixpoint fs_induction (P : fs -> Prop)
  (step : forall dirs files,
      Forall (fun entry => match snd entry with Some t => P t | None => True end) dirs ->
      P (Folder dirs files))
  (t : fs) {struct t} : P t :=
  match t with
  | Folder dirs files =>
      step dirs files
        ((fix each (l : list (string * option fs)) :
            Forall (fun entry => match snd entry with Some t => P t | None => True end) l :=
            match l with
            | [] => Forall_nil _
            | (name, sub) :: rest =>
                Forall_cons (name, sub)
                  (match sub return match sub with Some t => P t | None => True end with
                   | Some t' => fs_induction P step t'
                   | None => I
                   end)
                  (each rest)
            end) dirs)
  end.

Definition visible (name : string) : bool := negb (hidden name).

(** ** The current directory itself *)

Lemma visit_root_dot (max_depth : option nat) (state : list string * nat)
  (dirnames filenames : list string) :
  visit "." max_depth state (".", dirnames, filenames) = state.
Proof. destruct state as [s n]. destruct max_depth; reflexivity. Qed.

(** X16: called on [.], as [analyze_request] calls it, the function skips
    the directory it starts from: the files of the current directory are
    neither listed nor counted, whatever the depth limit. *)
Theorem root_files_never_listed (max_depth : option nat)
  (dirs : list (string * option fs)) (files : list string) :
  get_directory_structure "." max_depth (Folder dirs files)
  = get_directory_structure "." max_depth (Folder dirs []).
Proof.
  unfold get_directory_structure, walk_all. cbn [os_walk fold_left].
  now rewrite !visit_root_dot.
Qed.

(** ** The lines of the listing *)

(** The level the loop computes for a directory, and the name it shows. *)
Definition level_at (root_dir dirpath : string) : nat :=
  count_char "/" (replace root_dir EmptyString dirpath).

Definition shown_name (root_dir dirpath : string) : string :=
  if (level_at root_dir dirpath =? 0)%nat then
    match basename root_dir with
    | EmptyString => "."
    | b => b
    end
  else basename dirpath.

(** A directory that is listed: its level is within the depth limit, and
    the name shown for it does not start with a dot. *)
Definition listed (root_dir : string) (max_depth : option nat) (dirpath : string) : bool :=
  negb (match max_depth with
        | Some d => (d <? level_at root_dir dirpath)%nat
        | None => false
        end)
  && visible (shown_name root_dir dirpath).

(** The lines for one directory that [os.walk] yields: none if it is not
    listed; otherwise its name and a slash, then a line for each of its
    first ten files that does not start with a dot. *)
Definition lines_of (root_dir : string) (max_depth : option nat)
  (yielded : string * list string * list string) : list string :=
  let '(dirpath, _, filenames) := yielded in
  if listed root_dir max_depth dirpath then
    (spaces (4 * level_at root_dir dirpath) ++ shown_name root_dir dirpath ++ "/")
    :: map (fun filename =>
              spaces (4 * (level_at root_dir dirpath + 1)) ++ display_name filename)
         (filter visible (firstn MAX_FILES_PER_DIR filenames))
  else [].

(** The files counted for one directory: all of them, if it is listed. *)
Definition counted (root_dir : string) (max_depth : option nat)
  (yielded : string * list string * list string) : nat :=
  let '(dirpath, _, filenames) := yielded in
  if listed root_dir max_depth dirpath then length filenames else 0.

(** What [os.walk(root_dir)] yields; nothing for the empty path. *)
Definition walked (root_dir : string) (tree : fs) : list (string * list string * list string) :=
  match root_dir with
  | EmptyString => []
  | _ => os_walk root_dir tree
  end.

Lemma length_take (n : nat) : forall s, String.length (take n s) <= n.
Proof.
  induction n as [|n IH]; intros [|c s]; simpl; try lia. specialize (IH s). lia.
Qed.

Lemma length_app (a b : string) :
  String.length (a ++ b) = String.length a + String.length b.
Proof. induction a as [|c a IH]; simpl; [reflexivity | now rewrite IH]. Qed.

Lemma display_name_short (filename : string) :
  String.length (display_name filename) <= MAX_FILENAME_LENGTH.
Proof.
  unfold display_name.
  destruct (MAX_FILENAME_LENGTH <? String.length filename)%nat eqn:L.
  - rewrite length_app. pose proof (length_take (MAX_FILENAME_LENGTH - 3) filename) as T.
    unfold MAX_FILENAME_LENGTH in *. simpl in *. lia.
  - apply Nat.ltb_ge in L. exact L.
Qed.

Lemma list_files_map (sub_indent : string) : forall limited_files structure,
  list_files sub_indent limited_files structure
  = (structure
     ++ map (fun filename => (sub_indent ++ display_name filename)%string)
          (filter visible limited_files))%list.
Proof.
  induction limited_files as [|f rest IH]; intros structure.
  - cbn [list_files filter map]. now rewrite app_nil_r.
  - cbn [list_files filter]. unfold visible at 1. destruct (hidden f); cbn [negb].
    + apply IH.
    + rewrite IH, <- app_assoc. reflexivity.
Qed.

Lemma marker_hidden (n : nat) :
  hidden ("... (" ++ decimal n ++ " more files)") = true.
Proof. reflexivity. Qed.

Lemma visit_lines_of (root_dir : string) (max_depth : option nat)
  (structure : list string) (total_files : nat)
  (yielded : string * list string * list string) :
  visit root_dir max_depth (structure, total_files) yielded
  = ((structure ++ lines_of root_dir max_depth yielded)%list,
     total_files + counted root_dir max_depth yielded).
Proof.
  destruct yielded as [[dirpath dirnames] filenames].
  unfold visit, lines_of, counted, listed, shown_name, visible.
  fold (level_at root_dir dirpath).
  destruct (match max_depth with
            | Some d => (d <? level_at root_dir dirpath)%nat
            | None => false
            end); cbn [negb andb].
  { now rewrite app_nil_r, Nat.add_0_r. }
  match goal with
  | |- context [hidden ?name] => destruct (hidden name)
  end; cbn [negb].
  { now rewrite app_nil_r, Nat.add_0_r. }
  f_equal. rewrite list_files_map, filter_app, <- app_assoc. cbn [app].
  f_equal. f_equal.
  destruct (MAX_FILES_PER_DIR <? length filenames)%nat.
  - cbn [filter]. unfold visible at 2. rewrite marker_hidden. cbn [negb].
    now rewrite app_nil_r.
  - cbn [filter]. now rewrite app_nil_r.
Qed.

Lemma fold_visit_lines_of (root_dir : string) (max_depth : option nat) :
  forall yielded structure total_files,
    fold_left (visit root_dir max_depth) yielded (structure, total_files)
    = ((structure ++ flat_map (lines_of root_dir max_depth) yielded)%list,
       total_files + list_sum (map (counted root_dir max_depth) yielded)).
Proof.
  induction yielded as [|y rest IH]; intros structure total_files.
  - cbn [fold_left flat_map map list_sum fold_right]. now rewrite app_nil_r, Nat.add_0_r.
  - cbn [fold_left flat_map map]. rewrite visit_lines_of, IH, <- app_assoc.
    f_equal. unfold list_sum. cbn [fold_right]. lia.
Qed.

Lemma walk_all_lines_of (root_dir : string) (max_depth : option nat) (tree : fs) :
  walk_all root_dir max_depth tree
  = (flat_map (lines_of root_dir max_depth) (walked root_dir tree),
     list_sum (map (counted root_dir max_depth) (walked root_dir tree))).
Proof.
  unfold walk_all, walked. destruct root_dir as [|c root]; [reflexivity|].
  now rewrite fold_visit_lines_of.
Qed.

(** X17: the lines that the loop collects are, for each directory that
    [os.walk] yields and in that order: nothing, when the level of the
    directory is over the depth limit or the name shown for it starts with a
    dot; otherwise its name and a slash, indented by four spaces for each
    level, and then a line for each of its first ten file entries that does
    not start with a dot, indented four spaces more and shown in at most
    thirty characters.  The line [... (N more files)] is built and never
    shown.  The files counted are all the files of the directories that are
    listed. *)
Theorem listing_lines (root_dir : string) (max_depth : option nat) (tree : fs) :
  fst (walk_all root_dir max_depth tree)
  = flat_map (lines_of root_dir max_depth) (walked root_dir tree)
  /\ snd (walk_all root_dir max_depth tree)
     = list_sum (map (counted root_dir max_depth) (walked root_dir tree))
  /\ forall filename, String.length (display_name filename) <= MAX_FILENAME_LENGTH.
Proof.
  rewrite walk_all_lines_of. split; [reflexivity|]. split; [reflexivity|].
  apply display_name_short.
Qed.

(** ** Entries that leave no trace *)

(** The tree without the directories whose name starts with a dot. *)
Fixpoint without_hidden (t : fs) : fs :=
  match t with
  | Folder dirs files =>
      Folder
        ((fix each (l : list (string * option fs)) : list (string * option fs) :=
            match l with
            | [] => []
            | (name, sub) :: rest =>
                if hidden name then each rest
                else (name,
                      match sub with
                      | Some t' => Some (without_hidden t')
                      | None => None
                      end) :: each rest
            end) dirs)
        files
  end.

(** The tree with only the first ten entries of each directory that are
    not directories. *)
Fixpoint first_files (t : fs) : fs :=
  match t with
  | Folder dirs files =>
      Folder
        (map (fun entry : string * option fs =>
                let '(name, sub) := entry in
                (name,
                 match sub with
                 | Some t' => Some (first_files t')
                 | None => None
                 end))
           dirs)
        (firstn MAX_FILES_PER_DIR files)
  end.

Lemma os_walk_without_hidden : forall t top,
  os_walk top (without_hidden t) = os_walk top t.
Proof.
  apply (fs_induction (fun t => forall top, os_walk top (without_hidden t) = os_walk top t)).
  intros dirs files IH top. cbn [without_hidden os_walk]. f_equal.
  - f_equal. f_equal. clear IH.
    induction dirs as [|[name sub] rest IHr]; [reflexivity|].
    cbn [filter map fst]. destruct (hidden name) eqn:H; cbn [negb].
    + exact IHr.
    + cbn [map filter fst]. rewrite H. cbn [negb]. now rewrite IHr.
  - induction IH as [|[name sub] rest Hsub Hrest IHr]; [reflexivity|].
    cbn [flat_map]. destruct (hidden name) eqn:H.
    + exact IHr.
    + cbn [flat_map]. rewrite H, IHr. f_equal.
      destruct sub as [t|]; [apply Hsub | reflexivity].
Qed.

(** X18: a directory whose name starts with a dot leaves no trace,
    wherever it is in the tree and whatever it contains: the listing is the
    listing of the tree without such directories. *)
Theorem hidden_directories_leave_no_trace (root_dir : string) (max_depth : option nat)
  (tree : fs) :
  get_directory_structure root_dir max_depth (without_hidden tree)
  = get_directory_structure root_dir max_depth tree.
Proof.
  unfold get_directory_structure, walk_all. now rewrite os_walk_without_hidden.
Qed.

Definition cut (yielded : string * list string * list string)
  : string * list string * list string :=
  let '(dirpath, dirnames, filenames) := yielded in
  (dirpath, dirnames, firstn MAX_FILES_PER_DIR filenames).

Lemma os_walk_first_files : forall t top,
  os_walk top (first_files t) = map cut (os_walk top t).
Proof.
  apply (fs_induction (fun t => forall top, os_walk top (first_files t) = map cut (os_walk top t))).
  intros dirs files IH top. cbn [first_files os_walk map cut]. f_equal.
  - f_equal. f_equal. f_equal. rewrite map_map.
    apply map_ext. intros [name sub]. reflexivity.
  - induction IH as [|[name sub] rest Hsub Hrest IHr]; [reflexivity|].
    cbn [map flat_map]. rewrite map_app, IHr. f_equal.
    destruct (hidden name); [reflexivity|].
    destruct sub as [t|]; [apply Hsub | reflexivity].
Qed.

Lemma list_files_app (sub_indent : string) : forall a b structure,
  list_files sub_indent (a ++ b)%list structure
  = list_files sub_indent b (list_files sub_indent a structure).
Proof.
  induction a as [|f a IH]; intros b structure; [reflexivity|].
  cbn [app list_files]. destruct (hidden f); apply IH.
Qed.

Lemma firstn_short {A} (n : nat) (l : list A) : (n <? length (firstn n l))%nat = false.
Proof. apply Nat.ltb_ge. apply firstn_le_length. Qed.

Lemma visit_cut (root_dir : string) (max_depth : option nat) (structure : list string)
  (n m : nat) (yielded : string * list string * list string) :
  fst (visit root_dir max_depth (structure, n) (cut yielded))
  = fst (visit root_dir max_depth (structure, m) yielded).
Proof.
  destruct yielded as [[dirpath dirnames] filenames]. unfold cut, visit.
  destruct (match max_depth with Some d => _ | None => false end); [reflexivity|].
  match goal with
  | |- context [hidden ?name] => destruct (hidden name); [reflexivity|]
  end.
  cbn [fst]. rewrite firstn_short, firstn_firstn, Nat.min_id, app_nil_r.
  rewrite list_files_app.
  destruct (MAX_FILES_PER_DIR <? length filenames)%nat; reflexivity.
Qed.

Lemma fold_visit_cut (root_dir : string) (max_depth : option nat) :
  forall yielded structure n m,
    fst (fold_left (visit root_dir max_depth) (map cut yielded) (structure, n))
    = fst (fold_left (visit root_dir max_depth) yielded (structure, m)).
Proof.
  induction yielded as [|y rest IH]; intros structure n m; [reflexivity|].
  cbn [map fold_left].
  pose proof (visit_cut root_dir max_depth structure n m y) as E.
  destruct (visit root_dir max_depth (structure, n) (cut y)) as [s1 n1].
  destruct (visit root_dir max_depth (structure, m) y) as [s2 n2].
  cbn [fst] in E. subst s2. apply IH.
Qed.

Lemma counted_cut (root_dir : string) (max_depth : option nat)
  (yielded : string * list string * list string) :
  counted root_dir max_depth (cut yielded) <= counted root_dir max_depth yielded.
Proof.
  destruct yielded as [[dirpath dirnames] filenames]. unfold cut, counted.
  destruct (listed root_dir max_depth dirpath); [|lia].
  rewrite length_firstn. apply Nat.le_min_r.
Qed.

Lemma counted_cut_sum (root_dir : string) (max_depth : option nat) :
  forall yielded,
    list_sum (map (counted root_dir max_depth) (map cut yielded))
    <= list_sum (map (counted root_dir max_depth) yielded).
Proof.
  induction yielded as [|y rest IH]; [reflexivity|].
  cbn [map]. pose proof (counted_cut root_dir max_depth y).
  unfold list_sum in *. cbn [fold_right]. lia.
Qed.

Lemma first_files_counted (root_dir : string) (max_depth : option nat) (tree : fs) :
  snd (walk_all root_dir max_depth (first_files tree))
  <= snd (walk_all root_dir max_depth tree).
Proof.
  rewrite !walk_all_lines_of. cbn [snd]. unfold walked.
  destruct root_dir as [|c root]; [reflexivity|].
  rewrite os_walk_first_files. apply counted_cut_sum.
Qed.

Lemma first_files_lines (root_dir : string) (max_depth : option nat) (tree : fs) :
  fst (walk_all root_dir max_depth (first_files tree))
  = fst (walk_all root_dir max_depth tree).
Proof.
  unfold walk_all. destruct root_dir as [|c root]; [reflexivity|].
  rewrite os_walk_first_files. apply fold_visit_cut.
Qed.

(** X19: the files of a directory after the tenth add no line of their own:
    the lines that the loop collects are those of the tree in which every
    directory keeps its first ten files only.  They are counted all the
    same, and show through the summary line alone, which is added when more
    than 100 files are counted: when at most 100 are, the text returned is
    the same for both trees. *)
Theorem files_after_the_tenth_leave_no_line (root_dir : string) (max_depth : option nat)
  (tree : fs) :
  fst (walk_all root_dir max_depth (first_files tree))
  = fst (walk_all root_dir max_depth tree)
  /\ snd (walk_all root_dir max_depth (first_files tree))
     <= snd (walk_all root_dir max_depth tree)
  /\ (snd (walk_all root_dir max_depth tree) <= 100 ->
      get_directory_structure root_dir max_depth (first_files tree)
      = get_directory_structure root_dir max_depth tree).
Proof.
  pose proof (first_files_lines root_dir max_depth tree) as L.
  pose proof (first_files_counted root_dir max_depth tree) as C.
  split; [exact L|]. split; [exact C|].
  intros H. unfold get_directory_structure.
  destruct (walk_all root_dir max_depth (first_files tree)) as [s1 n1].
  destruct (walk_all root_dir max_depth tree) as [s2 n2].
  cbn [fst snd] in *. subst s2.
  replace (100 <? n1)%nat with false by (symmetry; apply Nat.ltb_ge; lia).
  replace (100 <? n2)%nat with false by (symmetry; apply Nat.ltb_ge; lia).
  reflexivity.
Qed.

(** ** The depth limit, from the current directory *)

(** The name of an entry: not empty, and without a slash. *)
Definition entry_name (name : string) : bool :=
  negb (String.eqb name EmptyString) && all_chars (fun c => negb (Ascii.eqb c "/")) name.

(** Every directory that is walked has the name of an entry. *)
Fixpoint well_named (t : fs) : bool :=
  match t with
  | Folder dirs _ =>
      forallb
        (fun entry : string * option fs =>
           let '(name, sub) := entry in
           hidden name
           || (entry_name name
               && match sub with
                  | Some t' => well_named t'
                  | None => true
                  end))
        dirs
  end.

(** The tree down to [depth] levels below its root: a directory further
    down is not walked. *)
Fixpoint cut_below (depth : nat) (t : fs) {struct t} : fs :=
  match t with
  | Folder dirs files =>
      Folder
        (map (fun entry : string * option fs =>
                let '(name, sub) := entry in
                (name,
                 match depth, sub with
                 | S below, Some t' => Some (cut_below below t')
                 | _, _ => None
                 end))
           dirs)
        files
  end.

(** The level the loop computes for a path, when the root is [.]. *)
Definition level_of (dirpath : string) : nat :=
  count_char "/" (replace "." EmptyString dirpath).

(** A path that does not end with a slash. *)
Definition open_path (top : string) : bool :=
  match last_char None top with
  | Some c => negb (Ascii.eqb c "/")
  | None => false
  end.

Lemma count_char_app (c : ascii) (a b : string) :
  count_char c (a ++ b) = count_char c a + count_char c b.
Proof. induction a as [|x a IH]; simpl; [reflexivity | rewrite IH; lia]. Qed.

Lemma level_of_count (s : string) : level_of s = count_char "/" s.
Proof.
  unfold level_of, replace. induction s as [|x s IH]; [reflexivity|].
  cbn [replace_from starts_with String.length Nat.sub count_char].
  rewrite andb_true_r. destruct (Ascii.eqb "." x) eqn:E.
  - apply Ascii.eqb_eq in E. subst x. cbn [append]. rewrite IH. reflexivity.
  - cbn [count_char]. now rewrite IH.
Qed.

Lemma count_no_slash (name : string) :
  all_chars (fun c => negb (Ascii.eqb c "/")) name = true -> count_char "/" name = 0.
Proof.
  induction name as [|x name IH]; simpl; [reflexivity|]. intros H.
  apply andb_true_iff in H. destruct H as [Hx Hn]. apply negb_true_iff in Hx.
  now rewrite Hx, IH.
Qed.

Lemma last_char_app (d : option ascii) (a b : string) :
  last_char d (a ++ b) = last_char (last_char d a) b.
Proof. revert d. induction a as [|x a IH]; intros d; simpl; [reflexivity | apply IH]. Qed.

Lemma last_char_entry (name : string) : forall d,
  entry_name name = true ->
  exists c, last_char d name = Some c /\ Ascii.eqb c "/" = false.
Proof.
  unfold entry_name. destruct name as [|x name]; [discriminate|]. cbn [String.eqb negb andb].
  revert x. induction name as [|y name IH]; intros x d H.
  - simpl in *. rewrite andb_true_r in H. apply negb_true_iff in H. eauto.
  - cbn [all_chars] in H. apply andb_true_iff in H. destruct H as [_ H].
    cbn [last_char]. apply (IH y (Some x) H).
Qed.

Lemma join_path_open (top name : string) :
  open_path top = true -> join_path top name = top ++ "/" ++ name.
Proof.
  unfold open_path, join_path. destruct (last_char None top) as [c|]; [|discriminate].
  intros H. apply negb_true_iff in H. now rewrite H.
Qed.

Lemma level_of_join (top name : string) :
  open_path top = true -> entry_name name = true ->
  level_of (join_path top name) = S (level_of top)
  /\ open_path (join_path top name) = true.
Proof.
  intros O N. rewrite (join_path_open _ _ O). split.
  - rewrite !level_of_count, !count_char_app.
    unfold entry_name in N. apply andb_true_iff in N. destruct N as [_ N].
    rewrite (count_no_slash _ N). simpl. lia.
  - unfold open_path. rewrite !last_char_app.
    destruct (last_char_entry name (last_char (last_char None top) "/") N) as (c & -> & C).
    now rewrite C.
Qed.

Lemma fold_visit_flat_map {A} (max_depth : option nat)
  (f g : A -> list (string * list string * list string)) :
  forall (l : list A) state,
    Forall (fun x => forall state,
                fold_left (visit "." max_depth) (f x) state
                = fold_left (visit "." None) (g x) state) l ->
    fold_left (visit "." max_depth) (flat_map f l) state
    = fold_left (visit "." None) (flat_map g l) state.
Proof.
  induction l as [|x l IH]; intros state H; [reflexivity|].
  inversion H as [|? ? Hx Hl]; subst. cbn [flat_map].
  rewrite !fold_left_app, Hx. apply IH. exact Hl.
Qed.

(** Below the limit nothing is listed or counted. *)
Lemma walk_too_deep (depth : nat) : forall t top state,
  well_named t = true -> open_path top = true -> depth < level_of top ->
  fold_left (visit "." (Some depth)) (os_walk top t) state = state.
Proof.
  apply (fs_induction
           (fun t => forall top state,
                well_named t = true -> open_path top = true -> depth < level_of top ->
                fold_left (visit "." (Some depth)) (os_walk top t) state = state)).
  intros dirs files IH top state W O L. cbn [os_walk fold_left].
  assert (V : forall dn, visit "." (Some depth) state (top, dn, files) = state).
  { intros dn. destruct state as [s n]. unfold visit. fold (level_of top).
    apply Nat.ltb_lt in L. now rewrite L. }
  rewrite V. clear V. cbn [well_named] in W. revert state.
  induction IH as [|[name sub] rest Hsub Hrest IHr]; intros state; [reflexivity|].
  cbn [forallb] in W. apply andb_true_iff in W. destruct W as [Wn Wr].
  cbn [flat_map]. rewrite fold_left_app.
  destruct (hidden name); [exact (IHr Wr state)|].
  cbn [orb] in Wn. apply andb_true_iff in Wn. destruct Wn as [Nn Ws].
  destruct sub as [t|]; [|exact (IHr Wr state)].
  destruct (level_of_join top name O Nn) as [Lj Oj].
  rewrite (Hsub _ _ Ws Oj) by lia. exact (IHr Wr state).
Qed.

Definition cut_entry (below : nat) (entry : string * option fs) : string * option fs :=
  let '(name, sub) := entry in
  (name,
   match below, sub with
   | S b, Some t' => Some (cut_below b t')
   | _, _ => None
   end).

Lemma os_walk_cut_below (below : nat) (top : string)
  (dirs : list (string * option fs)) (files : list string) :
  os_walk top (cut_below below (Folder dirs files))
  = os_walk top (Folder (map (cut_entry below) dirs) files).
Proof. reflexivity. Qed.

Lemma walk_cut_below : forall t below top state,
  well_named t = true -> open_path top = true ->
  fold_left (visit "." (Some (level_of top + below))) (os_walk top t) state
  = fold_left (visit "." None) (os_walk top (cut_below below t)) state.
Proof.
  apply (fs_induction
           (fun t => forall below top state,
                well_named t = true -> open_path top = true ->
                fold_left (visit "." (Some (level_of top + below))) (os_walk top t) state
                = fold_left (visit "." None) (os_walk top (cut_below below t)) state)).
  intros dirs files IH below top state W O.
  rewrite os_walk_cut_below. cbn [os_walk fold_left].
  match goal with
  | |- fold_left _ _ ?a = fold_left _ _ ?b => assert (E : a = b); [|rewrite E; generalize b]
  end.
  { destruct state as [s n]. unfold visit. fold (level_of top).
    replace (level_of top + below <? level_of top)%nat with false; [reflexivity|].
    symmetry. apply Nat.ltb_ge. lia. }
  clear E. cbn [well_named] in W.
  induction IH as [|[name sub] rest Hsub Hrest IHr]; intros st; [reflexivity|].
  cbn [forallb] in W. apply andb_true_iff in W. destruct W as [Wn Wr].
  cbn [map flat_map cut_entry]. rewrite !fold_left_app.
  destruct (hidden name); [exact (IHr Wr st)|].
  cbn [orb] in Wn. apply andb_true_iff in Wn. destruct Wn as [Nn Ws].
  destruct sub as [t|]; [|destruct below; exact (IHr Wr st)].
  destruct (level_of_join top name O Nn) as [Lj Oj].
  destruct below as [|b].
  - cbn [fold_left]. rewrite (walk_too_deep (level_of top + 0) t _ st Ws Oj) by lia.
    exact (IHr Wr st).
  - replace (level_of top + S b) with (level_of (join_path top name) + b) by lia.
    rewrite (Hsub b _ st Ws Oj).
    replace (level_of (join_path top name) + b) with (level_of top + S b) by lia.
    exact (IHr Wr _).
Qed.

(** X20: called on [.] with a depth limit, the function lists and counts
    what it would without a limit on the tree cut at that depth: from the
    current directory, the level it computes for a directory is the number
    of directories above it, so that directories deeper than the limit
    leave no line and their files are not counted. *)
Theorem depth_limit_from_current_directory (depth : nat) (tree : fs) :
  well_named tree = true ->
  get_directory_structure "." (Some depth) tree
  = get_directory_structure "." None (cut_below depth tree).
Proof.
  intros W. unfold get_directory_structure, walk_all.
  now rewrite <- (walk_cut_below tree depth "." ([], 0) W eq_refl).
Qed.

Definition project_tree : fs :=
  Folder
    [ ("src",
       Some (Folder
               [ ("pkg", Some (Folder [("deep", Some (Folder [] ["notes.txt"]))] ["mod.py"])) ]
               ["main.py"]));
      (".git", Some (Folder [] ["config"])) ]
    ["README.md"].

Lemma depth_limit_from_current_directory_witness :
  well_named project_tree = true
  /\ get_directory_structure "." (Some 2) project_tree
     = get_directory_structure "." None (cut_below 2 project_tree).
Proof.
  split; [reflexivity|].
  exact (depth_limit_from_current_directory 2 project_tree eq_refl).
Defined.

End ListingFacts.
